(** * Giri tracing run-time (runtime/Giri/Tracing.cpp)

    A shallow embedding of the run-time library that instrumented programs
    call to record basic blocks, loads, stores and calls into a trace file
    kept behind a memory-mapped window, with the properties of the entry
    cache, of the two shadow stacks and of the teardown that the
    specification states; and of the passes that give the basic blocks
    the numbers which the hooks receive
    (lib/Utility/BasicBlockNumbering.cpp).

    Conventions.
    - [unsigned] values are integers of [Z] in [0, 2^32); every increment,
      decrement and complement of the source is written with [wrap32].
    - Pointers and [uintptr_t] values are integers of [Z].
    - The global variables of the file are the fields of [State], with the
      number of registrations of the teardown with [atexit]; a function
      of the source is a computation of the monad [M], whose result is a
      normal return, a call of [abort()], or a fault (an access outside an
      array, outside the mapped window or past the end of the file, or a
      read of memory that cannot be read).
    - Assertions are compiled in: a failed [assert] writes its line on
      stderr and calls [abort()].
    - The system calls ([open], [lseek], [write], [mmap], [msync], [munmap])
      are taken to succeed.  A position that [lseek] accepts fits [off_t],
      and the file position stays ahead of the end of the mapped window
      ([inv_pos], part of the invariant [CacheInv] that every operation
      keeps), so the signed addition on [fileOffset]
      does not overflow in the runs the model covers; [off_t] values are
      plain integers.
    - [sizeof (Entry)] is a parameter, [sizeofEntry]: Giri/Runtime.h, which
      declares [Entry], is not among the sources.  [recordInit] aborts
      unless it divides the size of the window, so the theorems about the
      hooks, which run after [recordInit], take it to be positive and to
      divide that size.
    - The mutex around the thread identity is not modelled: the source
      says of itself that it is not thread-safe. *)

From stdpp Require Import base numbers list gmap strings.

Open Scope Z_scope.

(** ** Machine integers *)

Definition wrap32 (z : Z) : Z := z mod 2 ^ 32.

(** ** Trace entries (Giri/Runtime.h) *)

(** Modelled from the spec: the entry kinds of Giri/Runtime.h, which is not
    among the sources; the names are those Tracing.cpp uses. *)
Inductive entry_type : Type :=
| BBType | LDType | STType | CLType | RTType | ENType | INVType | PDType.

(** Modelled from the spec: the struct [Entry] of Giri/Runtime.h (section 3:
    kind, id, address, length; the length carries the call id of a
    basic-block record). *)
Record Entry : Type := mkEntry {
  e_type : entry_type;
  e_id : Z;
  e_address : Z;
  e_length : Z
}.

(** Modelled from the spec: the constructors of [Entry], called with two,
    three or four arguments in Tracing.cpp; a field that the call does not
    give is zero. *)
Definition Entry2 (ty : entry_type) (id : Z) : Entry := mkEntry ty id 0 0.
Definition Entry3 (ty : entry_type) (id p : Z) : Entry := mkEntry ty id p 0.
Definition Entry4 (ty : entry_type) (id p len : Z) : Entry := mkEntry ty id p len.

(** ** The global state *)

(** An element of [BBStack] or [FNStack]: an id and an address. *)
Record Frame : Type := mkFrame { f_id : Z; f_address : Z }.

(** The trace file as the operating system holds it: the records stored in
    it, each under the byte offset of its first byte, the size of the file
    and the position of its descriptor. *)
Record TraceFile : Type := mkTraceFile {
  contents : gmap Z Entry;
  fsize : Z;
  fpos : Z
}.

(** [struct entryCache].  [cache] is the mapped window: [None] is the null
    pointer, [Some base] a mapping of the bytes
    [base, base + entryCacheSizeinBytes) of the file. *)
Record EntryCache : Type := mkEntryCache {
  index : Z;
  cache : option Z;
  fileOffset : Z;
  fd : Z
}.

(** What [printf] and [fprintf] write, one constructor per call site; a
    conversion [%s] shows as the characters that it printed.
    [MsgAssertionFailed] is the line that a failed [assert] writes on
    stderr; it names the file, the function and the expression, which the
    line number of the assertion in Tracing.cpp stands for. *)
Inductive Message : Type :=
| MsgInsideUpdateThreadID
| MsgMoreThreads
| MsgAbnormalTermination (signum : Z)
| MsgWritingCache
| MsgEntrySize (size : Z)
| MsgOpened (name : string)
| MsgStartBBRange (id : Z)
| MsgBBStackOverflow
| MsgForceWrite
| MsgEndBBRange (id : Z)
| MsgFunctionMismatch (id : Z)
| MsgInsideExtCallRet (callID : Z) (fp : string) (top : Z)
| MsgFunctionMismatchExt (callID : Z)
| MsgFNStackOverflow
| MsgInsideExtCall (id fp : Z)
| MsgInsideConnection (name : string)
| MsgAssertionFailed (line : Z).

Record State : Type := mkState {
  record : Z;
  handlerThreadID : Z;
  countUpdateThreadID : Z;
  BBStackIndex : Z;
  BBStack : list Frame;
  FNStackIndex : Z;
  FNStack : list Frame;
  trace_index : Z;
  entryCache : EntryCache;
  traceFile : TraceFile;
  stdout : list Message;
  stderr : list Message;
  (* the number of times [closeCacheFile] has been registered with
     [atexit] *)
  atexitRegistered : nat
}.

Definition maxBBStack : Z := 4096.
Definition maxFNStack : Z := 4096.

(** Size of the entry cache in bytes (256 MB). *)
Definition entryCacheSizeinBytes : Z := 256 * 1024 * 1024.

(** The statics before any call: everything is zero, no file is open,
    nothing is registered with [atexit]. *)
Definition initialState : State :=
  mkState 0 0 0
    0 (replicate (Z.to_nat maxBBStack) (mkFrame 0 0))
    0 (replicate (Z.to_nat maxFNStack) (mkFrame 0 0))
    0 (mkEntryCache 0 None 0 0) (mkTraceFile ∅ 0 0) [] [] 0%nat.

(** ** Field updates *)

Definition set_record (v : Z) (st : State) : State :=
  mkState v (handlerThreadID st) (countUpdateThreadID st) (BBStackIndex st)
    (BBStack st) (FNStackIndex st) (FNStack st) (trace_index st)
    (entryCache st) (traceFile st) (stdout st) (stderr st)
    (atexitRegistered st).

Definition set_handlerThreadID (v : Z) (st : State) : State :=
  mkState (record st) v (countUpdateThreadID st) (BBStackIndex st)
    (BBStack st) (FNStackIndex st) (FNStack st) (trace_index st)
    (entryCache st) (traceFile st) (stdout st) (stderr st)
    (atexitRegistered st).

Definition set_countUpdateThreadID (v : Z) (st : State) : State :=
  mkState (record st) (handlerThreadID st) v (BBStackIndex st)
    (BBStack st) (FNStackIndex st) (FNStack st) (trace_index st)
    (entryCache st) (traceFile st) (stdout st) (stderr st)
    (atexitRegistered st).

Definition set_BBStackIndex (v : Z) (st : State) : State :=
  mkState (record st) (handlerThreadID st) (countUpdateThreadID st) v
    (BBStack st) (FNStackIndex st) (FNStack st) (trace_index st)
    (entryCache st) (traceFile st) (stdout st) (stderr st)
    (atexitRegistered st).

Definition set_BBStack (v : list Frame) (st : State) : State :=
  mkState (record st) (handlerThreadID st) (countUpdateThreadID st)
    (BBStackIndex st) v (FNStackIndex st) (FNStack st) (trace_index st)
    (entryCache st) (traceFile st) (stdout st) (stderr st)
    (atexitRegistered st).

Definition set_FNStackIndex (v : Z) (st : State) : State :=
  mkState (record st) (handlerThreadID st) (countUpdateThreadID st)
    (BBStackIndex st) (BBStack st) v (FNStack st) (trace_index st)
    (entryCache st) (traceFile st) (stdout st) (stderr st)
    (atexitRegistered st).

Definition set_FNStack (v : list Frame) (st : State) : State :=
  mkState (record st) (handlerThreadID st) (countUpdateThreadID st)
    (BBStackIndex st) (BBStack st) (FNStackIndex st) v (trace_index st)
    (entryCache st) (traceFile st) (stdout st) (stderr st)
    (atexitRegistered st).

Definition set_trace_index (v : Z) (st : State) : State :=
  mkState (record st) (handlerThreadID st) (countUpdateThreadID st)
    (BBStackIndex st) (BBStack st) (FNStackIndex st) (FNStack st) v
    (entryCache st) (traceFile st) (stdout st) (stderr st)
    (atexitRegistered st).

Definition set_entryCache (v : EntryCache) (st : State) : State :=
  mkState (record st) (handlerThreadID st) (countUpdateThreadID st)
    (BBStackIndex st) (BBStack st) (FNStackIndex st) (FNStack st)
    (trace_index st) v (traceFile st) (stdout st) (stderr st)
    (atexitRegistered st).

Definition set_traceFile (v : TraceFile) (st : State) : State :=
  mkState (record st) (handlerThreadID st) (countUpdateThreadID st)
    (BBStackIndex st) (BBStack st) (FNStackIndex st) (FNStack st)
    (trace_index st) (entryCache st) v (stdout st) (stderr st)
    (atexitRegistered st).

Definition set_stdout (v : list Message) (st : State) : State :=
  mkState (record st) (handlerThreadID st) (countUpdateThreadID st)
    (BBStackIndex st) (BBStack st) (FNStackIndex st) (FNStack st)
    (trace_index st) (entryCache st) (traceFile st) v (stderr st)
    (atexitRegistered st).

Definition set_stderr (v : list Message) (st : State) : State :=
  mkState (record st) (handlerThreadID st) (countUpdateThreadID st)
    (BBStackIndex st) (BBStack st) (FNStackIndex st) (FNStack st)
    (trace_index st) (entryCache st) (traceFile st) (stdout st) v
    (atexitRegistered st).

Definition set_atexitRegistered (v : nat) (st : State) : State :=
  mkState (record st) (handlerThreadID st) (countUpdateThreadID st)
    (BBStackIndex st) (BBStack st) (FNStackIndex st) (FNStack st)
    (trace_index st) (entryCache st) (traceFile st) (stdout st) (stderr st)
    v.

Definition set_index (v : Z) (c : EntryCache) : EntryCache :=
  mkEntryCache v (cache c) (fileOffset c) (fd c).
Definition set_cache (v : option Z) (c : EntryCache) : EntryCache :=
  mkEntryCache (index c) v (fileOffset c) (fd c).
Definition set_fileOffset (v : Z) (c : EntryCache) : EntryCache :=
  mkEntryCache (index c) (cache c) v (fd c).
Definition set_fd (v : Z) (c : EntryCache) : EntryCache :=
  mkEntryCache (index c) (cache c) (fileOffset c) v.

(** ** The monad of the run-time's functions *)

Inductive Outcome (A : Type) : Type :=
| Ok (a : A) (st : State)   (* the function returned [a] in state [st] *)
| Aborted (st : State)      (* [abort()] was called in state [st] *)
| Fault.                    (* an access outside an array, outside the mapped
                               window or past the end of the file, or a read
                               of memory that cannot be read *)
Arguments Ok {A} a st.
Arguments Aborted {A} st.
Arguments Fault {A}.

Definition M (A : Type) : Type := State -> Outcome A.

#[global] Instance M_ret : MRet M := fun A a st => Ok a st.

#[global] Instance M_bind : MBind M := fun A B f m st =>
  match m st with
  | Ok a st' => f a st'
  | Aborted st' => Aborted st'
  | Fault => Fault
  end.

Definition gets {A : Type} (f : State -> A) : M A := fun st => Ok (f st) st.
Definition modify (f : State -> State) : M unit := fun st => Ok tt (f st).
Definition abort {A : Type} : M A := fun st => Aborted st.
Definition fault {A : Type} : M A := fun _ => Fault.
Definition when (b : bool) (m : M unit) : M unit := if b then m else mret tt.

Definition print_stdout (msg : Message) : M unit :=
  modify (fun st => set_stdout (stdout st ++ [msg]) st).
Definition print_stderr (msg : Message) : M unit :=
  modify (fun st => set_stderr (stderr st ++ [msg]) st).

(** [assert (b)], at line [line] of the source: a failed assertion writes
    its line on stderr and ends in [abort()]. *)
Definition c_assert (line : Z) (b : bool) : M unit :=
  if b then mret tt else print_stderr (MsgAssertionFailed line) ;; abort.

(** The characters that [fprintf] reads for a conversion [%s]: [str] is
    what the memory holds at the pointer up to the terminator, [None] when
    it cannot be read that far. *)
Definition read_string (str : option string) : M string :=
  match str with
  | Some s => mret s
  | None => fault
  end.

(** ** Arrays and the trace file *)

(** [a[i]] read from a fixed-size array. *)
Definition array_load (a : list Frame) (i : Z) : M Frame :=
  if bool_decide (0 <= i) then
    match a !! Z.to_nat i with
    | Some f => mret f
    | None => fault
    end
  else fault.

(** [a[i] = f] on a fixed-size array. *)
Definition array_store (a : list Frame) (i : Z) (f : Frame) : M (list Frame) :=
  if bool_decide (0 <= i < Z.of_nat (length a)) then mret (<[Z.to_nat i := f]> a)
  else fault.

Section Runtime.

(** [sizeof (Entry)]: the layout of [Entry] is in Giri/Runtime.h. *)
Variable sizeofEntry : Z.

(** Size of the entry cache, in entries. *)
Definition entryCacheSize : Z := wrap32 (entryCacheSizeinBytes / sizeofEntry).

(** The bytes [lo, hi) of the file are overwritten: a record that shares a
    byte with them is no longer the entry that was stored there, and the
    file loses it. *)
Definition clobber (lo hi : Z) (m : gmap Z Entry) : gmap Z Entry :=
  filter (fun kv => kv.1 + sizeofEntry <= lo ∨ hi <= kv.1) m.

(** [lseek (fd, d, SEEK_CUR)]: the result is the new position. *)
Definition lseek_cur (d : Z) : M Z := fun st =>
  let f := traceFile st in
  let p := fpos f + d in
  Ok p (set_traceFile (mkTraceFile (contents f) (fsize f) p) st).

(** [lseek (fd, p, SEEK_SET)]. *)
Definition lseek_set (p : Z) : M Z := fun st =>
  let f := traceFile st in
  Ok p (set_traceFile (mkTraceFile (contents f) (fsize f) p) st).

(** [write (fd, buf, 1)] with [buf = {0}]: one zero byte at the position of
    the descriptor; the file grows to hold it. *)
Definition write_zero_byte : M unit := fun st =>
  let f := traceFile st in
  let p := fpos f in
  Ok tt (set_traceFile
           (mkTraceFile (clobber p (p + 1) (contents f))
              (Z.max (fsize f) (p + 1)) (p + 1)) st).

(** [mmap (0, entryCacheSizeinBytes, PROT_READ | PROT_WRITE, MAP_SHARED, fd,
    off)]: the window over the bytes from [off] on. *)
Definition mmap_window (off : Z) : M (option Z) := mret (Some off).

(** [msync] and [munmap] leave the file as the stores through the shared
    mapping made it. *)
Definition msync_window : M unit := mret tt.
Definition munmap_window (len : Z) : M unit := mret tt.

(** [entryCache.cache[i] = entry]: a store through the shared mapping is a
    store into the file, at [sizeofEntry * i] bytes from the base of the
    window. *)
Definition cache_store (i : Z) (entry : Entry) : M unit := fun st =>
  match cache (entryCache st) with
  | None => Fault
  | Some base =>
      let off := base + i * sizeofEntry in
      let f := traceFile st in
      if bool_decide (0 <= i * sizeofEntry
                      ∧ i * sizeofEntry + sizeofEntry <= entryCacheSizeinBytes
                      ∧ off + sizeofEntry <= fsize f)
      then Ok tt (set_traceFile
                    (mkTraceFile
                       (<[off := entry]> (clobber off (off + sizeofEntry) (contents f)))
                       (fsize f) (fpos f)) st)
      else Fault
  end.

(** The record that a reader finds at byte offset [off]. *)
Definition read_record (f : TraceFile) (off : Z) : option Entry :=
  contents f !! off.

(** The first [n] records of the file, read in sequence from offset 0. *)
Definition readTrace (f : TraceFile) (n : nat) : list (option Entry) :=
  (fun i : nat => read_record f (Z.of_nat i * sizeofEntry)) <$> seq 0 n.

(** ** Thread identity *)

Definition updateThreadID (self : Z) : M unit :=
  print_stdout MsgInsideUpdateThreadID ;;
  modify (set_handlerThreadID self) ;;
  c ← gets countUpdateThreadID ;
  (* countUpdateThreadID++ on an int *)
  (if bool_decide (c = 2 ^ 31 - 1) then fault else mret tt : M unit) ;;
  modify (set_countUpdateThreadID (c + 1)) ;;
  when (bool_decide (c + 1 > 2)) (print_stdout MsgMoreThreads).

(** The body under [#if 0] compares [pthread_self()] with
    [handlerThreadID]; the one compiled returns at once. *)
Definition checkForNonHandlerThread (self : Z) : M bool :=
  mret false.

(** ** The entry cache *)

Definition extend_file : M unit :=
  currentPosition ← lseek_cur (entryCacheSizeinBytes + 1) ;
  write_zero_byte ;;
  lseek_set currentPosition ;;
  mret tt.

Definition openFD (FD : Z) : M unit :=
  modify (fun st => set_entryCache (set_fd FD (entryCache st)) st) ;;
  modify (fun st => set_entryCache (set_index 0 (entryCache st)) st) ;;
  modify (fun st => set_entryCache (set_fileOffset 0 (entryCache st)) st) ;;
  modify (fun st => set_entryCache (set_cache None (entryCache st)) st) ;;
  extend_file ;;
  off ← gets (fun st => fileOffset (entryCache st)) ;
  w ← mmap_window off ;
  modify (fun st => set_entryCache (set_cache w (entryCache st)) st) ;;
  c_assert 191 (bool_decide (is_Some w)).

Definition flushCache : M unit :=
  msync_window ;;
  i ← gets (fun st => index (entryCache st)) ;
  munmap_window (sizeofEntry * i) ;;
  modify (fun st =>
    set_entryCache
      (set_fileOffset (fileOffset (entryCache st) + entryCacheSizeinBytes)
         (entryCache st)) st) ;;
  extend_file ;;
  off ← gets (fun st => fileOffset (entryCache st)) ;
  w ← mmap_window off ;
  modify (fun st => set_entryCache (set_cache w (entryCache st)) st) ;;
  c_assert 221 (bool_decide (is_Some w)) ;;
  modify (fun st => set_entryCache (set_index 0 (entryCache st)) st).

Definition flushEntryCache : M unit := flushCache.

Definition addToEntryCache (entry : Entry) : M unit :=
  i ← gets (fun st => index (entryCache st)) ;
  when (bool_decide (i = entryCacheSize)) flushEntryCache ;;
  i ← gets (fun st => index (entryCache st)) ;
  cache_store i entry ;;
  modify (fun st => set_entryCache (set_index (wrap32 (i + 1)) (entryCache st)) st) ;;
  modify (fun st => set_trace_index (wrap32 (trace_index st + 1)) st).

(** The loop of [closeCacheFile].  Each iteration decrements
    [BBStackIndex], so the loop runs at most [BBStackIndex] times: [n] is
    that bound, and the loop ends on its own test ([drainBBStack_index]). *)
Fixpoint drainBBStack (n : nat) : M unit :=
  match n with
  | O => mret tt
  | S n' =>
      i ← gets BBStackIndex ;
      if bool_decide (i > 0) then
        modify (set_BBStackIndex (wrap32 (i - 1))) ;;
        i ← gets BBStackIndex ;
        a ← gets BBStack ;
        top ← array_load a i ;
        addToEntryCache (Entry3 BBType (f_id top) (f_address top)) ;;
        drainBBStack n'
      else mret tt
  end.

Definition closeCacheFile : M unit :=
  print_stdout MsgWritingCache ;;
  i ← gets BBStackIndex ;
  drainBBStack (Z.to_nat i) ;;
  addToEntryCache (Entry2 ENType 0) ;;
  flushEntryCache.

(** [atexit (closeCacheFile)]: one more registration; the call is taken
    to succeed, as the system calls are. *)
Definition atexit_closeCacheFile : M unit :=
  modify (fun st => set_atexitRegistered (S (atexitRegistered st)) st).

(** [exit (status)]: the functions registered with [atexit] run, each as
    many times as it was registered, and the process ends.  [recordInit]
    registers [closeCacheFile] at every call, and nothing else is
    registered in this file. *)
Fixpoint run_atexit (n : nat) : M unit :=
  match n with
  | O => mret tt
  | S n' => closeCacheFile ;; run_atexit n'
  end.

Definition exit_process (status : Z) : M unit :=
  n ← gets atexitRegistered ;
  run_atexit n.

(** The handler that [recordInit] installs for the terminating signals,
    SIGABRT among them: what follows a call of [abort()], which the
    outcome [Aborted] leaves out. *)
Definition cleanup_only_tracing (signum : Z) : M unit :=
  print_stderr (MsgAbnormalTermination signum) ;;
  exit_process signum.

(** [open (name, O_RDWR | O_CREAT | O_TRUNC, 0640u)]: [FD] is the descriptor
    that the system returns; the file is empty when the call succeeds. *)
Definition open_trunc (name : string) (FD : Z) : M Z :=
  when (bool_decide (FD ≠ -1))
    (modify (set_traceFile (mkTraceFile ∅ 0 0))) ;;
  mret FD.

(** [atexit (closeCacheFile)] adds one registration of the teardown, every
    time [recordInit] is called.  The eight [signal] calls and
    [pthread_mutex_init] change none of the variables. *)
Definition recordInit (self : Z) (name : string) (FD : Z) : M unit :=
  (if bool_decide (entryCacheSizeinBytes mod sizeofEntry ≠ 0) then
     print_stderr (MsgEntrySize sizeofEntry) ;; abort
   else mret tt : M unit) ;;
  r ← open_trunc name FD ;
  modify (set_record r) ;;
  c_assert 327 (bool_decide (r ≠ -1)) ;;
  print_stdout (MsgOpened name) ;;
  openFD r ;;
  atexit_closeCacheFile ;;
  updateThreadID self.

(** ** The hooks *)

Definition recordStartBB (self id fp : Z) : M unit :=
  gated ← checkForNonHandlerThread self ;
  if (gated : bool) then mret tt else
  when (bool_decide (190525 <= id <= 190532))
    (print_stdout (MsgStartBBRange id)) ;;
  i ← gets BBStackIndex ;
  (if bool_decide (i = maxBBStack) then
     print_stderr MsgBBStackOverflow ;; abort
   else mret tt : M unit) ;;
  a ← gets BBStack ;
  a' ← array_store a i (mkFrame id fp) ;
  modify (set_BBStack a') ;;
  modify (set_BBStackIndex (wrap32 (i + 1))) ;;
  if bool_decide (id = 190531) then
    print_stderr MsgForceWrite ;;
    closeCacheFile ;;
    abort
  else mret tt.

Definition recordBB (self id fp lastBB : Z) : M unit :=
  gated ← checkForNonHandlerThread self ;
  if (gated : bool) then mret tt else
  when (bool_decide (190525 <= id <= 190532))
    (print_stdout (MsgEndBBRange id)) ;;
  callID ←
    (if bool_decide (lastBB ≠ 0) then
       n ← gets FNStackIndex ;
       if bool_decide (n > 0) then
         a ← gets FNStack ;
         top ← array_load a (wrap32 (n - 1)) ;
         if bool_decide (f_address top ≠ fp) then
           print_stderr (MsgFunctionMismatch id) ;;
           mret 0
         else
           modify (set_FNStackIndex (wrap32 (n - 1))) ;;
           n ← gets FNStackIndex ;
           top ← array_load a n ;
           mret (f_id top)
       else mret (wrap32 (Z.lnot 0))
     else mret 0) ;
  addToEntryCache (Entry4 BBType id fp callID) ;;
  i ← gets BBStackIndex ;
  modify (set_BBStackIndex (wrap32 (i - 1))).

(** [fp] is printed with [%s]: [fprintf] reads the characters at [fp],
    which are [str]; see [read_string]. *)
Definition recordExtCallRet (self callID fp : Z) (str : option string) : M unit :=
  gated ← checkForNonHandlerThread self ;
  if (gated : bool) then mret tt else
  n ← gets FNStackIndex ;
  c_assert 444 (bool_decide (n > 0)) ;;
  a ← gets FNStack ;
  top ← array_load a (wrap32 (n - 1)) ;
  s ← read_string str ;
  print_stdout (MsgInsideExtCallRet callID s (f_address top)) ;;
  if bool_decide (f_address top ≠ fp) then
    print_stderr (MsgFunctionMismatchExt callID)
  else modify (set_FNStackIndex (wrap32 (n - 1))).

Definition recordLoad (self id p length : Z) : M unit :=
  gated ← checkForNonHandlerThread self ;
  if (gated : bool) then mret tt else
  addToEntryCache (Entry4 LDType id p length).

Definition recordStore (self id p length : Z) : M unit :=
  gated ← checkForNonHandlerThread self ;
  if (gated : bool) then mret tt else
  addToEntryCache (Entry4 STType id p length).

(** [strlen] of the string that a [char *] points to: the hooks on strings
    take the pointer [p] and the characters [str] found there, up to the
    terminator. *)
Definition strlen (str : string) : Z := Z.of_nat (String.length str).

Definition recordStrLoad (self id p : Z) (str : string) : M unit :=
  gated ← checkForNonHandlerThread self ;
  if (gated : bool) then mret tt else
  let length := strlen str + 1 in
  addToEntryCache (Entry4 LDType id p length).

Definition recordStrStore (self id p : Z) (str : string) : M unit :=
  gated ← checkForNonHandlerThread self ;
  if (gated : bool) then mret tt else
  let length := strlen str + 1 in
  addToEntryCache (Entry4 STType id p length).

Definition recordStrcatStore (self id p : Z) (str : string) (s : string) : M unit :=
  gated ← checkForNonHandlerThread self ;
  if (gated : bool) then mret tt else
  let start := p + strlen str in
  let length := strlen s + 1 in
  addToEntryCache (Entry4 STType id start length).

Definition recordCall (self id fp : Z) : M unit :=
  gated ← checkForNonHandlerThread self ;
  if (gated : bool) then mret tt else
  addToEntryCache (Entry3 CLType id fp) ;;
  n ← gets FNStackIndex ;
  if bool_decide (n = maxFNStack) then
    print_stderr MsgFNStackOverflow
  else
    a ← gets FNStack ;
    a' ← array_store a n (mkFrame id fp) ;
    modify (set_FNStack a') ;;
    modify (set_FNStackIndex (wrap32 (n + 1))).

Definition recordExtCall (self id fp : Z) : M unit :=
  gated ← checkForNonHandlerThread self ;
  if (gated : bool) then mret tt else
  print_stdout (MsgInsideExtCall id fp) ;;
  addToEntryCache (Entry3 CLType id fp).

Definition recordReturn (self id fp : Z) : M unit :=
  gated ← checkForNonHandlerThread self ;
  if (gated : bool) then mret tt else
  addToEntryCache (Entry3 RTType id fp).

Definition recordInvFailure (self id : Z) : M unit :=
  gated ← checkForNonHandlerThread self ;
  if (gated : bool) then mret tt else
  addToEntryCache (Entry2 INVType id).

Definition recordSelect (self id flag : Z) : M unit :=
  gated ← checkForNonHandlerThread self ;
  if (gated : bool) then mret tt else
  addToEntryCache (Entry3 PDType id flag).

Definition recordHandlerThreadID (self : Z) (name : string) : M unit :=
  print_stdout (MsgInsideConnection name) ;;
  updateThreadID self.

(** ** Runs of the instrumented program *)

(** A call of one of the recording hooks, with its arguments. *)
Inductive Hook : Type :=
| HStartBB (id fp : Z)
| HBB (id fp lastBB : Z)
| HLoad (id p length : Z)
| HStore (id p length : Z)
| HStrLoad (id p : Z) (str : string)
| HStrStore (id p : Z) (str : string)
| HStrcatStore (id p : Z) (str s : string)
| HCall (id fp : Z)
| HReturn (id fp : Z)
| HExtCall (id fp : Z)
| HExtCallRet (callID fp : Z) (str : option string)
| HInvFailure (id : Z)
| HSelect (id flag : Z).

Definition runHook (self : Z) (h : Hook) : M unit :=
  match h with
  | HStartBB id fp => recordStartBB self id fp
  | HBB id fp lastBB => recordBB self id fp lastBB
  | HLoad id p length => recordLoad self id p length
  | HStore id p length => recordStore self id p length
  | HStrLoad id p str => recordStrLoad self id p str
  | HStrStore id p str => recordStrStore self id p str
  | HStrcatStore id p str s => recordStrcatStore self id p str s
  | HCall id fp => recordCall self id fp
  | HReturn id fp => recordReturn self id fp
  | HExtCall id fp => recordExtCall self id fp
  | HExtCallRet callID fp str => recordExtCallRet self callID fp str
  | HInvFailure id => recordInvFailure self id
  | HSelect id flag => recordSelect self id flag
  end.

(** Calls made one after the other. *)
Fixpoint run_all (ms : list (M unit)) : M unit :=
  match ms with
  | [] => mret tt
  | m :: ms' => m ;; run_all ms'
  end.

(** ** Invariants *)

(** The byte offset in the file of the next slot of the window. *)
Definition cursor (st : State) : Z :=
  fileOffset (entryCache st) + index (entryCache st) * sizeofEntry.

(** The byte offset of the slot written last. *)
Definition lastWritten (st : State) : Z := cursor st - sizeofEntry.

(** The entry cache between two calls: the window is mapped at
    [fileOffset], the cursor is within the capacity, the file reaches past
    the window, and every record of the file lies before the cursor. *)
Record CacheInv (st : State) : Prop := mkCacheInv {
  inv_mapped : cache (entryCache st) = Some (fileOffset (entryCache st));
  inv_index : 0 <= index (entryCache st) <= entryCacheSize;
  inv_pos : fileOffset (entryCache st) + entryCacheSizeinBytes < fpos (traceFile st);
  inv_size : fpos (traceFile st) < fsize (traceFile st);
  inv_below : ∀ k e, contents (traceFile st) !! k = Some e →
                     k + sizeofEntry <= cursor st
}.

(** What a file that holds exactly the records [es], one after the other
    from offset 0, shows at byte offset [off]. *)
Definition recordAt (es : list Entry) (off : Z) : option Entry :=
  if bool_decide (0 <= off ∧ off mod sizeofEntry = 0)
  then es !! Z.to_nat (off / sizeofEntry)
  else None.

(** The file holds the entries [es] and nothing else. *)
Definition Holds (st : State) (es : list Entry) : Prop :=
  cursor st = Z.of_nat (length es) * sizeofEntry
  ∧ ∀ off, read_record (traceFile st) off = recordAt es off.

(** The state that [recordInit] leaves when it returns. *)
Definition openedState (self : Z) (name : string) (FD : Z) (st : State) : State :=
  mkState FD self (countUpdateThreadID st + 1)
    (BBStackIndex st) (BBStack st) (FNStackIndex st) (FNStack st)
    (trace_index st)
    (mkEntryCache 0 (Some 0) 0 FD)
    (mkTraceFile ∅ (entryCacheSizeinBytes + 2) (entryCacheSizeinBytes + 1))
    ((stdout st ++ [MsgOpened name; MsgInsideUpdateThreadID])
       ++ (if bool_decide (countUpdateThreadID st + 1 > 2)
           then [MsgMoreThreads] else []))
    (stderr st)
    (S (atexitRegistered st)).

End Runtime.

(** The two stacks between two calls: the arrays have their declared sizes
    and the index of the function-call stack is within its array. *)
Record StackInv (st : State) : Prop := mkStackInv {
  inv_BBStack : Z.of_nat (length (BBStack st)) = maxBBStack;
  inv_FNStack : Z.of_nat (length (FNStack st)) = maxFNStack;
  inv_FNStackIndex : 0 <= FNStackIndex st <= maxFNStack
}.

(** [m] keeps [P] on every path that ends in a state. *)
Definition preserves {A : Type} (P : State -> Prop) (m : M A) : Prop :=
  ∀ st, P st →
    match m st with
    | Ok _ st' => P st'
    | Aborted st' => P st'
    | Fault => True
    end.

(** The top of the function-call stack, when it is not empty. *)
Definition topFN (st : State) : option Frame :=
  if bool_decide (0 < FNStackIndex st)
  then FNStack st !! Z.to_nat (wrap32 (FNStackIndex st - 1))
  else None.

(** What a hook does between two appends (to the stacks, to the output
    streams) leaves the entry cache and the file alone. *)
Definition leavesTrace (g : State -> State) : Prop :=
  ∀ st, entryCache (g st) = entryCache st ∧ traceFile (g st) = traceFile st.

Section Closed_forms.

Variable sizeofEntry : Z.

(** The state after [flushCache]. *)
Definition rotated (st : State) : State :=
  let c := entryCache st in
  let f := traceFile st in
  let p := fpos f + (entryCacheSizeinBytes + 1) in
  set_entryCache
    (mkEntryCache 0 (Some (fileOffset c + entryCacheSizeinBytes))
       (fileOffset c + entryCacheSizeinBytes) (fd c))
    (set_traceFile
       (mkTraceFile (clobber sizeofEntry p (p + 1) (contents f))
          (Z.max (fsize f) (p + 1)) p) st).

(** The state after a store of [entry] at the cursor and the two
    increments. *)
Definition stored (entry : Entry) (st : State) : State :=
  let c := entryCache st in
  let f := traceFile st in
  let off := cursor sizeofEntry st in
  set_trace_index (wrap32 (trace_index st + 1))
    (set_entryCache (set_index (wrap32 (index c + 1)) c)
       (set_traceFile
          (mkTraceFile
             (<[off := entry]> (clobber sizeofEntry off (off + sizeofEntry) (contents f)))
             (fsize f) (fpos f)) st)).

(** The state after [addToEntryCache]. *)
Definition appended (entry : Entry) (st : State) : State :=
  stored entry
    (if bool_decide (index (entryCache st) = entryCacheSize sizeofEntry)
     then rotated st else st).

End Closed_forms.

(** The record that a hook appends, for the hooks whose record is given by
    their arguments alone.  ([recordBB] takes the call id of its record
    from the function-call stack; [recordStartBB] and [recordExtCallRet]
    build no entry.) *)
Definition hookEntry (h : Hook) : option Entry :=
  match h with
  | HLoad id p length => Some (mkEntry LDType id p length)
  | HStore id p length => Some (mkEntry STType id p length)
  | HStrLoad id p str => Some (mkEntry LDType id p (strlen str + 1))
  | HStrStore id p str => Some (mkEntry STType id p (strlen str + 1))
  | HStrcatStore id p str s =>
      Some (mkEntry STType id (p + strlen str) (strlen s + 1))
  | HCall id fp => Some (mkEntry CLType id fp 0)
  | HReturn id fp => Some (mkEntry RTType id fp 0)
  | HExtCall id fp => Some (mkEntry CLType id fp 0)
  | HInvFailure id => Some (mkEntry INVType id 0 0)
  | HSelect id flag => Some (mkEntry PDType id flag 0)
  | HStartBB _ _ | HBB _ _ _ | HExtCallRet _ _ _ => None
  end.

(** The entries that a call of hook [h] which returns has given to
    [addToEntryCache], in the order of the calls: none for [recordStartBB]
    and [recordExtCallRet], the basic-block record with some call id for
    [recordBB], the record of [hookEntry] for the others. *)
Definition hookRecords (h : Hook) (es : list Entry) : Prop :=
  match h with
  | HStartBB _ _ | HExtCallRet _ _ _ => es = []
  | HBB id fp _ => ∃ callID, es = [mkEntry BBType id fp callID]
  | _ => ∃ e, hookEntry h = Some e ∧ es = [e]
  end.

(** A state on which the examples run: the one [recordInit] leaves when it
    is the first call of the program. *)
Definition sampleState : State := openedState 7 "trace.bin" 3 initialState.

(** The state after the call hook has run once from [sampleState], for a
    call of the function at address 4096. *)
Definition calledState : State :=
  match recordCall 16 7 5 4096 sampleState with
  | Ok _ st => st
  | _ => sampleState
  end.

(** [sampleState] with the index of the function-call stack at
    [maxFNStack]: the stack is full. *)
Definition fullCallStack : State := set_FNStackIndex maxFNStack sampleState.

(** ** Closed forms for the teardown and the file *)

(** The basic-block records that the loop of [closeCacheFile] builds for
    the frames on the basic-block stack, the one on top first. *)
Definition openBlocks (st : State) : list Entry :=
  (fun f => Entry3 BBType (f_id f) (f_address f))
    <$> reverse (take (Z.to_nat (BBStackIndex st)) (BBStack st)).

(** The size of the file and the position of its descriptor after [k]
    rotations of the window: [openFD] and each [flushCache] seek forward
    by the size of the window plus one, write one byte, and seek back to
    where the first seek had arrived. *)
Definition FileShape (st : State) : Prop :=
  ∃ k : Z,
    0 <= k
    ∧ fileOffset (entryCache st) = k * entryCacheSizeinBytes
    ∧ fpos (traceFile st) = (k + 1) * (entryCacheSizeinBytes + 1)
    ∧ fsize (traceFile st) = (k + 1) * (entryCacheSizeinBytes + 1) + 1.

(** ** Numbering of basic blocks (lib/Utility/BasicBlockNumbering.cpp)

    The three passes that give every basic block a number, read the
    numbers back and remove them.  Of an LLVM module the passes use the
    functions with their basic blocks, in the order of the module, and the
    named metadata; a basic block is the address that a [BasicBlock *]
    holds.  The containers of LLVM and of the standard library are taken
    as documented: [getOrInsertNamedMetadata] returns the node of that
    name and inserts an empty one when there is none, [addOperand] appends,
    [getNamedMetadata] returns null when there is none, [eraseFromParent]
    removes the node; [operator[]] of [std::map] inserts or overwrites and
    [insert] leaves a key that is present as it is and says so.
    Assertions are compiled in, as in the run-time. *)

(** A basic block: the address of the [BasicBlock] object. *)
Definition BasicBlock : Type := Z.

(** The values that an operand of a metadata node can be: a basic block,
    an integer constant of some width (its value is the unsigned one,
    what [getZExtValue] returns), or anything else. *)
Inductive Value : Type :=
| VBasicBlock (BB : BasicBlock)
| VConstantInt (width value : Z)
| VOther.

(** A metadata node: its operands. *)
Definition MDNode : Type := list Value.

(** A function of the module: its basic blocks, in order. *)
Definition llvm_Function : Type := list BasicBlock.

(** The part of an LLVM module that the passes use. *)
Record llvm_Module : Type := mkModule {
  functions : list llvm_Function;
  namedMetadata : gmap string (list MDNode)
}.

Definition mdKindName : string := "dg".

(** [M.getOrInsertNamedMetadata (name)]. *)
Definition getOrInsertNamedMetadata (name : string) (M : llvm_Module) : llvm_Module :=
  match namedMetadata M !! name with
  | Some _ => M
  | None => mkModule (functions M) (<[name := []]> (namedMetadata M))
  end.

(** [MD->addOperand (N)] on the named node [name]. *)
Definition addOperand (name : string) (N : MDNode) (M : llvm_Module) : llvm_Module :=
  mkModule (functions M) (alter (fun ops => ops ++ [N]) name (namedMetadata M)).

(** What the passes write on [std::cout]. *)
Inductive PassMessage : Type :=
| MsgTotalBasicBlocks (count : Z).

Module BasicBlockNumberPass.

(** The node [{BB, i32 id}]. *)
Definition assignIDToBlock (BB : BasicBlock) (id : Z) : MDNode :=
  [VBasicBlock BB; VConstantInt 32 id].

(** The body of the inner loop, for the block [BB]: [count] is an
    [unsigned], incremented before its use. *)
Definition numberBlock (s : Z * llvm_Module) (BB : BasicBlock) : Z * llvm_Module :=
  let count := wrap32 (s.1 + 1) in
  (count, addOperand mdKindName (assignIDToBlock BB count) s.2).

(** The body of the outer loop, for the function [MI]. *)
Definition numberFunction (s : Z * llvm_Module) (MI : llvm_Function) : Z * llvm_Module :=
  foldl numberBlock s MI.

Definition runOnModule (M : llvm_Module) : bool * llvm_Module * list PassMessage :=
  let M := getOrInsertNamedMetadata mdKindName M in
  let s := foldl numberFunction (0, M) (functions M) in
  (true, s.2, [MsgTotalBasicBlocks s.1]).

End BasicBlockNumberPass.

Module QueryBasicBlockNumbers.

(** The two maps of the pass object. *)
Record t : Type := mk {
  IDMap : gmap BasicBlock Z;
  BBMap : gmap Z BasicBlock
}.

(** 0 when the block has no ID. *)
Definition getID (Q : t) (BB : BasicBlock) : Z :=
  match IDMap Q !! BB with
  | None => 0
  | Some id => id
  end.

(** The null pointer, 0, when no block has this ID. *)
Definition getBlock (Q : t) (id : Z) : BasicBlock :=
  match BBMap Q !! id with
  | Some BB => BB
  | None => 0
  end.

(** One iteration of the loop of [runOnModule], for the node [Node];
    [None] when one of its assertions fails. *)
Definition addNode (Q : t) (Node : MDNode) : option t :=
  match Node !! 0%nat, Node !! 1%nat with
  | Some (VBasicBlock BB), Some (VConstantInt _ ID) =>
      if bool_decide (ID = 0) then None
      else
        let Q := mk (<[BB := wrap32 ID]> (IDMap Q)) (BBMap Q) in
        let id := wrap32 ID in
        match BBMap Q !! id with
        | Some _ => None
        | None => Some (mk (IDMap Q) (<[id := BB]> (BBMap Q)))
        end
  | _, _ => None
  end.

(** The loop over the operands of the named node. *)
Fixpoint addNodes (Q : t) (ops : list MDNode) : option t :=
  match ops with
  | [] => Some Q
  | Node :: ops' =>
      match addNode Q Node with
      | Some Q' => addNodes Q' ops'
      | None => None
      end
  end.

(** The result and the pass object after the run; [None] when an
    assertion fails. *)
Definition runOnModule (Q : t) (M : llvm_Module) : option (bool * t) :=
  match namedMetadata M !! mdKindName with
  | None => Some (false, Q)
  | Some ops =>
      match addNodes Q ops with
      | Some Q' => Some (false, Q')
      | None => None
      end
  end.

End QueryBasicBlockNumbers.

Module RemoveBasicBlockNumbers.

Definition runOnModule (M : llvm_Module) : bool * llvm_Module :=
  match namedMetadata M !! mdKindName with
  | None => (false, M)
  | Some _ => (true, mkModule (functions M) (delete mdKindName (namedMetadata M)))
  end.

End RemoveBasicBlockNumbers.

(** The blocks of a module, in the order in which the numbering pass
    visits them. *)
Definition blocksOf (M : llvm_Module) : list BasicBlock := mjoin (functions M).

(** The module after the numbering pass. *)
Definition numbered (M : llvm_Module) : llvm_Module :=
  (BasicBlockNumberPass.runOnModule M).1.2.

(** A pass object before its run: both maps are empty. *)
Definition newQuery : QueryBasicBlockNumbers.t := QueryBasicBlockNumbers.mk ∅ ∅.

(** The nodes that the numbering pass adds for the blocks [bs] when its
    counter is at [c]. *)
Definition nodesFrom (c : Z) (bs : list BasicBlock) : list MDNode :=
  imap (fun k BB => BasicBlockNumberPass.assignIDToBlock BB (c + Z.of_nat k + 1)) bs.

(** ** Samples for the further theorems *)

(** [sampleState] with two blocks on the basic-block stack, block 2 on
    top. *)
Definition twoOpenBlocks : State :=
  set_BBStackIndex 2
    (set_BBStack
       (<[1%nat := mkFrame 2 4096]> (<[0%nat := mkFrame 1 4096]> (BBStack sampleState)))
       sampleState).

(** A module of two functions and three basic blocks, without metadata. *)
Definition sampleModule : llvm_Module := mkModule [[4096; 4160]; [8192]] ∅.

(** A module whose blocks carry the numbers 7 and 9. *)
Definition taggedModule : llvm_Module :=
  mkModule [[4096; 4160]]
    {[ mdKindName := [[VBasicBlock 4096; VConstantInt 32 7];
                      [VBasicBlock 4160; VConstantInt 32 9]] ]}.

(** * Properties *)

Lemma entryCacheSizeinBytes_val : entryCacheSizeinBytes = 268435456.
Proof. reflexivity. Qed.

Lemma wrap32_small z : 0 <= z < 2 ^ 32 → wrap32 z = z.
Proof. intros. unfold wrap32. apply Z.mod_small. lia. Qed.

Lemma wrap32_range z : 0 <= wrap32 z < 2 ^ 32.
Proof. unfold wrap32. apply Z.mod_pos_bound. lia. Qed.




(** ** Running a computation step by step *)

Lemma bind_ret {A B} (a : A) (k : A -> M B) st : (mret a ≫= k) st = k a st.
Proof. reflexivity. Qed.

Lemma bind_gets {A B} (f : State -> A) (k : A -> M B) st :
  (gets f ≫= k) st = k (f st) st.
Proof. reflexivity. Qed.

Lemma bind_modify {B} (g : State -> State) (k : unit -> M B) st :
  (modify g ≫= k) st = k tt (g st).
Proof. reflexivity. Qed.

Lemma bind_abort {A B} (k : A -> M B) st : (abort ≫= k) st = Aborted st.
Proof. reflexivity. Qed.

Lemma bind_fault {A B} (k : A -> M B) st : (fault ≫= k) st = Fault.
Proof. reflexivity. Qed.

Lemma bind_bind {A B C} (m : M A) (f : A -> M B) (k : B -> M C) st :
  ((m ≫= f) ≫= k) st = (m ≫= (fun a => f a ≫= k)) st.
Proof. unfold mbind, M_bind. by destruct (m st). Qed.

Lemma bind_Ok {A B} (m : M A) (k : A -> M B) st a st' :
  m st = Ok a st' → (m ≫= k) st = k a st'.
Proof. unfold mbind, M_bind. by intros ->. Qed.



Lemma bind_Ok_inv {A B} (m : M A) (k : A -> M B) st b st' :
  (m ≫= k) st = Ok b st' → ∃ a st1, m st = Ok a st1 ∧ k a st1 = Ok b st'.
Proof. unfold mbind, M_bind. destruct (m st); [eauto|done..]. Qed.

Lemma run_ret {A} (a : A) st : (mret a : M A) st = Ok a st.
Proof. reflexivity. Qed.

Lemma run_gets {A} (f : State -> A) st : gets f st = Ok (f st) st.
Proof. reflexivity. Qed.

Lemma run_modify (g : State -> State) st : modify g st = Ok tt (g st).
Proof. reflexivity. Qed.

Lemma run_abort {A} st : (abort : M A) st = Aborted st.
Proof. reflexivity. Qed.

Lemma bind_lseek_cur {B} d (k : Z -> M B) st :
  (lseek_cur d ≫= k) st =
    k (fpos (traceFile st) + d)
      (set_traceFile
         (mkTraceFile (contents (traceFile st)) (fsize (traceFile st))
            (fpos (traceFile st) + d)) st).
Proof. reflexivity. Qed.

Lemma bind_lseek_set {B} p (k : Z -> M B) st :
  (lseek_set p ≫= k) st =
    k p (set_traceFile
           (mkTraceFile (contents (traceFile st)) (fsize (traceFile st)) p) st).
Proof. reflexivity. Qed.

Lemma bind_write_zero_byte {B} sizeofEntry (k : unit -> M B) st :
  (write_zero_byte sizeofEntry ≫= k) st =
    k tt (set_traceFile
            (mkTraceFile
               (clobber sizeofEntry (fpos (traceFile st)) (fpos (traceFile st) + 1)
                  (contents (traceFile st)))
               (Z.max (fsize (traceFile st)) (fpos (traceFile st) + 1))
               (fpos (traceFile st) + 1)) st).
Proof. reflexivity. Qed.

Lemma array_load_Ok (a : list Frame) i f :
  0 <= i → a !! Z.to_nat i = Some f → array_load a i = mret f.
Proof. intros Hi Hf. unfold array_load. rewrite bool_decide_true by done. by rewrite Hf. Qed.

Lemma array_store_Ok (a : list Frame) i f :
  0 <= i < Z.of_nat (length a) →
  array_store a i f = mret (<[Z.to_nat i := f]> a).
Proof. intros Hi. unfold array_store. by rewrite bool_decide_true. Qed.

(** One step of a run: the law of the monad that fits the head of the
    computation, then the projections of the state it exposes. *)
Ltac mstep :=
  first [ rewrite bind_bind | rewrite bind_ret | rewrite bind_gets
        | rewrite bind_modify | rewrite bind_abort | rewrite bind_fault
        | rewrite bind_lseek_cur | rewrite bind_lseek_set
        | rewrite bind_write_zero_byte
        | rewrite run_ret | rewrite run_gets | rewrite run_modify
        | rewrite run_abort ];
  simpl.

Ltac msteps := repeat mstep.

Ltac unfold_prims :=
  unfold when, c_assert, print_stdout, print_stderr, mmap_window,
    msync_window, munmap_window, checkForNonHandlerThread,
    flushEntryCache, atexit_closeCacheFile in *.

Section Cache.

Variable sizeofEntry : Z.
Hypothesis Hsize : 0 < sizeofEntry.
Hypothesis Hdiv : entryCacheSizeinBytes mod sizeofEntry = 0.

Local Abbreviation W := entryCacheSizeinBytes.
Local Abbreviation cap := (entryCacheSize sizeofEntry).

Lemma capacity_bytes : cap * sizeofEntry = W.
Proof using Hsize Hdiv.
  unfold entryCacheSize.
  assert (0 <= W / sizeofEntry <= W).
  { split; [apply Z.div_pos; [rewrite entryCacheSizeinBytes_val|]; lia|].
    apply Z.div_le_upper_bound; [lia|]. rewrite entryCacheSizeinBytes_val. nia. }
  rewrite wrap32_small by (rewrite entryCacheSizeinBytes_val in *; lia).
  pose proof (Z.div_mod W sizeofEntry). lia.
Qed.

Lemma capacity_pos : 1 <= cap.
Proof using Hsize Hdiv.
  pose proof capacity_bytes as H. rewrite entryCacheSizeinBytes_val in H. nia.
Qed.

Lemma capacity_range : cap < 2 ^ 32 - 1.
Proof using Hsize Hdiv.
  pose proof capacity_bytes as H. rewrite entryCacheSizeinBytes_val in H. nia.
Qed.

Lemma clobber_lookup lo hi (m : gmap Z Entry) k :
  clobber sizeofEntry lo hi m !! k =
    if bool_decide (k + sizeofEntry <= lo ∨ hi <= k) then m !! k else None.
Proof.
  unfold clobber. rewrite map_lookup_filter.
  destruct (m !! k) as [e|] eqn:E; simpl.
  - case_bool_decide; case_guard; simpl in *; done.
  - by case_bool_decide.
Qed.

Lemma clobber_below lo hi (m : gmap Z Entry) :
  (∀ k e, m !! k = Some e → k + sizeofEntry <= lo) →
  clobber sizeofEntry lo hi m = m.
Proof.
  intros H. apply map_eq. intros k. rewrite clobber_lookup.
  case_bool_decide as Hk; [done|].
  destruct (m !! k) as [e|] eqn:E; [|done].
  apply H in E. lia.
Qed.

Lemma flushCache_Ok st : flushCache sizeofEntry st = Ok tt (rotated sizeofEntry st).
Proof. reflexivity. Qed.


(** *** Rotation *)

Lemma rotated_contents st :
  CacheInv sizeofEntry st →
  contents (traceFile (rotated sizeofEntry st)) = contents (traceFile st).
Proof using Hsize Hdiv.
  intros [Hm Hi Hp Hz Hb]. simpl. apply clobber_below.
  intros k e Hk. apply Hb in Hk. unfold cursor in Hk.
  pose proof capacity_bytes. nia.
Qed.

Lemma rotated_CacheInv st :
  CacheInv sizeofEntry st → CacheInv sizeofEntry (rotated sizeofEntry st).
Proof using Hsize Hdiv.
  intros Hinv. pose proof (rotated_contents st Hinv) as Hc.
  destruct Hinv as [Hm Hi Hp Hz Hb].
  pose proof capacity_pos. pose proof capacity_bytes.
  split.
  - reflexivity.
  - simpl. lia.
  - simpl. lia.
  - simpl. lia.
  - intros k e. rewrite Hc. intros Hk. apply Hb in Hk.
    unfold cursor in *. simpl. nia.
Qed.

Lemma rotated_cursor st :
  index (entryCache st) = cap →
  cursor sizeofEntry (rotated sizeofEntry st) = cursor sizeofEntry st.
Proof using Hsize Hdiv.
  intros Hi. unfold cursor. simpl. rewrite Hi, capacity_bytes. lia.
Qed.

(** *** The store and the increments *)

Lemma cache_store_Ok entry st :
  CacheInv sizeofEntry st →
  index (entryCache st) < cap →
  cache_store sizeofEntry (index (entryCache st)) entry st =
    Ok tt (set_traceFile
             (mkTraceFile
                (<[cursor sizeofEntry st := entry]>
                   (clobber sizeofEntry (cursor sizeofEntry st)
                      (cursor sizeofEntry st + sizeofEntry)
                      (contents (traceFile st))))
                (fsize (traceFile st)) (fpos (traceFile st))) st).
Proof using Hsize Hdiv.
  intros [Hm Hi Hp Hz Hb] Hlt. unfold cache_store. rewrite Hm.
  pose proof capacity_bytes.
  rewrite bool_decide_true by nia. reflexivity.
Qed.

Lemma stored_contents entry st :
  CacheInv sizeofEntry st →
  contents (traceFile (stored sizeofEntry entry st)) =
    <[cursor sizeofEntry st := entry]> (contents (traceFile st)).
Proof using Hsize.
  intros [Hm Hi Hp Hz Hb]. simpl. f_equal. apply clobber_below. exact Hb.
Qed.

Lemma stored_cursor entry st :
  CacheInv sizeofEntry st →
  index (entryCache st) < cap →
  cursor sizeofEntry (stored sizeofEntry entry st) = cursor sizeofEntry st + sizeofEntry.
Proof using Hsize Hdiv.
  intros [Hm Hi Hp Hz Hb] Hlt. unfold cursor. simpl.
  pose proof capacity_range. rewrite wrap32_small by lia. lia.
Qed.

Lemma stored_CacheInv entry st :
  CacheInv sizeofEntry st →
  index (entryCache st) < cap →
  CacheInv sizeofEntry (stored sizeofEntry entry st).
Proof using Hsize Hdiv.
  intros Hinv Hlt.
  pose proof (stored_contents entry st Hinv) as Hc.
  pose proof (stored_cursor entry st Hinv Hlt) as Hcur.
  destruct Hinv as [Hm Hi Hp Hz Hb]. pose proof capacity_range.
  split.
  - exact Hm.
  - simpl. rewrite wrap32_small by lia. lia.
  - exact Hp.
  - exact Hz.
  - intros k e. rewrite Hc, Hcur. intros Hk.
    apply lookup_insert_Some in Hk as [[<- _]|[_ Hk]]; [lia|].
    apply Hb in Hk. lia.
Qed.

(** *** [addToEntryCache] *)

Lemma addToEntryCache_Ok entry st :
  CacheInv sizeofEntry st →
  addToEntryCache sizeofEntry entry st = Ok tt (appended sizeofEntry entry st).
Proof using Hsize Hdiv.
  intros Hinv. unfold addToEntryCache, appended.
  pose proof capacity_pos. unfold_prims. mstep.
  case_bool_decide as Hrot.
  - rewrite (bind_Ok _ _ _ _ _ (flushCache_Ok st)). msteps.
    pose proof (rotated_CacheInv st Hinv) as Hinv'.
    pose proof (cache_store_Ok entry _ Hinv') as Hst. simpl in Hst.
    rewrite (bind_Ok _ _ _ _ _ (Hst ltac:(lia))). by msteps.
  - msteps. destruct (inv_index _ _ Hinv).
    rewrite (bind_Ok _ _ _ _ _ (cache_store_Ok entry st Hinv ltac:(lia))).
    by msteps.
Qed.

Lemma appended_CacheInv entry st :
  CacheInv sizeofEntry st → CacheInv sizeofEntry (appended sizeofEntry entry st).
Proof using Hsize Hdiv.
  intros Hinv. unfold appended. pose proof capacity_pos.
  case_bool_decide as Hrot.
  - apply stored_CacheInv; [by apply rotated_CacheInv|]. simpl. lia.
  - apply stored_CacheInv; [done|]. destruct (inv_index _ _ Hinv). lia.
Qed.

Lemma appended_contents entry st :
  CacheInv sizeofEntry st →
  contents (traceFile (appended sizeofEntry entry st)) =
    <[cursor sizeofEntry st := entry]> (contents (traceFile st)).
Proof using Hsize Hdiv.
  intros Hinv. unfold appended. case_bool_decide as Hrot.
  - rewrite stored_contents by (by apply rotated_CacheInv).
    by rewrite rotated_cursor, rotated_contents.
  - by rewrite stored_contents.
Qed.

Lemma appended_cursor entry st :
  CacheInv sizeofEntry st →
  cursor sizeofEntry (appended sizeofEntry entry st) = cursor sizeofEntry st + sizeofEntry.
Proof using Hsize Hdiv.
  intros Hinv. unfold appended. pose proof capacity_pos.
  case_bool_decide as Hrot.
  - rewrite stored_cursor; [by rewrite rotated_cursor|by apply rotated_CacheInv|].
    simpl. lia.
  - rewrite stored_cursor; [done..|]. destruct (inv_index _ _ Hinv). lia.
Qed.

Lemma appended_index entry st :
  CacheInv sizeofEntry st →
  index (entryCache (appended sizeofEntry entry st)) =
    (if bool_decide (index (entryCache st) = cap) then 0 else index (entryCache st)) + 1.
Proof using Hsize Hdiv.
  intros Hinv. unfold appended. pose proof capacity_range.
  destruct (inv_index _ _ Hinv).
  case_bool_decide as Hrot; simpl; rewrite wrap32_small; lia.
Qed.

Lemma appended_fileOffset entry st :
  fileOffset (entryCache (appended sizeofEntry entry st)) =
    fileOffset (entryCache st)
    + (if bool_decide (index (entryCache st) = cap) then W else 0).
Proof. unfold appended. case_bool_decide; simpl; lia. Qed.

Lemma appended_lastWritten entry st :
  CacheInv sizeofEntry st →
  lastWritten sizeofEntry (appended sizeofEntry entry st) = cursor sizeofEntry st.
Proof using Hsize Hdiv.
  intros Hinv. unfold lastWritten. rewrite appended_cursor by done. lia.
Qed.

Lemma appended_read entry st :
  CacheInv sizeofEntry st →
  read_record (traceFile (appended sizeofEntry entry st))
    (lastWritten sizeofEntry (appended sizeofEntry entry st)) = Some entry.
Proof using Hsize Hdiv.
  intros Hinv. unfold read_record.
  rewrite appended_lastWritten, appended_contents by done.
  apply lookup_insert_eq.
Qed.

(** An earlier record is still in the file after an append. *)
Lemma appended_keeps entry st off e :
  CacheInv sizeofEntry st →
  read_record (traceFile st) off = Some e →
  read_record (traceFile (appended sizeofEntry entry st)) off = Some e.
Proof using Hsize Hdiv.
  intros Hinv. unfold read_record. intros Hoff.
  rewrite appended_contents by done.
  rewrite lookup_insert_ne; [done|].
  intros <-. apply (inv_below _ _ Hinv) in Hoff. lia.
Qed.

Lemma appended_trace_index entry st :
  trace_index (appended sizeofEntry entry st) = wrap32 (trace_index st + 1).
Proof. unfold appended. by case_bool_decide. Qed.

(** *** The records of the file *)

Lemma recordAt_slot (es : list Entry) (i : nat) :
  recordAt sizeofEntry es (Z.of_nat i * sizeofEntry) = es !! i.
Proof using Hsize.
  unfold recordAt.
  rewrite bool_decide_true by (split; [nia|apply Z.mod_mul; lia]).
  rewrite Z.div_mul by lia. by rewrite Nat2Z.id.
Qed.

Lemma recordAt_Some (es : list Entry) off e :
  recordAt sizeofEntry es off = Some e →
  ∃ i : nat, (i < length es)%nat ∧ off = Z.of_nat i * sizeofEntry ∧ es !! i = Some e.
Proof using Hsize.
  unfold recordAt. case_bool_decide as Hoff; [|done]. intros He.
  destruct Hoff as [Hpos Hmod].
  exists (Z.to_nat (off / sizeofEntry)). split_and!; [|..|done].
  - by eapply lookup_lt_Some.
  - rewrite Z2Nat.id by (apply Z.div_pos; lia).
    pose proof (Z.div_mod off sizeofEntry). lia.
Qed.

Lemma recordAt_snoc (es : list Entry) e off :
  off ≠ Z.of_nat (length es) * sizeofEntry →
  recordAt sizeofEntry (es ++ [e]) off = recordAt sizeofEntry es off.
Proof using Hsize.
  intros Hne. unfold recordAt. case_bool_decide as Hoff; [|done].
  destruct Hoff as [Hpos Hmod].
  assert (off = sizeofEntry * (off / sizeofEntry)) as Hq
    by (pose proof (Z.div_mod off sizeofEntry); lia).
  assert (0 <= off / sizeofEntry) by (apply Z.div_pos; lia).
  destruct (decide (Z.to_nat (off / sizeofEntry) < length es)%nat) as [Hlt|Hge].
  - by rewrite lookup_app_l.
  - assert (Z.to_nat (off / sizeofEntry) ≠ length es) by nia.
    rewrite !lookup_ge_None_2; [done|lia|]. rewrite length_app. simpl. lia.
Qed.

Lemma Holds_appended st es entry :
  CacheInv sizeofEntry st →
  Holds sizeofEntry st es →
  Holds sizeofEntry (appended sizeofEntry entry st) (es ++ [entry]).
Proof using Hsize Hdiv.
  intros Hinv [Hcur Hrec]. split.
  - rewrite appended_cursor, Hcur, length_app by done. simpl. lia.
  - intros off. unfold read_record in *. rewrite appended_contents by done.
    rewrite Hcur. destruct (decide (off = Z.of_nat (length es) * sizeofEntry)) as [->|Hne].
    + rewrite lookup_insert_eq, recordAt_slot. symmetry. apply list_lookup_middle. done.
    + rewrite lookup_insert_ne by done. rewrite Hrec. symmetry. by apply recordAt_snoc.
Qed.

Lemma Holds_readTrace st es :
  Holds sizeofEntry st es →
  readTrace sizeofEntry (traceFile st) (length es) = Some <$> es.
Proof using Hsize.
  intros [_ Hrec]. unfold readTrace. apply list_eq. intros i.
  rewrite !list_lookup_fmap.
  destruct (decide (i < length es)%nat) as [Hlt|Hge].
  - rewrite lookup_seq_lt by done. simpl. rewrite Hrec, recordAt_slot.
    destruct (lookup_lt_is_Some_2 es i Hlt) as [e ->]. done.
  - rewrite lookup_seq_ge by lia. by rewrite lookup_ge_None_2 by lia.
Qed.

Lemma Holds_nothing_else st es off :
  Holds sizeofEntry st es →
  read_record (traceFile st) off ≠ None →
  ∃ i : nat, (i < length es)%nat ∧ off = Z.of_nat i * sizeofEntry.
Proof using Hsize.
  intros [_ Hrec]. rewrite Hrec. intros Hoff.
  destruct (recordAt sizeofEntry es off) as [e|] eqn:E; [|done].
  apply recordAt_Some in E as (i & ? & ? & _). eauto.
Qed.

(** *** [recordInit] *)

Lemma openedState_CacheInv self name FD st :
  CacheInv sizeofEntry (openedState self name FD st).
Proof using Hsize Hdiv.
  pose proof capacity_pos. split; simpl; try lia; try done.
Qed.

Lemma openedState_Holds self name FD st :
  Holds sizeofEntry (openedState self name FD st) [].
Proof.
  split; [unfold cursor; simpl; lia|].
  intros off. unfold read_record, recordAt. simpl.
  rewrite lookup_empty. by case_bool_decide.
Qed.

End Cache.

Lemma recordInit_Ok sizeofEntry self name FD st :
  entryCacheSizeinBytes mod sizeofEntry = 0 →
  FD ≠ -1 →
  countUpdateThreadID st ≠ 2 ^ 31 - 1 →
  recordInit sizeofEntry self name FD st = Ok tt (openedState self name FD st).
Proof.
  intros Hdiv HFD Hc.
  unfold recordInit, open_trunc, openFD, extend_file, updateThreadID.
  unfold_prims.
  rewrite (bool_decide_false (_ mod _ ≠ 0)) by (intros H; by apply H).
  repeat (first [mstep | rewrite (bool_decide_true (FD ≠ -1)) by done
                 | rewrite (bool_decide_false (_ = 2 ^ 31 - 1)) by done]).
  unfold openedState, clobber. rewrite map_filter_empty.
  case_bool_decide; msteps; by rewrite <- ?app_assoc.
Qed.

Lemma recordInit_inv sizeofEntry self name FD st st' :
  recordInit sizeofEntry self name FD st = Ok tt st' →
  entryCacheSizeinBytes mod sizeofEntry = 0
  ∧ st' = openedState self name FD st.
Proof.
  intros H.
  destruct (decide (entryCacheSizeinBytes mod sizeofEntry = 0)) as [Hdiv|Hdiv].
  2:{ revert H. unfold recordInit. unfold_prims.
      rewrite (bool_decide_true (_ mod _ ≠ 0)) by done. by msteps. }
  destruct (decide (FD = -1)) as [->|HFD].
  { revert H. unfold recordInit, open_trunc. unfold_prims.
    rewrite (bool_decide_false (_ mod _ ≠ 0)) by (intros H'; by apply H').
    by msteps. }
  destruct (decide (countUpdateThreadID st = 2 ^ 31 - 1)) as [Hc|Hc].
  { revert H.
    unfold recordInit, open_trunc, openFD, extend_file, updateThreadID.
    unfold_prims.
    rewrite (bool_decide_false (_ mod _ ≠ 0)) by (intros H'; by apply H').
    repeat (first [mstep | rewrite (bool_decide_true (FD ≠ -1)) by done
                   | rewrite (bool_decide_true (_ = 2 ^ 31 - 1)) by done]).
    done. }
  rewrite recordInit_Ok in H by done. split; [done|congruence].
Qed.

Lemma CacheInv_frame sizeofEntry st st' :
  entryCache st' = entryCache st →
  traceFile st' = traceFile st →
  CacheInv sizeofEntry st → CacheInv sizeofEntry st'.
Proof.
  intros Hc Hf [Hm Hi Hp Hz Hb].
  split; unfold cursor in *; rewrite ?Hc, ?Hf; done.
Qed.

Lemma Holds_frame sizeofEntry st st' es :
  entryCache st' = entryCache st →
  traceFile st' = traceFile st →
  Holds sizeofEntry st es → Holds sizeofEntry st' es.
Proof.
  intros Hc Hf [Hcur Hrec].
  split; unfold cursor in *; rewrite ?Hc, ?Hf; done.
Qed.

Lemma run_all_steps sizeofEntry (steps : list ((State -> State) * Entry)) :
  0 < sizeofEntry →
  entryCacheSizeinBytes mod sizeofEntry = 0 →
  Forall (fun x => leavesTrace x.1) steps →
  ∀ st prev,
  CacheInv sizeofEntry st →
  Holds sizeofEntry st prev →
  ∃ st', run_all ((fun x => modify x.1 ;; addToEntryCache sizeofEntry x.2) <$> steps) st
           = Ok tt st'
         ∧ CacheInv sizeofEntry st'
         ∧ Holds sizeofEntry st' (prev ++ steps.*2).
Proof.
  intros Hsize Hdiv. induction 1 as [|[g e] steps Hg _ IH]; intros st prev Hinv Hholds.
  - exists st. rewrite app_nil_r. done.
  - simpl. unfold mbind, M_bind, modify. destruct (Hg st) as [Hc Hf]. simpl in *.
    assert (CacheInv sizeofEntry (g st)) as Hinv' by (by eapply CacheInv_frame).
    assert (Holds sizeofEntry (g st) prev) as Hholds' by (by eapply Holds_frame).
    rewrite addToEntryCache_Ok by done.
    destruct (IH (appended sizeofEntry e (g st)) (prev ++ [e])) as (st' & Hrun & Hi' & Hh').
    + by apply appended_CacheInv.
    + by apply Holds_appended.
    + exists st'. rewrite <- app_assoc in Hh'. done.
Qed.

(** ** Invariants along a computation *)

Section Preservation.

Variable P : State -> Prop.

Lemma preserves_ret {A} (a : A) : preserves P (mret a : M A).
Proof. intros st HP. done. Qed.

Lemma preserves_gets {A} (f : State -> A) : preserves P (gets f).
Proof. intros st HP. done. Qed.

Lemma preserves_abort {A} : preserves P (abort : M A).
Proof. intros st HP. done. Qed.

Lemma preserves_fault {A} : preserves P (fault : M A).
Proof. intros st HP. done. Qed.

Lemma preserves_modify (g : State -> State) :
  (∀ st, P st → P (g st)) → preserves P (modify g).
Proof. intros Hg st HP. by apply Hg. Qed.

Lemma preserves_bind {A B} (m : M A) (k : A -> M B) :
  preserves P m → (∀ a, preserves P (k a)) → preserves P (m ≫= k).
Proof.
  intros Hm Hk st HP. specialize (Hm st HP). unfold mbind, M_bind.
  destruct (m st) as [a st'| |]; [by apply Hk|done..].
Qed.

Lemma preserves_if {A} (b : bool) (m1 m2 : M A) :
  preserves P m1 → preserves P m2 → preserves P (if b then m1 else m2).
Proof. by destruct b. Qed.

Lemma preserves_when (b : bool) (m : M unit) :
  preserves P m → preserves P (when b m).
Proof. intros Hm. destruct b; [done|apply preserves_ret]. Qed.

Lemma preserves_array_load a i : preserves P (array_load a i).
Proof.
  unfold array_load. case_bool_decide; [|apply preserves_fault].
  destruct (a !! Z.to_nat i); [apply preserves_ret|apply preserves_fault].
Qed.

Lemma preserves_array_store a i f : preserves P (array_store a i f).
Proof.
  unfold array_store. case_bool_decide; [apply preserves_ret|apply preserves_fault].
Qed.

Lemma preserves_read_string str : preserves P (read_string str).
Proof. destruct str; [apply preserves_ret|apply preserves_fault]. Qed.

Lemma preserves_run_all (ms : list (M unit)) :
  Forall (preserves P) ms → preserves P (run_all ms).
Proof.
  induction 1 as [|m ms Hm _ IH]; simpl.
  - apply preserves_ret.
  - apply preserves_bind; [done|]. by intros [].
Qed.

End Preservation.

Section Cache_preserved.

Variable sizeofEntry : Z.
Hypothesis Hsize : 0 < sizeofEntry.
Hypothesis Hdiv : entryCacheSizeinBytes mod sizeofEntry = 0.

Local Abbreviation Inv := (CacheInv sizeofEntry).

Lemma preserves_leavesTrace (g : State -> State) :
  leavesTrace g → preserves Inv (modify g).
Proof.
  intros Hg. apply preserves_modify. intros st Hinv.
  destruct (Hg st). by eapply CacheInv_frame.
Qed.

Lemma preserves_addToEntryCache entry :
  preserves Inv (addToEntryCache sizeofEntry entry).
Proof using Hsize Hdiv.
  intros st Hinv. rewrite addToEntryCache_Ok by done. by apply appended_CacheInv.
Qed.

Lemma preserves_flushCache : preserves Inv (flushCache sizeofEntry).
Proof using Hsize Hdiv.
  intros st Hinv. rewrite flushCache_Ok. by apply rotated_CacheInv.
Qed.

(** The steps that make up a hook, one rule each. *)
Ltac pres_step :=
  lazymatch goal with
  | |- preserves _ (mret _) => apply preserves_ret
  | |- preserves _ (gets _) => apply preserves_gets
  | |- preserves _ abort => apply preserves_abort
  | |- preserves _ fault => apply preserves_fault
  | |- preserves _ (array_load _ _) => apply preserves_array_load
  | |- preserves _ (array_store _ _ _) => apply preserves_array_store
  | |- preserves _ (read_string _) => apply preserves_read_string
  | |- preserves _ (addToEntryCache _ _) => apply preserves_addToEntryCache
  | |- preserves _ (flushCache _) => apply preserves_flushCache
  | |- preserves _ (modify _) =>
      apply preserves_leavesTrace; intros ?; split; reflexivity
  | |- preserves _ (when _ _) => apply preserves_when
  | |- preserves _ (if _ then _ else _) => apply preserves_if
  | |- preserves _ (_ ≫= _) => apply preserves_bind; [|intros ?]
  end.

Ltac pres := repeat pres_step.

Lemma preserves_drainBBStack n : preserves Inv (drainBBStack sizeofEntry n).
Proof using Hsize Hdiv.
  induction n as [|n IH]; simpl; [apply preserves_ret|].
  pres. exact IH.
Qed.

Lemma preserves_closeCacheFile : preserves Inv (closeCacheFile sizeofEntry).
Proof using Hsize Hdiv.
  unfold closeCacheFile. unfold_prims. pres. apply preserves_drainBBStack.
Qed.

Lemma preserves_runHook self h : preserves Inv (runHook sizeofEntry self h).
Proof using Hsize Hdiv.
  destruct h; simpl;
    unfold recordStartBB, recordBB, recordLoad, recordStore, recordStrLoad,
      recordStrStore, recordStrcatStore, recordCall, recordReturn,
      recordExtCall, recordExtCallRet, recordInvFailure, recordSelect;
    unfold_prims; pres; apply preserves_closeCacheFile.
Qed.

End Cache_preserved.

(** C2. The cursor of the entry cache stays within [0, capacity].
    [recordInit] leaves it at 0; [addToEntryCache] rotates exactly when the
    cursor is at the capacity (the cursor goes back to 0 and the file
    offset moves on by one window), then stores the entry at the cursor and
    moves the cursor on by one; [flushCache], [closeCacheFile] and every
    hook keep the invariant. *)
Theorem entryCache_index_invariant sizeofEntry :
  0 < sizeofEntry →
  entryCacheSizeinBytes mod sizeofEntry = 0 →
  (∀ st, CacheInv sizeofEntry st →
         0 <= index (entryCache st) <= entryCacheSize sizeofEntry)
  ∧ (∀ self name FD st,
       CacheInv sizeofEntry (openedState self name FD st)
       ∧ index (entryCache (openedState self name FD st)) = 0)
  ∧ (∀ entry st, CacheInv sizeofEntry st →
       ∃ st', addToEntryCache sizeofEntry entry st = Ok tt st'
         ∧ index (entryCache st')
             = (if bool_decide (index (entryCache st) = entryCacheSize sizeofEntry)
                then 0 else index (entryCache st)) + 1
         ∧ fileOffset (entryCache st')
             = fileOffset (entryCache st)
               + (if bool_decide (index (entryCache st) = entryCacheSize sizeofEntry)
                  then entryCacheSizeinBytes else 0)
         ∧ read_record (traceFile st')
             (fileOffset (entryCache st')
              + (index (entryCache st') - 1) * sizeofEntry) = Some entry
         ∧ 0 <= index (entryCache st') <= entryCacheSize sizeofEntry
         ∧ CacheInv sizeofEntry st')
  ∧ (∀ st, CacheInv sizeofEntry st →
       ∃ st', flushCache sizeofEntry st = Ok tt st'
         ∧ index (entryCache st') = 0
         ∧ fileOffset (entryCache st')
             = fileOffset (entryCache st) + entryCacheSizeinBytes
         ∧ CacheInv sizeofEntry st')
  ∧ preserves (CacheInv sizeofEntry) (closeCacheFile sizeofEntry)
  ∧ ∀ self h, preserves (CacheInv sizeofEntry) (runHook sizeofEntry self h).
Proof.
  intros Hsize Hdiv. split_and!.
  - intros st Hinv. apply (inv_index _ _ Hinv).
  - intros self name FD st. split; [by apply openedState_CacheInv|done].
  - intros entry st Hinv. exists (appended sizeofEntry entry st).
    pose proof (appended_CacheInv _ Hsize Hdiv entry st Hinv) as Hinv'.
    split_and!.
    + by apply addToEntryCache_Ok.
    + by apply appended_index.
    + apply appended_fileOffset.
    + pose proof (appended_read _ Hsize Hdiv entry st Hinv) as Hr.
      unfold lastWritten, cursor in Hr.
      rewrite <- Hr. f_equal. lia.
    + apply (inv_index _ _ Hinv').
    + apply (inv_index _ _ Hinv').
    + done.
  - intros st Hinv. exists (rotated sizeofEntry st). split_and!; [done..|].
    by apply rotated_CacheInv.
  - by apply preserves_closeCacheFile.
  - intros self h. by apply preserves_runHook.
Qed.

Lemma entryCache_index_invariant_witness :
  0 < 134217728
  ∧ entryCacheSizeinBytes mod 134217728 = 0
  ∧ ∃ st1 st2 st3,
      addToEntryCache 134217728 (Entry4 LDType 2 8192 8)
        (openedState 7 "trace.bin" 3 initialState) = Ok tt st1
      ∧ addToEntryCache 134217728 (Entry4 STType 3 8192 8) st1 = Ok tt st2
      ∧ addToEntryCache 134217728 (Entry3 CLType 5 4096) st2 = Ok tt st3
      ∧ index (entryCache st2) = 2
      ∧ fileOffset (entryCache st2) = 0
      ∧ index (entryCache st3) = 1
      ∧ fileOffset (entryCache st3) = entryCacheSizeinBytes.
Proof.
  assert (H1 : 0 < 134217728) by lia.
  assert (H2 : entryCacheSizeinBytes mod 134217728 = 0) by reflexivity.
  split; [exact H1|]. split; [exact H2|].
  destruct (entryCache_index_invariant 134217728 H1 H2)
    as (_ & Hopen & Happ & _).
  destruct (Hopen 7 "trace.bin"%string 3 initialState) as [Hinv0 _].
  destruct (Happ (Entry4 LDType 2 8192 8) _ Hinv0)
    as (st1 & E1 & I1 & O1 & _ & _ & Hinv1).
  destruct (Happ (Entry4 STType 3 8192 8) _ Hinv1)
    as (st2 & E2 & I2 & O2 & _ & _ & Hinv2).
  destruct (Happ (Entry3 CLType 5 4096) _ Hinv2)
    as (st3 & E3 & I3 & O3 & _ & _ & Hinv3).
  exists st1, st2, st3. split_and!; [done..| | | |].
  - rewrite I2, I1. reflexivity.
  - rewrite O2, O1, I1. reflexivity.
  - rewrite I3, I2, I1. reflexivity.
  - rewrite O3, I2, I1, O2, O1, I1. reflexivity.
Defined.

(** ** What an append leaves alone *)

Section Appended_frame.

Variable sizeofEntry : Z.
Variable entry : Entry.
Variable st : State.

Lemma appended_BBStackIndex :
  BBStackIndex (appended sizeofEntry entry st) = BBStackIndex st.
Proof. unfold appended. by case_bool_decide. Qed.

Lemma appended_BBStack : BBStack (appended sizeofEntry entry st) = BBStack st.
Proof. unfold appended. by case_bool_decide. Qed.

Lemma appended_FNStackIndex :
  FNStackIndex (appended sizeofEntry entry st) = FNStackIndex st.
Proof. unfold appended. by case_bool_decide. Qed.

Lemma appended_FNStack : FNStack (appended sizeofEntry entry st) = FNStack st.
Proof. unfold appended. by case_bool_decide. Qed.

Lemma appended_stdout : stdout (appended sizeofEntry entry st) = stdout st.
Proof. unfold appended. by case_bool_decide. Qed.

Lemma appended_stderr : stderr (appended sizeofEntry entry st) = stderr st.
Proof. unfold appended. by case_bool_decide. Qed.

Lemma appended_StackInv : StackInv st → StackInv (appended sizeofEntry entry st).
Proof.
  intros [H1 H2 H3].
  split; by rewrite ?appended_BBStack, ?appended_FNStack, ?appended_FNStackIndex.
Qed.

End Appended_frame.

(** From here on an append is known through the lemmas above. *)
Opaque appended.

(** The message that [recordBB] may print first leaves the cache, the file
    and the stacks as they are. *)
Lemma lastWritten_frame sizeofEntry st st' :
  entryCache st' = entryCache st →
  lastWritten sizeofEntry st' = lastWritten sizeofEntry st.
Proof. intros H. unfold lastWritten, cursor. by rewrite H. Qed.

(** C3. [recordBB] with the last-block flag set and an empty function-call
    stack appends a basic-block record whose call id (the length field) is
    all ones, [~0] as an unsigned, and leaves the function-call stack
    empty. *)
Theorem recordBB_empty_call_stack sizeofEntry self id fp lastBB st :
  0 < sizeofEntry →
  entryCacheSizeinBytes mod sizeofEntry = 0 →
  CacheInv sizeofEntry st →
  lastBB ≠ 0 →
  FNStackIndex st = 0 →
  ∃ st', recordBB sizeofEntry self id fp lastBB st = Ok tt st'
    ∧ read_record (traceFile st') (lastWritten sizeofEntry st')
        = Some (mkEntry BBType id fp (2 ^ 32 - 1))
    ∧ trace_index st' = wrap32 (trace_index st + 1)
    ∧ FNStackIndex st' = 0
    ∧ FNStack st' = FNStack st.
Proof.
  intros Hsize Hdiv Hinv Hlast Hempty.
  unfold recordBB. unfold_prims. msteps.
  set (st1 := if bool_decide (190525 <= id <= 190532)
              then set_stdout (stdout st ++ [MsgEndBBRange id]) st else st).
  assert (Hc1 : entryCache st1 = entryCache st) by (unfold st1; by case_bool_decide).
  assert (Hf1 : traceFile st1 = traceFile st) by (unfold st1; by case_bool_decide).
  assert (Hn1 : FNStackIndex st1 = FNStackIndex st) by (unfold st1; by case_bool_decide).
  assert (Ha1 : FNStack st1 = FNStack st) by (unfold st1; by case_bool_decide).
  assert (Ht1 : trace_index st1 = trace_index st) by (unfold st1; by case_bool_decide).
  assert (Hinv1 : CacheInv sizeofEntry st1) by (by eapply CacheInv_frame).
  exists (set_BBStackIndex (wrap32 (BBStackIndex st1 - 1))
            (appended sizeofEntry (mkEntry BBType id fp (2 ^ 32 - 1)) st1)).
  split_and!.
  - assert (Hrun : ∀ k : unit -> M unit,
      ((if bool_decide (190525 <= id <= 190532)
        then modify (fun st0 => set_stdout (stdout st0 ++ [MsgEndBBRange id]) st0)
        else mret tt) ≫= k) st = k tt st1).
    { intros k. unfold st1. case_bool_decide; by msteps. }
    rewrite Hrun.
    rewrite (bool_decide_true (lastBB ≠ 0)) by done.
    msteps. rewrite Hn1, Hempty. simpl. msteps.
    rewrite (bind_Ok _ _ _ _ _ (addToEntryCache_Ok _ Hsize Hdiv _ _ Hinv1)).
    msteps. by rewrite appended_BBStackIndex.
  - rewrite (lastWritten_frame sizeofEntry
               (appended sizeofEntry (mkEntry BBType id fp (2 ^ 32 - 1)) st1))
      by done.
    simpl. by apply appended_read.
  - simpl. by rewrite appended_trace_index, Ht1.
  - simpl. by rewrite appended_FNStackIndex, Hn1.
  - simpl. by rewrite appended_FNStack, Ha1.
Qed.

(** ** Running the hooks *)

Arguments mbind : simpl never.
Arguments M_bind : simpl never.

Lemma bind_addToEntryCache {B} sizeofEntry entry (k : unit -> M B) st0 st :
  0 < sizeofEntry →
  entryCacheSizeinBytes mod sizeofEntry = 0 →
  CacheInv sizeofEntry st0 →
  entryCache st = entryCache st0 →
  traceFile st = traceFile st0 →
  (addToEntryCache sizeofEntry entry ≫= k) st
    = k tt (appended sizeofEntry entry st).
Proof.
  intros Hsize Hdiv Hinv Hc Hf. apply bind_Ok, addToEntryCache_Ok; [done..|].
  by eapply CacheInv_frame.
Qed.

Lemma run_addToEntryCache sizeofEntry entry st0 st :
  0 < sizeofEntry →
  entryCacheSizeinBytes mod sizeofEntry = 0 →
  CacheInv sizeofEntry st0 →
  entryCache st = entryCache st0 →
  traceFile st = traceFile st0 →
  addToEntryCache sizeofEntry entry st = Ok tt (appended sizeofEntry entry st).
Proof.
  intros Hsize Hdiv Hinv Hc Hf. apply addToEntryCache_Ok; [done..|].
  by eapply CacheInv_frame.
Qed.

Lemma topFN_load st top :
  topFN st = Some top →
  0 < FNStackIndex st
  ∧ array_load (FNStack st) (wrap32 (FNStackIndex st - 1)) = mret top.
Proof.
  unfold topFN. case_bool_decide as Hn; [|done]. intros Htop. split; [done|].
  apply array_load_Ok; [apply wrap32_range|done].
Qed.

Lemma StackInv_topFN st :
  StackInv st → 0 < FNStackIndex st → is_Some (topFN st).
Proof.
  intros [_ Hlen [_ Hn]] Hpos. unfold topFN. rewrite bool_decide_true by done.
  apply lookup_lt_is_Some_2. unfold maxFNStack in *.
  rewrite wrap32_small by lia. lia.
Qed.

(** The steps of a hook from a state in which the cache invariant holds:
    the laws of the monad, the append, and a case on each test. *)
Ltac hook_step Hsize Hdiv Hinv :=
  first
    [ mstep
    | erewrite (bind_addToEntryCache _ _ _ _ _ Hsize Hdiv Hinv) by reflexivity
    | erewrite (run_addToEntryCache _ _ _ _ Hsize Hdiv Hinv) by reflexivity
    | case_bool_decide ].

Ltac run_hook Hsize Hdiv Hinv := repeat hook_step Hsize Hdiv Hinv.

(** C4. [recordBB] with the last-block flag set, when the top of the
    function-call stack holds another function's address, returns: it
    prints the mismatch on stderr, leaves the function-call stack as it is,
    and appends the basic-block record of the block. *)
Theorem recordBB_address_mismatch sizeofEntry self id fp lastBB st top :
  0 < sizeofEntry →
  entryCacheSizeinBytes mod sizeofEntry = 0 →
  CacheInv sizeofEntry st →
  lastBB ≠ 0 →
  topFN st = Some top →
  f_address top ≠ fp →
  ∃ st', recordBB sizeofEntry self id fp lastBB st = Ok tt st'
    ∧ stderr st' = stderr st ++ [MsgFunctionMismatch id]
    ∧ FNStackIndex st' = FNStackIndex st
    ∧ FNStack st' = FNStack st
    ∧ topFN st' = Some top
    ∧ read_record (traceFile st') (lastWritten sizeofEntry st')
        = Some (mkEntry BBType id fp 0)
    ∧ trace_index st' = wrap32 (trace_index st + 1).
Proof.
  intros Hsize Hdiv Hinv Hlast Htop Hne.
  destruct (topFN_load _ _ Htop) as [Hpos Hload].
  unfold recordBB. unfold_prims.
  rewrite (bool_decide_true (lastBB ≠ 0)) by done.
  mstep.
  case_bool_decide as Hrange;
    (msteps; rewrite (bool_decide_true (_ > 0)) by lia; msteps;
     rewrite Hload; msteps; rewrite (bool_decide_true (_ ≠ _)) by done;
     run_hook Hsize Hdiv Hinv;
     eexists; split; [reflexivity|]; simpl;
     rewrite appended_stderr, appended_FNStackIndex, appended_FNStack,
       appended_trace_index; simpl; split_and!; try done;
     [ unfold topFN; simpl; by rewrite appended_FNStackIndex, appended_FNStack
     | erewrite lastWritten_frame by reflexivity;
       apply appended_read; [done..|];
       eapply CacheInv_frame; [| |exact Hinv]; reflexivity ]).
Qed.

(** [recordBB] from a state in which both invariants hold: it returns, and
    it has appended one record and decremented [BBStackIndex]. *)
Lemma recordBB_Ok sizeofEntry self id fp lastBB st :
  0 < sizeofEntry →
  entryCacheSizeinBytes mod sizeofEntry = 0 →
  CacheInv sizeofEntry st →
  StackInv st →
  ∃ callID st1,
    recordBB sizeofEntry self id fp lastBB st
      = Ok tt (set_BBStackIndex (wrap32 (BBStackIndex st - 1))
                 (appended sizeofEntry (mkEntry BBType id fp callID) st1))
    ∧ entryCache st1 = entryCache st
    ∧ traceFile st1 = traceFile st
    ∧ trace_index st1 = trace_index st
    ∧ BBStack st1 = BBStack st
    ∧ FNStack st1 = FNStack st
    ∧ (FNStackIndex st1 = FNStackIndex st
       ∨ 0 < FNStackIndex st ∧ FNStackIndex st1 = FNStackIndex st - 1).
Proof.
  intros Hsize Hdiv Hinv Hstack.
  pose proof (inv_FNStackIndex _ Hstack) as Hn. unfold maxFNStack in Hn.
  unfold recordBB. unfold_prims.
  destruct (decide (lastBB ≠ 0 ∧ 0 < FNStackIndex st)) as [[Hlast Hpos]|Hno].
  - destruct (StackInv_topFN _ Hstack Hpos) as [top Htop].
    destruct (topFN_load _ _ Htop) as [_ Hload].
    rewrite (bool_decide_true (lastBB ≠ 0)) by done.
    repeat first [ hook_step Hsize Hdiv Hinv | rewrite Hload | lia ];
      (eexists _, _; split;
       [rewrite ?appended_BBStackIndex; reflexivity|]; simpl;
       split_and!; try done; rewrite ?wrap32_small by lia; auto).
  - repeat first [ hook_step Hsize Hdiv Hinv ]; try (exfalso; apply Hno; split; [done|lia]);
      (eexists _, _; split;
       [rewrite ?appended_BBStackIndex; reflexivity|]; simpl;
       split_and!; try done; auto).
Qed.

(** [recordBB] appends the basic-block record of the block. *)
Lemma recordBB_appends sizeofEntry self id fp lastBB st :
  0 < sizeofEntry →
  entryCacheSizeinBytes mod sizeofEntry = 0 →
  CacheInv sizeofEntry st →
  StackInv st →
  ∃ callID st',
    recordBB sizeofEntry self id fp lastBB st = Ok tt st'
    ∧ read_record (traceFile st') (lastWritten sizeofEntry st')
        = Some (mkEntry BBType id fp callID)
    ∧ trace_index st' = wrap32 (trace_index st + 1).
Proof.
  intros Hsize Hdiv Hinv Hstack.
  destruct (recordBB_Ok sizeofEntry self id fp lastBB st Hsize Hdiv Hinv Hstack)
    as (callID & st1 & Hrun & Hc & Hf & Ht & _).
  eexists callID, _. split; [exact Hrun|]. split.
  - rewrite (lastWritten_frame sizeofEntry
               (appended sizeofEntry (mkEntry BBType id fp callID) st1))
      by done.
    simpl. apply appended_read; [done..|]. by eapply CacheInv_frame.
  - simpl. by rewrite appended_trace_index, Ht.
Qed.

(** C10. [recordBB] decrements [BBStackIndex] on every call.  On an empty
    basic-block stack the unsigned index wraps to [2^32 - 1], which is
    outside the array; the index stays within [0, maxBBStack] exactly when
    a block was on the stack. *)
Theorem recordBB_decrements sizeofEntry self id fp lastBB st :
  0 < sizeofEntry →
  entryCacheSizeinBytes mod sizeofEntry = 0 →
  CacheInv sizeofEntry st →
  StackInv st →
  ∃ st', recordBB sizeofEntry self id fp lastBB st = Ok tt st'
    ∧ BBStackIndex st' = wrap32 (BBStackIndex st - 1)
    ∧ (BBStackIndex st = 0 → BBStackIndex st' = 2 ^ 32 - 1)
    ∧ (0 <= BBStackIndex st <= maxBBStack →
       (0 <= BBStackIndex st' <= maxBBStack ↔ 0 < BBStackIndex st)).
Proof.
  intros Hsize Hdiv Hinv Hstack.
  destruct (recordBB_Ok sizeofEntry self id fp lastBB st Hsize Hdiv Hinv Hstack)
    as (callID & st1 & Hrun & _).
  eexists. split; [exact Hrun|]. simpl. split_and!.
  - done.
  - by intros ->.
  - unfold maxBBStack. intros Hrange.
    destruct (decide (BBStackIndex st = 0)) as [->|Hz].
    + change (wrap32 (0 - 1)) with (2 ^ 32 - 1). lia.
    + rewrite wrap32_small by lia. lia.
Qed.

(** The cache invariant under the updates of the other variables. *)
Ltac peel_setter Hinv :=
  repeat match goal with
         | |- CacheInv _ (appended _ _ _) => apply appended_CacheInv; [done..|]
         | |- CacheInv _ (_ _ ?X) =>
             apply (CacheInv_frame _ X); [reflexivity|reflexivity|]
         end;
  try exact Hinv.

Lemma StackInv_frame st st' :
  BBStack st' = BBStack st →
  FNStack st' = FNStack st →
  FNStackIndex st' = FNStackIndex st →
  StackInv st → StackInv st'.
Proof. intros H1 H2 H3 [? ? ?]. split; by rewrite ?H1, ?H2, ?H3. Qed.

(** A hook whose record is given by its arguments appends that record at
    the cursor, keeps the records that were in the file, and keeps both
    invariants. *)
Lemma runHook_appends sizeofEntry self h entry st :
  0 < sizeofEntry →
  entryCacheSizeinBytes mod sizeofEntry = 0 →
  CacheInv sizeofEntry st →
  StackInv st →
  hookEntry h = Some entry →
  ∃ st', runHook sizeofEntry self h st = Ok tt st'
    ∧ CacheInv sizeofEntry st'
    ∧ StackInv st'
    ∧ lastWritten sizeofEntry st' = cursor sizeofEntry st
    ∧ read_record (traceFile st') (lastWritten sizeofEntry st') = Some entry
    ∧ trace_index st' = wrap32 (trace_index st + 1)
    ∧ ∀ off e, read_record (traceFile st) off = Some e →
               read_record (traceFile st') off = Some e.
Proof.
  intros Hsize Hdiv Hinv Hstack Hentry.
  assert (Hgen : ∀ st0 st',
    entryCache st' = entryCache (appended sizeofEntry entry st0) →
    traceFile st' = traceFile (appended sizeofEntry entry st0) →
    trace_index st' = trace_index (appended sizeofEntry entry st0) →
    entryCache st0 = entryCache st → traceFile st0 = traceFile st →
    trace_index st0 = trace_index st →
    CacheInv sizeofEntry st'
    ∧ lastWritten sizeofEntry st' = cursor sizeofEntry st
    ∧ read_record (traceFile st') (lastWritten sizeofEntry st') = Some entry
    ∧ trace_index st' = wrap32 (trace_index st + 1)
    ∧ ∀ off e, read_record (traceFile st) off = Some e →
               read_record (traceFile st') off = Some e).
  { intros st0 st' Hc Hf Ht Hc0 Hf0 Ht0.
    assert (CacheInv sizeofEntry st0) as Hinv0 by (by eapply CacheInv_frame).
    split_and!.
    - eapply CacheInv_frame; [done..|]. by apply appended_CacheInv.
    - rewrite (lastWritten_frame _ _ _ Hc), appended_lastWritten by done.
      unfold cursor. by rewrite Hc0.
    - rewrite Hf, (lastWritten_frame _ _ _ Hc). by apply appended_read.
    - by rewrite Ht, appended_trace_index, Ht0.
    - intros off e He. rewrite Hf. apply appended_keeps; [done..|].
      by rewrite Hf0. }
  pose proof (inv_FNStackIndex _ Hstack) as Hn.
  pose proof (inv_FNStack _ Hstack) as Hlen.
  destruct h; simpl in Hentry; simplify_eq; simpl;
    unfold recordLoad, recordStore, recordStrLoad, recordStrStore,
      recordStrcatStore, recordCall, recordReturn, recordExtCall,
      recordInvFailure, recordSelect, Entry2, Entry3, Entry4;
    unfold_prims;
    repeat first [ hook_step Hsize Hdiv Hinv
                 | progress rewrite ?appended_FNStack, ?appended_FNStackIndex in *
                 | rewrite array_store_Ok by (unfold maxFNStack in *; lia) ];
    (eexists; split; [reflexivity|];
     match goal with
     | |- CacheInv _ ?st' ∧ StackInv ?st' ∧ _ =>
         assert (StackInv st') as Hstack'
     end;
     [ destruct Hstack as [H1 H2 H3]; split; simpl;
       rewrite ?length_insert, ?appended_BBStack, ?appended_FNStack,
         ?appended_FNStackIndex; simpl; try done;
       rewrite ?wrap32_small by (unfold maxFNStack in *; lia); lia
     | edestruct Hgen as (G1 & G2 & G3 & G4 & G5);
       [ .. | split_and!; [exact G1|exact Hstack'|exact G2|exact G3|exact G4|exact G5] ];
       reflexivity ]).
Qed.

(** C7. [recordCall] first appends the call record, the function-call
    stack being as it was; only then does it look at the stack.  On a full
    stack it drops the push, prints the overflow on stderr and returns, the
    index staying at [maxFNStack]; the hooks called afterwards still append
    their records. *)
Theorem recordCall_overflow sizeofEntry self id fp st :
  0 < sizeofEntry →
  entryCacheSizeinBytes mod sizeofEntry = 0 →
  CacheInv sizeofEntry st →
  StackInv st →
  ∃ st1,
    addToEntryCache sizeofEntry (Entry3 CLType id fp) st = Ok tt st1
    ∧ FNStackIndex st1 = FNStackIndex st
    ∧ FNStack st1 = FNStack st
    ∧ read_record (traceFile st1) (lastWritten sizeofEntry st1)
        = Some (mkEntry CLType id fp 0)
    ∧ (FNStackIndex st < maxFNStack →
       recordCall sizeofEntry self id fp st
         = Ok tt (set_FNStackIndex (FNStackIndex st + 1)
                    (set_FNStack
                       (<[Z.to_nat (FNStackIndex st) := mkFrame id fp]> (FNStack st))
                       st1)))
    ∧ (FNStackIndex st = maxFNStack →
       ∃ st', recordCall sizeofEntry self id fp st = Ok tt st'
         ∧ st' = set_stderr (stderr st1 ++ [MsgFNStackOverflow]) st1
         ∧ stderr st' = stderr st ++ [MsgFNStackOverflow]
         ∧ FNStackIndex st' = maxFNStack
         ∧ FNStack st' = FNStack st
         ∧ (∀ self' h entry, hookEntry h = Some entry →
             ∃ st'', runHook sizeofEntry self' h st' = Ok tt st''
               ∧ read_record (traceFile st'') (lastWritten sizeofEntry st'')
                   = Some entry
               ∧ trace_index st'' = wrap32 (trace_index st' + 1))
         ∧ (∀ self' id' fp' lastBB, ∃ callID st'',
              recordBB sizeofEntry self' id' fp' lastBB st' = Ok tt st''
              ∧ read_record (traceFile st'') (lastWritten sizeofEntry st'')
                  = Some (mkEntry BBType id' fp' callID)
              ∧ trace_index st'' = wrap32 (trace_index st' + 1))).
Proof.
  intros Hsize Hdiv Hinv Hstack.
  pose proof (inv_FNStackIndex _ Hstack) as Hn.
  pose proof (inv_FNStack _ Hstack) as Hlen.
  exists (appended sizeofEntry (Entry3 CLType id fp) st).
  split_and!.
  - by apply addToEntryCache_Ok.
  - apply appended_FNStackIndex.
  - apply appended_FNStack.
  - by apply appended_read.
  - intros Hlt. unfold recordCall. unfold_prims.
    repeat first [ hook_step Hsize Hdiv Hinv
                 | progress rewrite ?appended_FNStack, ?appended_FNStackIndex in *
                 | rewrite array_store_Ok by (unfold maxFNStack in *; lia) ];
      [lia|].
    rewrite wrap32_small by (unfold maxFNStack in *; lia). reflexivity.
  - intros Hfull. eexists. split_and!.
    + unfold recordCall. unfold_prims.
      repeat first [ hook_step Hsize Hdiv Hinv
                   | progress rewrite ?appended_FNStack, ?appended_FNStackIndex in * ];
        [reflexivity|done].
    + reflexivity.
    + simpl. by rewrite appended_stderr.
    + simpl. by rewrite appended_FNStackIndex.
    + simpl. by rewrite appended_FNStack.
    + intros self' h entry Hentry.
      match goal with
      | |- ∃ st'', runHook _ _ _ ?X = _ ∧ _ =>
          destruct (runHook_appends sizeofEntry self' h entry X)
            as (st'' & Hrun & _ & _ & _ & Hread & Htr & _);
            [exact Hsize|exact Hdiv| | |exact Hentry|]
      end.
      * peel_setter Hinv.
      * apply (StackInv_frame (appended sizeofEntry (Entry3 CLType id fp) st));
          [reflexivity..|by apply appended_StackInv].
      * exists st''. split_and!; [exact Hrun|exact Hread|exact Htr].
    + intros self' id' fp' lastBB.
      apply recordBB_appends; [exact Hsize|exact Hdiv| |].
      * peel_setter Hinv.
      * apply (StackInv_frame (appended sizeofEntry (Entry3 CLType id fp) st));
          [reflexivity..|by apply appended_StackInv].
Qed.

(** ** [recordStartBB] *)

Lemma bind_abort_not_Ok {A B} (m : M A) st (b : B) st' :
  (m ≫= fun _ => abort) st ≠ Ok b st'.
Proof. unfold mbind, M_bind. by destruct (m st). Qed.

(** A push: the block id is not 190531 and the index is within the array. *)
Lemma recordStartBB_push sizeofEntry self id fp st :
  id ≠ 190531 →
  0 <= BBStackIndex st < maxBBStack →
  Z.of_nat (length (BBStack st)) = maxBBStack →
  ∃ st', recordStartBB sizeofEntry self id fp st = Ok tt st'
    ∧ BBStackIndex st' = BBStackIndex st + 1
    ∧ BBStack st' = <[Z.to_nat (BBStackIndex st) := mkFrame id fp]> (BBStack st)
    ∧ stderr st' = stderr st.
Proof.
  intros Hid Hi Hlen. unfold recordStartBB. unfold_prims. unfold maxBBStack in *.
  repeat first [ mstep | rewrite array_store_Ok by lia | case_bool_decide ];
    try lia;
    (eexists; split; [reflexivity|]; simpl;
     rewrite wrap32_small by lia; done).
Qed.

(** What a call that returns has done. *)
Lemma recordStartBB_returned sizeofEntry self id fp st st' :
  recordStartBB sizeofEntry self id fp st = Ok tt st' →
  id ≠ 190531
  ∧ entryCache st' = entryCache st
  ∧ traceFile st' = traceFile st
  ∧ trace_index st' = trace_index st
  ∧ BBStackIndex st' = wrap32 (BBStackIndex st + 1)
  ∧ BBStack st' = <[Z.to_nat (BBStackIndex st) := mkFrame id fp]> (BBStack st)
  ∧ FNStackIndex st' = FNStackIndex st
  ∧ FNStack st' = FNStack st
  ∧ stderr st' = stderr st.
Proof.
  unfold recordStartBB, array_store. unfold_prims.
  repeat first [ mstep | case_bool_decide ];
    try done;
    try (intros Hrun; by apply bind_abort_not_Ok in Hrun);
    intros [= <-]; done.
Qed.

(** *** The teardown, from a state whose file holds given entries *)

Lemma openBlocks_push st st' (n : nat) top :
  BBStackIndex st = Z.of_nat (S n) →
  BBStackIndex st' = Z.of_nat n →
  BBStack st' = BBStack st →
  BBStack st !! n = Some top →
  openBlocks st = Entry3 BBType (f_id top) (f_address top) :: openBlocks st'.
Proof.
  intros Hi Hi' Ha Htop. unfold openBlocks.
  rewrite Hi, Hi', Ha, !Nat2Z.id.
  rewrite (take_S_r _ _ _ Htop), reverse_snoc. done.
Qed.

Lemma drainBBStack_Holds sizeofEntry (n : nat) : ∀ st es,
  0 < sizeofEntry →
  entryCacheSizeinBytes mod sizeofEntry = 0 →
  CacheInv sizeofEntry st →
  Holds sizeofEntry st es →
  BBStackIndex st = Z.of_nat n →
  Z.of_nat n <= maxBBStack →
  Z.of_nat (length (BBStack st)) = maxBBStack →
  ∃ st', drainBBStack sizeofEntry n st = Ok tt st'
    ∧ CacheInv sizeofEntry st'
    ∧ Holds sizeofEntry st' (es ++ openBlocks st)
    ∧ BBStackIndex st' = 0
    ∧ BBStack st' = BBStack st
    ∧ FNStack st' = FNStack st
    ∧ FNStackIndex st' = FNStackIndex st
    ∧ stdout st' = stdout st
    ∧ stderr st' = stderr st.
Proof.
  induction n as [|n IH]; intros st es Hsize Hdiv Hinv Hholds Hi Hmax Hlen.
  - exists st. unfold openBlocks. rewrite Hi. simpl. rewrite app_nil_r.
    split_and!; done.
  - unfold maxBBStack in *. simpl drainBBStack.
    mstep. rewrite (bool_decide_true (_ > 0)) by lia. msteps.
    rewrite Hi. rewrite wrap32_small by lia.
    replace (Z.of_nat (S n) - 1) with (Z.of_nat n) by lia.
    destruct (lookup_lt_is_Some_2 (BBStack st) n ltac:(lia)) as [top Htop].
    rewrite (array_load_Ok _ _ top) by (first [lia | by rewrite Nat2Z.id]).
    msteps.
    erewrite (bind_addToEntryCache _ _ _ _ _ Hsize Hdiv Hinv) by reflexivity.
    assert (CacheInv sizeofEntry (set_BBStackIndex (Z.of_nat n) st)) as Hinv1
      by (eapply CacheInv_frame; [| |exact Hinv]; reflexivity).
    assert (Holds sizeofEntry (set_BBStackIndex (Z.of_nat n) st) es) as Hholds1
      by (eapply Holds_frame; [| |exact Hholds]; reflexivity).
    match goal with
    | |- ∃ st', drainBBStack _ _ ?X = _ ∧ _ =>
        destruct (IH X (es ++ [Entry3 BBType (f_id top) (f_address top)]) Hsize Hdiv)
          as (st' & Hrun & Hinv' & Hh & H0 & Hb & Hf & Hfi & Ho & He);
        [ by apply appended_CacheInv
        | by apply Holds_appended
        | by rewrite appended_BBStackIndex
        | lia
        | by rewrite appended_BBStack
        | exists st'; rewrite Hrun;
          rewrite (openBlocks_push st X n top) in * by
            (first [done | by rewrite appended_BBStackIndex
                   | by rewrite appended_BBStack]) ]
    end.
    rewrite appended_BBStack, appended_FNStack, appended_FNStackIndex,
      appended_stdout, appended_stderr in *.
    rewrite <- app_assoc in Hh. split_and!; done.
Qed.

(** What the teardown leaves, from a state whose file holds [es]: the
    records of the blocks that are still open, the one on top first, and
    the end record after them. *)
Lemma closeCacheFile_teardown sizeofEntry st es :
  0 < sizeofEntry →
  entryCacheSizeinBytes mod sizeofEntry = 0 →
  CacheInv sizeofEntry st →
  Holds sizeofEntry st es →
  0 <= BBStackIndex st <= maxBBStack →
  Z.of_nat (length (BBStack st)) = maxBBStack →
  ∃ st', closeCacheFile sizeofEntry st = Ok tt st'
    ∧ (∀ off, read_record (traceFile st') off
              = recordAt sizeofEntry (es ++ openBlocks st ++ [Entry2 ENType 0]) off)
    ∧ BBStackIndex st' = 0
    ∧ index (entryCache st') = 0
    ∧ fileOffset (entryCache st') - entryCacheSizeinBytes
        < Z.of_nat (length (es ++ openBlocks st ++ [Entry2 ENType 0])) * sizeofEntry
        <= fileOffset (entryCache st')
    ∧ stdout st' = stdout st ++ [MsgWritingCache]
    ∧ stderr st' = stderr st.
Proof.
  intros Hsize Hdiv Hinv Hholds Hi Hlen.
  unfold closeCacheFile. unfold_prims. msteps.
  destruct (drainBBStack_Holds sizeofEntry (Z.to_nat (BBStackIndex st))
              (set_stdout (stdout st ++ [MsgWritingCache]) st) es Hsize Hdiv)
    as (drained & Hrun & Hinv' & Hh & H0 & Hb & _ & _ & Ho & He).
  - eapply CacheInv_frame; [| |exact Hinv]; reflexivity.
  - eapply Holds_frame; [| |exact Hholds]; reflexivity.
  - simpl. lia.
  - lia.
  - done.
  - rewrite (bind_Ok _ _ _ _ _ Hrun).
    rewrite (bind_Ok _ _ _ _ _ (addToEntryCache_Ok _ Hsize Hdiv _ _ Hinv')).
    rewrite flushCache_Ok. eexists. split; [reflexivity|].
    pose proof (appended_CacheInv _ Hsize Hdiv (Entry2 ENType 0) _ Hinv') as Hinv''.
    pose proof (Holds_appended _ Hsize Hdiv _ _ (Entry2 ENType 0) Hinv' Hh) as [Hcur Hrec].
    change (openBlocks (set_stdout (stdout st ++ [MsgWritingCache]) st))
      with (openBlocks st) in *.
    rewrite <- app_assoc in Hcur, Hrec.
    split_and!.
    + intros off. unfold read_record in *.
      rewrite (rotated_contents _ Hsize Hdiv) by done. apply Hrec.
    + simpl. rewrite appended_BBStackIndex. done.
    + reflexivity.
    + rewrite <- Hcur. unfold cursor. simpl.
      pose proof (inv_index _ _ Hinv').
      rewrite (appended_index _ Hsize Hdiv) by done.
      case_bool_decide; nia.
    + rewrite <- Hcur. unfold cursor. simpl.
      pose proof (inv_index _ _ Hinv'').
      pose proof (capacity_bytes _ Hsize Hdiv). nia.
    + simpl. rewrite appended_stdout. done.
    + simpl. rewrite appended_stderr. done.
Qed.

Lemma take_S_insert (a : list Frame) (i : nat) f :
  (i < length a)%nat →
  take (S i) (<[i := f]> a) = take i a ++ [f].
Proof.
  intros Hi. rewrite (take_S_r _ _ f) by (by apply list_lookup_insert_eq).
  by rewrite take_insert_ge by lia.
Qed.

(** The records of the open blocks after a push. *)
Lemma openBlocks_pushed st st' id fp :
  0 <= BBStackIndex st →
  Z.of_nat (length (BBStack st)) = maxBBStack →
  BBStackIndex st < maxBBStack →
  BBStackIndex st' = BBStackIndex st + 1 →
  BBStack st' = <[Z.to_nat (BBStackIndex st) := mkFrame id fp]> (BBStack st) →
  openBlocks st' = Entry3 BBType id fp :: openBlocks st.
Proof.
  intros Hpos Hlen Hi Hi' Ha. unfold openBlocks. rewrite Hi', Ha.
  replace (Z.to_nat (BBStackIndex st + 1)) with (S (Z.to_nat (BBStackIndex st))) by lia.
  rewrite take_S_insert by lia. by rewrite reverse_snoc.
Qed.

(** C5, as the code has it.  A call of [recordStartBB] that returns has
    appended no record: the entry cache, the file and the trace index are
    as before, and the frame is on the basic-block stack.  It returns
    whenever the index is within the array and the block id is not 190531.
    For block 190531, whatever the stack holds, the call pushes the frame,
    runs the teardown and aborts: the file, which held [es], then holds
    [es], the record of block 190531, the records of the blocks that were
    on the stack, the one on top first, and the end record.
    The basic-block record of a block comes from [recordBB]; the record of
    any other recording hook is of another kind. *)
Theorem recordStartBB_no_record sizeofEntry self id fp st :
  (∀ st', recordStartBB sizeofEntry self id fp st = Ok tt st' →
     entryCache st' = entryCache st
     ∧ traceFile st' = traceFile st
     ∧ trace_index st' = trace_index st
     ∧ BBStackIndex st' = wrap32 (BBStackIndex st + 1)
     ∧ BBStack st' = <[Z.to_nat (BBStackIndex st) := mkFrame id fp]> (BBStack st))
  ∧ (id ≠ 190531 →
     0 <= BBStackIndex st < maxBBStack →
     Z.of_nat (length (BBStack st)) = maxBBStack →
     ∃ st', recordStartBB sizeofEntry self id fp st = Ok tt st')
  ∧ (0 < sizeofEntry →
     entryCacheSizeinBytes mod sizeofEntry = 0 →
     CacheInv sizeofEntry st →
     0 <= BBStackIndex st < maxBBStack →
     Z.of_nat (length (BBStack st)) = maxBBStack →
     ∀ es, Holds sizeofEntry st es →
     ∃ st', recordStartBB sizeofEntry self 190531 fp st = Aborted st'
       ∧ (∀ off, read_record (traceFile st') off
                 = recordAt sizeofEntry
                     (es ++ Entry3 BBType 190531 fp :: openBlocks st
                         ++ [Entry2 ENType 0]) off)
       ∧ BBStackIndex st' = 0
       ∧ stderr st' = stderr st ++ [MsgForceWrite])
  ∧ (0 < sizeofEntry →
     entryCacheSizeinBytes mod sizeofEntry = 0 →
     CacheInv sizeofEntry st →
     StackInv st →
     (∀ lastBB, ∃ callID st',
        recordBB sizeofEntry self id fp lastBB st = Ok tt st'
        ∧ read_record (traceFile st') (lastWritten sizeofEntry st')
            = Some (mkEntry BBType id fp callID))
     ∧ (∀ h entry, hookEntry h = Some entry →
        ∃ st', runHook sizeofEntry self h st = Ok tt st'
          ∧ read_record (traceFile st') (lastWritten sizeofEntry st')
              = Some entry
          ∧ e_type entry ≠ BBType)).
Proof.
  split_and!.
  - intros st' Hrun.
    apply recordStartBB_returned in Hrun as (_ & ? & ? & ? & ? & ? & _). done.
  - intros Hid Hi Hlen.
    destruct (recordStartBB_push sizeofEntry self id fp st Hid Hi Hlen)
      as (st' & Hrun & _). eauto.
  - intros Hsize Hdiv Hinv Hi Hlen es Hholds.
    unfold recordStartBB. unfold_prims.
    repeat first [ mstep | rewrite array_store_Ok by (unfold maxBBStack in *; lia)
                 | case_bool_decide ];
      try done; try (exfalso; unfold maxBBStack in *; lia).
    match goal with
    | |- ∃ st', (closeCacheFile _ ≫= _) ?X = _ ∧ _ =>
        destruct (closeCacheFile_teardown sizeofEntry X es Hsize Hdiv)
          as (st' & Hrun & Hrec & H0 & _ & _ & _ & Hse);
          [ peel_setter Hinv
          | eapply Holds_frame; [| |exact Hholds]; reflexivity
          | simpl; rewrite wrap32_small by (unfold maxBBStack in *; lia);
            unfold maxBBStack in *; lia
          | simpl; by rewrite length_insert
          | rewrite (openBlocks_pushed st X 190531 fp) in Hrec;
            [ | lia | done | lia
              | simpl; apply wrap32_small; unfold maxBBStack in *; lia
              | reflexivity ] ]
    end.
    exists st'. rewrite (bind_Ok _ _ _ _ _ Hrun).
    split_and!; [reflexivity|done|done|by rewrite Hse].
  - intros Hsize Hdiv Hinv Hstack. split.
    + intros lastBB.
      destruct (recordBB_appends sizeofEntry self id fp lastBB st Hsize Hdiv Hinv Hstack)
        as (callID & st' & Hrun & Hread & _).
      by exists callID, st'.
    + intros h entry Hentry.
      destruct (runHook_appends sizeofEntry self h entry st Hsize Hdiv Hinv Hstack Hentry)
        as (st' & Hrun & _ & _ & _ & Hread & _).
      exists st'. split_and!; [done..|].
      destruct h; simpl in Hentry; by simplify_eq.
Qed.

(** C5 as stated fails on block id 190531: the basic-block stack is empty,
    so the overflow abort is not the one taken, and yet the call runs
    [closeCacheFile], which appends the record of the block just pushed
    and the end record, before it aborts. *)
Lemma recordStartBB_190531_appends :
  BBStackIndex sampleState ≠ maxBBStack
  ∧ ∃ st', recordStartBB 16 7 190531 4096 sampleState = Aborted st'
      ∧ stderr st' = [MsgForceWrite]
      ∧ trace_index sampleState = 0
      ∧ trace_index st' = 2
      ∧ read_record (traceFile sampleState) 0 = None
      ∧ read_record (traceFile st') 0 = Some (mkEntry BBType 190531 4096 0)
      ∧ read_record (traceFile st') 16 = Some (mkEntry ENType 0 0 0).
Proof.
  split; [done|].
  eexists; split; [vm_compute; reflexivity|].
  split_and!; vm_compute; reflexivity.
Qed.

(** Pushes one after the other, none of them of block 190531, while the
    array has room. *)
Lemma recordStartBB_pushes sizeofEntry self (l : list (Z * Z)) : ∀ st,
  Forall (fun x => x.1 ≠ 190531) l →
  Z.of_nat (length (BBStack st)) = maxBBStack →
  0 <= BBStackIndex st →
  BBStackIndex st + Z.of_nat (length l) <= maxBBStack →
  ∃ st', run_all ((fun x => recordStartBB sizeofEntry self x.1 x.2) <$> l) st
           = Ok tt st'
    ∧ BBStackIndex st' = BBStackIndex st + Z.of_nat (length l)
    ∧ Z.of_nat (length (BBStack st')) = maxBBStack
    ∧ stderr st' = stderr st.
Proof.
  induction l as [|[id fp] l IH]; intros st Hids Hlen Hpos Hroom.
  - exists st. simpl. split_and!; [done|lia|done..].
  - apply Forall_cons in Hids as [Hid Hids]. simpl in *.
    destruct (recordStartBB_push sizeofEntry self id fp st Hid ltac:(lia) Hlen)
      as (st1 & Hrun & Hi1 & Ha1 & He1).
    destruct (IH st1 Hids) as (st' & Hrun' & Hi' & Hlen' & He').
    + by rewrite Ha1, length_insert.
    + lia.
    + lia.
    + exists st'. rewrite (bind_Ok _ _ _ _ _ Hrun).
      split_and!; [done|lia|done|congruence].
Qed.

(** C6, as the code has it.  From an empty basic-block stack, [maxBBStack]
    calls of [recordStartBB] in a row, none of them for block 190531, all
    return, and the next call, whatever its block id, prints the overflow
    on stderr and aborts. *)
Theorem BBStack_overflow sizeofEntry self (l : list (Z * Z)) id fp st :
  Z.of_nat (length (BBStack st)) = maxBBStack →
  BBStackIndex st = 0 →
  Z.of_nat (length l) = maxBBStack →
  Forall (fun x => x.1 ≠ 190531) l →
  (∀ k : nat, (k <= length l)%nat →
     ∃ stk, run_all ((fun x => recordStartBB sizeofEntry self x.1 x.2) <$> take k l) st
              = Ok tt stk
       ∧ BBStackIndex stk = Z.of_nat k)
  ∧ ∃ st' st'',
      run_all ((fun x => recordStartBB sizeofEntry self x.1 x.2) <$> l) st
        = Ok tt st'
      ∧ BBStackIndex st' = maxBBStack
      ∧ recordStartBB sizeofEntry self id fp st' = Aborted st''
      ∧ stderr st'' = stderr st ++ [MsgBBStackOverflow].
Proof.
  intros Hlen Hempty Hl Hids. split.
  - intros k Hk.
    destruct (recordStartBB_pushes sizeofEntry self (take k l) st)
      as (stk & Hrun & Hi & _).
    + by apply Forall_take.
    + done.
    + lia.
    + rewrite length_take. lia.
    + exists stk. split; [done|]. rewrite Hi, length_take. lia.
  - destruct (recordStartBB_pushes sizeofEntry self l st Hids Hlen)
      as (st' & Hrun & Hi & Hlen' & He); [lia..|].
    assert (BBStackIndex st' = maxBBStack) as Hfull by lia.
    exists st', (set_stderr (stderr st' ++ [MsgBBStackOverflow])
                   (if bool_decide (190525 <= id <= 190532)
                    then set_stdout (stdout st' ++ [MsgStartBBRange id]) st'
                    else st')).
    split_and!; [done..| |].
    + unfold recordStartBB. unfold_prims.
      repeat first [ mstep | case_bool_decide ]; done.
    + simpl. by rewrite He.
Qed.

(** C6 as stated fails when one of the first [maxBBStack] calls is for
    block 190531: the first call from an empty stack already aborts. *)
Lemma recordStartBB_190531_aborts_first :
  BBStackIndex sampleState = 0
  ∧ ∃ st', run_all ((fun x : Z * Z => recordStartBB 16 7 x.1 x.2)
                    <$> [(190531, 4096)]) sampleState = Aborted st'
      ∧ BBStackIndex st' = 0
      ∧ stderr st' = [MsgForceWrite].
Proof.
  split; [done|].
  eexists; split; [vm_compute; reflexivity|].
  split; vm_compute; reflexivity.
Qed.

(** ** Teardown *)

Lemma drainBBStack_Ok sizeofEntry (n : nat) : ∀ st,
  0 < sizeofEntry →
  entryCacheSizeinBytes mod sizeofEntry = 0 →
  CacheInv sizeofEntry st →
  BBStackIndex st = Z.of_nat n →
  Z.of_nat n <= maxBBStack →
  Z.of_nat (length (BBStack st)) = maxBBStack →
  ∃ st', drainBBStack sizeofEntry n st = Ok tt st'
    ∧ CacheInv sizeofEntry st'
    ∧ BBStackIndex st' = 0
    ∧ BBStack st' = BBStack st
    ∧ FNStack st' = FNStack st
    ∧ FNStackIndex st' = FNStackIndex st
    ∧ stdout st' = stdout st
    ∧ (∀ off e, read_record (traceFile st) off = Some e →
                read_record (traceFile st') off = Some e)
    ∧ (n = 0%nat → st' = st).
Proof.
  induction n as [|n IH]; intros st Hsize Hdiv Hinv Hi Hmax Hlen.
  - exists st. simpl. split_and!; done.
  - unfold maxBBStack in *. simpl drainBBStack.
    mstep. rewrite (bool_decide_true (_ > 0)) by lia. msteps.
    rewrite Hi. rewrite wrap32_small by lia.
    replace (Z.of_nat (S n) - 1) with (Z.of_nat n) by lia.
    destruct (lookup_lt_is_Some_2 (BBStack st) n ltac:(lia)) as [top Htop].
    rewrite (array_load_Ok _ _ top) by (first [lia | by rewrite Nat2Z.id]).
    msteps.
    erewrite (bind_addToEntryCache _ _ _ _ _ Hsize Hdiv Hinv) by reflexivity.
    match goal with
    | |- ∃ st', drainBBStack _ _ ?X = _ ∧ _ =>
        destruct (IH X Hsize Hdiv) as (st' & Hrun & Hinv' & H0 & Hb & Hf & Hfi & Ho & Hkeep & _)
    end.
    + apply appended_CacheInv; [done..|].
      eapply CacheInv_frame; [| |exact Hinv]; reflexivity.
    + by rewrite appended_BBStackIndex.
    + lia.
    + by rewrite appended_BBStack.
    + exists st'. rewrite Hrun.
      rewrite appended_BBStack, appended_FNStack, appended_FNStackIndex,
        appended_stdout in *.
      split_and!; try done.
      intros off e He. apply Hkeep. apply appended_keeps; [done..| |done].
      eapply CacheInv_frame; [| |exact Hinv]; reflexivity.
Qed.

(** [closeCacheFile] from a state in which the invariants hold: the blocks
    on the stack are drained into [drained], the end record is appended
    after them, and the window is rotated. *)
Lemma closeCacheFile_Ok sizeofEntry st :
  0 < sizeofEntry →
  entryCacheSizeinBytes mod sizeofEntry = 0 →
  CacheInv sizeofEntry st →
  0 <= BBStackIndex st <= maxBBStack →
  Z.of_nat (length (BBStack st)) = maxBBStack →
  ∃ drained,
    closeCacheFile sizeofEntry st
      = Ok tt (rotated sizeofEntry
                 (appended sizeofEntry (mkEntry ENType 0 0 0) drained))
    ∧ CacheInv sizeofEntry drained
    ∧ BBStackIndex drained = 0
    ∧ BBStack drained = BBStack st
    ∧ stdout drained = stdout st ++ [MsgWritingCache]
    ∧ (∀ off e, read_record (traceFile st) off = Some e →
                read_record (traceFile drained) off = Some e)
    ∧ (BBStackIndex st = 0 →
       drained = set_stdout (stdout st ++ [MsgWritingCache]) st).
Proof.
  intros Hsize Hdiv Hinv Hi Hlen.
  unfold closeCacheFile. unfold_prims. msteps.
  destruct (drainBBStack_Ok sizeofEntry (Z.to_nat (BBStackIndex st))
              (set_stdout (stdout st ++ [MsgWritingCache]) st) Hsize Hdiv)
    as (drained & Hrun & Hinv' & H0 & Hb & _ & _ & Ho & Hkeep & Hsame).
  - eapply CacheInv_frame; [| |exact Hinv]; reflexivity.
  - simpl. lia.
  - lia.
  - done.
  - exists drained. rewrite (bind_Ok _ _ _ _ _ Hrun).
    rewrite (bind_Ok _ _ _ _ _ (addToEntryCache_Ok _ Hsize Hdiv _ _ Hinv')).
    rewrite flushCache_Ok.
    split_and!; try done.
    intros Hz. apply Hsame. rewrite Hz. done.
Qed.

(** C8, as the code has it.  [closeCacheFile] has no guard: a second call
    runs the teardown again.  The blocks being drained already, it appends
    one more end record, in the first slot of the window that the first
    call mapped last, and rotates once more.  The records that the first
    call left, its end record being the last of them, stay as they were. *)
Theorem closeCacheFile_twice sizeofEntry st :
  0 < sizeofEntry →
  entryCacheSizeinBytes mod sizeofEntry = 0 →
  CacheInv sizeofEntry st →
  0 <= BBStackIndex st <= maxBBStack →
  Z.of_nat (length (BBStack st)) = maxBBStack →
  ∃ st1 st2 offEnd,
    closeCacheFile sizeofEntry st = Ok tt st1
    ∧ closeCacheFile sizeofEntry st1 = Ok tt st2
    ∧ BBStackIndex st1 = 0
    ∧ index (entryCache st1) = 0
    ∧ read_record (traceFile st1) offEnd = Some (mkEntry ENType 0 0 0)
    ∧ (∀ off e, read_record (traceFile st1) off = Some e → off <= offEnd)
    ∧ offEnd < fileOffset (entryCache st1)
    ∧ contents (traceFile st2)
        = <[fileOffset (entryCache st1) := mkEntry ENType 0 0 0]>
            (contents (traceFile st1))
    ∧ (∀ off e, read_record (traceFile st1) off = Some e →
                read_record (traceFile st2) off = Some e)
    ∧ trace_index st2 = wrap32 (trace_index st1 + 1)
    ∧ stdout st2 = stdout st1 ++ [MsgWritingCache].
Proof.
  intros Hsize Hdiv Hinv Hi Hlen.
  destruct (closeCacheFile_Ok sizeofEntry st Hsize Hdiv Hinv Hi Hlen)
    as (d1 & Hrun1 & Hinvd1 & Hz1 & Hb1 & _).
  set (e1 := appended sizeofEntry (mkEntry ENType 0 0 0) d1) in *.
  set (st1 := rotated sizeofEntry e1) in *.
  assert (CacheInv sizeofEntry e1) as Hinve1 by (by apply appended_CacheInv).
  assert (CacheInv sizeofEntry st1) as Hinv1 by (by apply rotated_CacheInv).
  assert (BBStackIndex st1 = 0) as Hz
    by (unfold st1, e1; simpl; by rewrite appended_BBStackIndex).
  destruct (closeCacheFile_Ok sizeofEntry st1 Hsize Hdiv Hinv1) as
    (d2 & Hrun2 & Hinvd2 & _ & _ & Ho2 & _ & Hsame).
  { unfold maxBBStack. lia. }
  { unfold st1, e1. simpl. by rewrite appended_BBStack, Hb1. }
  specialize (Hsame Hz). subst d2.
  assert (contents (traceFile st1)
          = <[cursor sizeofEntry d1 := mkEntry ENType 0 0 0]> (contents (traceFile d1)))
    as Hc1.
  { unfold st1. rewrite rotated_contents by done.
    unfold e1. by rewrite appended_contents. }
  assert (cursor sizeofEntry e1 = cursor sizeofEntry d1 + sizeofEntry) as Hcur
    by (unfold e1; by rewrite appended_cursor).
  assert (cursor sizeofEntry e1 <= fileOffset (entryCache st1)) as Hoff.
  { unfold st1. simpl. unfold cursor.
    pose proof (inv_index _ _ Hinve1).
    pose proof (capacity_bytes sizeofEntry Hsize Hdiv). nia. }
  eexists st1, _, (cursor sizeofEntry d1).
  split_and!; [exact Hrun1|exact Hrun2|exact Hz|reflexivity|..].
  - unfold read_record. rewrite Hc1. apply lookup_insert_eq.
  - intros off e. unfold read_record. rewrite Hc1. intros He.
    apply lookup_insert_Some in He as [[<- _]|[_ He]]; [lia|].
    apply (inv_below _ _ Hinvd1) in He. lia.
  - lia.
  - rewrite (rotated_contents _ Hsize Hdiv).
    + rewrite (appended_contents _ Hsize Hdiv)
        by (eapply CacheInv_frame; [| |exact Hinv1]; reflexivity).
      unfold cursor, st1. simpl. f_equal. lia.
    + apply appended_CacheInv; [done..|].
      eapply CacheInv_frame; [| |exact Hinv1]; reflexivity.
  - intros off e He. unfold read_record. rewrite (rotated_contents _ Hsize Hdiv).
    + apply appended_keeps; [done..| |done].
      eapply CacheInv_frame; [| |exact Hinv1]; reflexivity.
    + apply appended_CacheInv; [done..|].
      eapply CacheInv_frame; [| |exact Hinv1]; reflexivity.
  - simpl. by rewrite appended_trace_index.
  - simpl. by rewrite appended_stdout.
Qed.

(** C8 as stated fails: the second call appends a record. *)
Lemma closeCacheFile_twice_appends :
  ∃ st1 st2,
    closeCacheFile 16 sampleState = Ok tt st1
    ∧ closeCacheFile 16 st1 = Ok tt st2
    ∧ read_record (traceFile st1) 0 = Some (mkEntry ENType 0 0 0)
    ∧ read_record (traceFile st1) entryCacheSizeinBytes = None
    ∧ read_record (traceFile st2) entryCacheSizeinBytes
        = Some (mkEntry ENType 0 0 0)
    ∧ trace_index st1 = 1
    ∧ trace_index st2 = 2
    ∧ st2 ≠ st1.
Proof.
  eexists _, _. split; [vm_compute; reflexivity|].
  split; [vm_compute; reflexivity|].
  split_and!; try (vm_compute; reflexivity).
  intros H. apply (f_equal trace_index) in H. vm_compute in H. discriminate.
Qed.

(** ** The gate on the calling thread *)

(** What [addToEntryCache] has done when it returns, in any state. *)
Lemma addToEntryCache_returned sizeofEntry entry st st' :
  addToEntryCache sizeofEntry entry st = Ok tt st' →
  trace_index st' = wrap32 (trace_index st + 1)
  ∧ BBStackIndex st' = BBStackIndex st
  ∧ stdout st' = stdout st
  ∧ BBStack st' = BBStack st
  ∧ FNStack st' = FNStack st
  ∧ FNStackIndex st' = FNStackIndex st.
Proof.
  unfold addToEntryCache. unfold_prims. mstep.
  case_bool_decide.
  - rewrite (bind_Ok _ _ _ _ _ (flushCache_Ok sizeofEntry st)). msteps.
    unfold cache_store, mbind, M_bind. simpl.
    case_bool_decide; [|done]. intros [= <-]. done.
  - msteps. unfold cache_store, mbind, M_bind.
    destruct (cache (entryCache st)); [|done].
    case_bool_decide; [|done]. intros [= <-]. done.
Qed.

(** The steps of a hook that is known to return, in any state. *)
Ltac returned_step :=
  first
    [ mstep
    | case_bool_decide
    | match goal with
      | |- (addToEntryCache _ _ ≫= _) _ = Ok _ _ → _ =>
          let H := fresh "Hrun" in
          let Ha := fresh "Happ" in
          intros H; apply bind_Ok_inv in H as ([] & ? & Ha & H);
          apply addToEntryCache_returned in Ha as (? & ? & ? & ? & ? & ?);
          revert H;
          cbv beta
      | |- addToEntryCache _ _ _ = Ok _ _ → _ =>
          let Ha := fresh "Happ" in
          intros Ha;
          apply addToEntryCache_returned in Ha as (? & ? & ? & ? & ? & ?)
      | |- context [match ?a !! ?n with _ => _ end] => destruct (a !! n)
      | |- context [read_string ?s] => destruct s; simpl read_string
      | |- (_ ≫= fun _ => abort) _ = Ok _ _ → _ =>
          let H := fresh "Hrun" in intros H; by apply bind_abort_not_Ok in H
      end ].


(** A hook that returns keeps the shape of the two stacks. *)
Lemma runHook_StackInv sizeofEntry self h st st' :
  StackInv st →
  runHook sizeofEntry self h st = Ok tt st' →
  StackInv st'.
Proof.
  intros [Hb Hf Hn]. unfold maxFNStack in *.
  destruct h; simpl;
    unfold recordStartBB, recordBB, recordLoad, recordStore, recordStrLoad,
      recordStrStore, recordStrcatStore, recordCall, recordReturn,
      recordExtCall, recordExtCallRet, recordInvFailure, recordSelect,
      array_load, array_store;
    unfold_prims;
    repeat returned_step; try done;
    try (intros [= <-]); simpl in *; unfold maxFNStack in *;
    rewrite ?wrap32_small in * by lia;
    (split; simpl; unfold maxFNStack; rewrite ?length_insert;
     rewrite ?wrap32_small by lia; try congruence; lia).
Qed.

Lemma run_all_hooks_invariants sizeofEntry self (hs : list Hook) : ∀ st st',
  0 < sizeofEntry →
  entryCacheSizeinBytes mod sizeofEntry = 0 →
  CacheInv sizeofEntry st →
  StackInv st →
  run_all (runHook sizeofEntry self <$> hs) st = Ok tt st' →
  CacheInv sizeofEntry st' ∧ StackInv st'.
Proof.
  induction hs as [|h hs IH]; intros st st' Hsize Hdiv Hinv Hstack Hrun.
  - simpl in Hrun. by injection Hrun as <-.
  - simpl in Hrun. apply bind_Ok_inv in Hrun as ([] & st1 & Hh & Hrun).
    apply (IH st1); [done..| |by eapply runHook_StackInv|done].
    pose proof (preserves_runHook sizeofEntry Hsize Hdiv self h st Hinv) as Hp.
    by rewrite Hh in Hp.
Qed.

(** After [recordInit] as the first call of the program, both invariants
    hold in every state that a sequence of hooks returns in. *)
Lemma reachable_invariants sizeofEntry self name FD (hs : list Hook) st st' :
  0 < sizeofEntry →
  recordInit sizeofEntry self name FD initialState = Ok tt st →
  run_all (runHook sizeofEntry self <$> hs) st = Ok tt st' →
  CacheInv sizeofEntry st' ∧ StackInv st'.
Proof.
  intros Hsize Hinit.
  apply recordInit_inv in Hinit as [Hdiv ->].
  apply run_all_hooks_invariants; [done..|by apply openedState_CacheInv|].
  split; [reflexivity|reflexivity|unfold maxFNStack; simpl; lia].
Qed.


(** The loop of [closeCacheFile] ends on its test: with the bound taken
    from the index, no block is left when it returns. *)
Lemma drainBBStack_index sizeofEntry (n : nat) : ∀ st st',
  BBStackIndex st <= Z.of_nat n →
  drainBBStack sizeofEntry n st = Ok tt st' →
  BBStackIndex st' <= 0.
Proof.
  induction n as [|n IH]; intros st st' Hn.
  - simpl. intros [= <-]. lia.
  - simpl drainBBStack. mstep. case_bool_decide as Hpos.
    + msteps. unfold array_load.
      assert (wrap32 (BBStackIndex st - 1) <= Z.of_nat n) as Hle.
      { unfold wrap32. etrans; [apply Z.mod_le; lia|lia]. }
      repeat returned_step; try done.
      apply IH. simpl in *. lia.
    + msteps. intros [= <-]. lia.
Qed.

(** ** The theorems at work on [sampleState] *)

Ltac sample_CacheInv :=
  split;
  [ reflexivity
  | split; vm_compute; discriminate
  | vm_compute; reflexivity
  | vm_compute; reflexivity
  | let H := fresh in
    intros ? ? H; simpl in H; rewrite lookup_empty in H; discriminate H ].

Ltac sample_StackInv :=
  split; [vm_compute; reflexivity | vm_compute; reflexivity
         | split; vm_compute; discriminate].

Ltac sample_Holds :=
  split; [vm_compute; reflexivity|];
  let off := fresh "off" in
  intros off; unfold read_record, recordAt; simpl;
  rewrite lookup_empty; by case_bool_decide.

Lemma recordBB_empty_call_stack_witness :
  0 < 16
  ∧ entryCacheSizeinBytes mod 16 = 0
  ∧ CacheInv 16 sampleState
  ∧ 1 ≠ 0
  ∧ FNStackIndex sampleState = 0
  ∧ ∃ st', recordBB 16 7 1 4096 1 sampleState = Ok tt st'
      ∧ read_record (traceFile st') (lastWritten 16 st')
          = Some (mkEntry BBType 1 4096 (2 ^ 32 - 1))
      ∧ trace_index st' = wrap32 (trace_index sampleState + 1)
      ∧ FNStackIndex st' = 0
      ∧ FNStack st' = FNStack sampleState.
Proof.
  assert (H1 : 0 < 16) by lia.
  assert (H2 : entryCacheSizeinBytes mod 16 = 0) by reflexivity.
  assert (H3 : CacheInv 16 sampleState) by sample_CacheInv.
  assert (H4 : 1 ≠ 0) by lia.
  assert (H5 : FNStackIndex sampleState = 0) by reflexivity.
  split_and!; [exact H1|exact H2|exact H3|exact H4|exact H5|].
  exact (recordBB_empty_call_stack 16 7 1 4096 1 sampleState H1 H2 H3 H4 H5).
Defined.

Lemma recordBB_decrements_witness :
  0 < 16
  ∧ entryCacheSizeinBytes mod 16 = 0
  ∧ CacheInv 16 sampleState
  ∧ StackInv sampleState
  ∧ ∃ st', recordBB 16 7 1 4096 0 sampleState = Ok tt st'
      ∧ BBStackIndex st' = wrap32 (BBStackIndex sampleState - 1)
      ∧ (BBStackIndex sampleState = 0 → BBStackIndex st' = 2 ^ 32 - 1)
      ∧ (0 <= BBStackIndex sampleState <= maxBBStack →
         (0 <= BBStackIndex st' <= maxBBStack ↔ 0 < BBStackIndex sampleState)).
Proof.
  assert (H1 : 0 < 16) by lia.
  assert (H2 : entryCacheSizeinBytes mod 16 = 0) by reflexivity.
  assert (H3 : CacheInv 16 sampleState) by sample_CacheInv.
  assert (H4 : StackInv sampleState) by sample_StackInv.
  split_and!; [exact H1|exact H2|exact H3|exact H4|].
  exact (recordBB_decrements 16 7 1 4096 0 sampleState H1 H2 H3 H4).
Defined.

Lemma recordStartBB_no_record_witness :
  1 ≠ 190531
  ∧ 0 <= BBStackIndex sampleState < maxBBStack
  ∧ Z.of_nat (length (BBStack sampleState)) = maxBBStack
  ∧ 0 < 16
  ∧ entryCacheSizeinBytes mod 16 = 0
  ∧ CacheInv 16 sampleState
  ∧ Holds 16 sampleState []
  ∧ (∃ st', recordStartBB 16 7 1 4096 sampleState = Ok tt st'
       ∧ entryCache st' = entryCache sampleState
       ∧ traceFile st' = traceFile sampleState
       ∧ trace_index st' = trace_index sampleState
       ∧ BBStackIndex st' = wrap32 (BBStackIndex sampleState + 1)
       ∧ BBStack st'
           = <[Z.to_nat (BBStackIndex sampleState) := mkFrame 1 4096]>
               (BBStack sampleState))
  ∧ ∃ st', recordStartBB 16 7 190531 4096 sampleState = Aborted st'
      ∧ (∀ off, read_record (traceFile st') off
                = recordAt 16
                    ([] ++ Entry3 BBType 190531 4096 :: openBlocks sampleState
                        ++ [Entry2 ENType 0]) off)
      ∧ BBStackIndex st' = 0
      ∧ stderr st' = stderr sampleState ++ [MsgForceWrite].
Proof.
  assert (H1 : 1 ≠ 190531) by lia.
  assert (H2 : 0 <= BBStackIndex sampleState < maxBBStack)
    by (split; vm_compute; [discriminate|reflexivity]).
  assert (H3 : Z.of_nat (length (BBStack sampleState)) = maxBBStack)
    by (vm_compute; reflexivity).
  assert (H4 : 0 < 16) by lia.
  assert (H5 : entryCacheSizeinBytes mod 16 = 0) by reflexivity.
  assert (H6 : CacheInv 16 sampleState) by sample_CacheInv.
  assert (H7 : Holds 16 sampleState []) by sample_Holds.
  refine (conj H1 (conj H2 (conj H3 (conj H4 (conj H5 (conj H6 (conj H7 _))))))).
  destruct (recordStartBB_no_record 16 7 1 4096 sampleState)
    as (Hret & Hpush & Hforce & _).
  split.
  - destruct (Hpush H1 H2 H3) as (st' & Hrun).
    exists st'. split; [exact Hrun|]. exact (Hret st' Hrun).
  - exact (Hforce H4 H5 H6 H2 H3 [] H7).
Defined.

Lemma recordBB_address_mismatch_witness :
  0 < 16
  ∧ entryCacheSizeinBytes mod 16 = 0
  ∧ CacheInv 16 calledState
  ∧ 1 ≠ 0
  ∧ topFN calledState = Some (mkFrame 5 4096)
  ∧ f_address (mkFrame 5 4096) ≠ 8192
  ∧ ∃ st', recordBB 16 7 1 8192 1 calledState = Ok tt st'
      ∧ stderr st' = stderr calledState ++ [MsgFunctionMismatch 1]
      ∧ FNStackIndex st' = FNStackIndex calledState
      ∧ FNStack st' = FNStack calledState
      ∧ topFN st' = Some (mkFrame 5 4096)
      ∧ read_record (traceFile st') (lastWritten 16 st')
          = Some (mkEntry BBType 1 8192 0)
      ∧ trace_index st' = wrap32 (trace_index calledState + 1).
Proof.
  assert (H1 : 0 < 16) by lia.
  assert (H2 : entryCacheSizeinBytes mod 16 = 0) by reflexivity.
  assert (H3 : CacheInv 16 calledState).
  { pose proof (preserves_runHook 16 H1 H2 7 (HCall 5 4096) sampleState
                  ltac:(sample_CacheInv)) as Hp.
    change (runHook 16 7 (HCall 5 4096)) with (recordCall 16 7 5 4096) in Hp.
    unfold calledState.
    destruct (recordCall 16 7 5 4096 sampleState); [exact Hp|sample_CacheInv..]. }
  assert (H4 : 1 ≠ 0) by lia.
  assert (H5 : topFN calledState = Some (mkFrame 5 4096))
    by (vm_compute; reflexivity).
  assert (H6 : f_address (mkFrame 5 4096) ≠ 8192) by (simpl; lia).
  split_and!; [exact H1|exact H2|exact H3|exact H4|exact H5|exact H6|].
  exact (recordBB_address_mismatch 16 7 1 8192 1 calledState _ H1 H2 H3 H4 H5 H6).
Defined.

Lemma BBStack_overflow_witness :
  Z.of_nat (length (BBStack sampleState)) = maxBBStack
  ∧ BBStackIndex sampleState = 0
  ∧ Z.of_nat (length (replicate (Z.to_nat maxBBStack) (1, 4096))) = maxBBStack
  ∧ Forall (fun x : Z * Z => x.1 ≠ 190531) (replicate (Z.to_nat maxBBStack) (1, 4096))
  ∧ (∀ k : nat, (k <= length (replicate (Z.to_nat maxBBStack) (1, 4096)))%nat →
       ∃ stk, run_all ((fun x : Z * Z => recordStartBB 16 7 x.1 x.2)
                       <$> take k (replicate (Z.to_nat maxBBStack) (1, 4096))) sampleState
                = Ok tt stk
         ∧ BBStackIndex stk = Z.of_nat k)
  ∧ ∃ st' st'',
      run_all ((fun x : Z * Z => recordStartBB 16 7 x.1 x.2)
               <$> replicate (Z.to_nat maxBBStack) (1, 4096)) sampleState = Ok tt st'
      ∧ BBStackIndex st' = maxBBStack
      ∧ recordStartBB 16 7 190531 4096 st' = Aborted st''
      ∧ stderr st'' = stderr sampleState ++ [MsgBBStackOverflow].
Proof.
  assert (H1 : Z.of_nat (length (BBStack sampleState)) = maxBBStack)
    by (vm_compute; reflexivity).
  assert (H2 : BBStackIndex sampleState = 0) by reflexivity.
  assert (H3 : Z.of_nat (length (replicate (Z.to_nat maxBBStack) (1, 4096))) = maxBBStack)
    by (vm_compute; reflexivity).
  assert (H4 : Forall (fun x : Z * Z => x.1 ≠ 190531) (replicate (Z.to_nat maxBBStack) (1, 4096)))
    by (apply Forall_replicate; simpl; lia).
  split_and!; [exact H1|exact H2|exact H3|exact H4|..];
    apply (BBStack_overflow 16 7 (replicate (Z.to_nat maxBBStack) (1, 4096)) 190531 4096
             sampleState H1 H2 H3 H4).
Defined.

Lemma recordCall_overflow_witness :
  0 < 16
  ∧ entryCacheSizeinBytes mod 16 = 0
  ∧ CacheInv 16 fullCallStack
  ∧ StackInv fullCallStack
  ∧ FNStackIndex fullCallStack = maxFNStack
  ∧ ∃ st1 st',
      addToEntryCache 16 (Entry3 CLType 9 8192) fullCallStack = Ok tt st1
      ∧ recordCall 16 7 9 8192 fullCallStack = Ok tt st'
      ∧ st' = set_stderr (stderr st1 ++ [MsgFNStackOverflow]) st1
      ∧ FNStackIndex st' = maxFNStack
      ∧ FNStack st' = FNStack fullCallStack
      ∧ ∃ st'', runHook 16 7 (HLoad 2 8192 8) st' = Ok tt st''
          ∧ read_record (traceFile st'') (lastWritten 16 st'')
              = Some (mkEntry LDType 2 8192 8).
Proof.
  assert (H1 : 0 < 16) by lia.
  assert (H2 : entryCacheSizeinBytes mod 16 = 0) by reflexivity.
  assert (H3 : CacheInv 16 fullCallStack) by sample_CacheInv.
  assert (H4 : StackInv fullCallStack) by sample_StackInv.
  assert (H5 : FNStackIndex fullCallStack = maxFNStack)
    by (vm_compute; reflexivity).
  split_and!; [exact H1|exact H2|exact H3|exact H4|exact H5|].
  destruct (recordCall_overflow 16 7 9 8192 fullCallStack H1 H2 H3 H4)
    as (st1 & Happ & _ & _ & _ & _ & Hfull).
  destruct (Hfull H5) as (st' & Hrun & Hst' & _ & Hn & Ha & Hnext & _).
  destruct (Hnext 7 (HLoad 2 8192 8) _ eq_refl) as (st'' & Hrun' & Hread & _).
  exists st1, st'. split_and!; [done..|]. by exists st''.
Defined.

Lemma closeCacheFile_twice_witness :
  0 < 16
  ∧ entryCacheSizeinBytes mod 16 = 0
  ∧ CacheInv 16 sampleState
  ∧ 0 <= BBStackIndex sampleState <= maxBBStack
  ∧ Z.of_nat (length (BBStack sampleState)) = maxBBStack
  ∧ ∃ st1 st2,
      closeCacheFile 16 sampleState = Ok tt st1
      ∧ closeCacheFile 16 st1 = Ok tt st2
      ∧ contents (traceFile st2)
          = <[fileOffset (entryCache st1) := mkEntry ENType 0 0 0]>
              (contents (traceFile st1))
      ∧ trace_index st2 = wrap32 (trace_index st1 + 1).
Proof.
  assert (H1 : 0 < 16) by lia.
  assert (H2 : entryCacheSizeinBytes mod 16 = 0) by reflexivity.
  assert (H3 : CacheInv 16 sampleState) by sample_CacheInv.
  assert (H4 : 0 <= BBStackIndex sampleState <= maxBBStack)
    by (split; vm_compute; discriminate).
  assert (H5 : Z.of_nat (length (BBStack sampleState)) = maxBBStack)
    by (vm_compute; reflexivity).
  refine (conj H1 (conj H2 (conj H3 (conj H4 (conj H5 _))))).
  destruct (closeCacheFile_twice 16 sampleState H1 H2 H3 H4 H5)
    as (st1 & st2 & offEnd & Hr1 & Hr2 & _ & _ & _ & _ & _ & Hc & _ & Ht & _).
  exists st1, st2. split_and!; [exact Hr1|exact Hr2|exact Hc|exact Ht].
Defined.

(** ** The round trip through the file *)

(** The steps of a hook that is known to return. *)
Ltac holds_step Hsize Hdiv Hinv :=
  first
    [ mstep
    | erewrite (bind_addToEntryCache _ _ _ _ _ Hsize Hdiv Hinv) by reflexivity
    | erewrite (run_addToEntryCache _ _ _ _ Hsize Hdiv Hinv) by reflexivity
    | case_bool_decide
    | match goal with
      | |- context [match ?a !! ?n with _ => _ end] => destruct (a !! n)
      | |- context [read_string ?s] => destruct s; simpl read_string
      | |- (_ ≫= fun _ => abort) _ = Ok _ _ → _ =>
          let H := fresh "Hrun" in intros H; by apply bind_abort_not_Ok in H
      end ].

(** The invariant and the records of the file under the updates that a hook
    makes around its append. *)
Ltac peel_Holds Hsize Hdiv Hinv Hholds :=
  repeat match goal with
         | |- Holds _ (appended _ _ _) (_ ++ [_]) =>
             apply (Holds_appended _ Hsize Hdiv)
         | |- Holds _ (_ _ ?X) _ =>
             apply (Holds_frame _ X); [reflexivity|reflexivity|]
         | |- CacheInv _ (appended _ _ _) =>
             apply (appended_CacheInv _ Hsize Hdiv)
         | |- CacheInv _ (_ _ ?X) =>
             apply (CacheInv_frame _ X); [reflexivity|reflexivity|]
         end;
  first [exact Hinv | exact Hholds | idtac].

(** A hook that returns from a state whose file holds [es] leaves a file
    that holds [es] followed by the entries the hook gave to
    [addToEntryCache]. *)
Lemma runHook_Holds sizeofEntry self h st st' es :
  0 < sizeofEntry →
  entryCacheSizeinBytes mod sizeofEntry = 0 →
  CacheInv sizeofEntry st →
  Holds sizeofEntry st es →
  runHook sizeofEntry self h st = Ok tt st' →
  CacheInv sizeofEntry st'
  ∧ ∃ es', Holds sizeofEntry st' (es ++ es') ∧ hookRecords h es'.
Proof.
  intros Hsize Hdiv Hinv Hholds.
  destruct h; simpl;
    unfold recordStartBB, recordBB, recordLoad, recordStore, recordStrLoad,
      recordStrStore, recordStrcatStore, recordCall, recordReturn,
      recordExtCall, recordExtCallRet, recordInvFailure, recordSelect,
      array_load, array_store, Entry2, Entry3, Entry4;
    unfold_prims;
    repeat holds_step Hsize Hdiv Hinv; try done;
    intros [= <-];
    (split; [peel_Holds Hsize Hdiv Hinv Hholds|]);
    first
      [ exists []; rewrite app_nil_r; split; [peel_Holds Hsize Hdiv Hinv Hholds|done]
      | eexists [_]; split; [peel_Holds Hsize Hdiv Hinv Hholds|]; eauto ].
Qed.

Lemma run_all_hooks_Holds sizeofEntry self (hs : list Hook) : ∀ st st' es,
  0 < sizeofEntry →
  entryCacheSizeinBytes mod sizeofEntry = 0 →
  CacheInv sizeofEntry st →
  Holds sizeofEntry st es →
  run_all (runHook sizeofEntry self <$> hs) st = Ok tt st' →
  ∃ ess, Forall2 hookRecords hs ess
         ∧ Holds sizeofEntry st' (es ++ concat ess).
Proof.
  induction hs as [|h hs IH]; intros st st' es Hsize Hdiv Hinv Hholds Hrun.
  - simpl in Hrun. injection Hrun as <-. exists [].
    simpl. rewrite app_nil_r. by split; [constructor|].
  - simpl in Hrun. apply bind_Ok_inv in Hrun as ([] & st1 & Hh & Hrun).
    destruct (runHook_Holds _ _ _ _ _ _ Hsize Hdiv Hinv Hholds Hh)
      as (Hinv1 & es1 & Hholds1 & Hrec).
    destruct (IH _ _ _ Hsize Hdiv Hinv1 Hholds1 Hrun) as (ess & Hall & Hfinal).
    exists (es1 :: ess). split; [by constructor|].
    simpl. by rewrite app_assoc.
Qed.

(** C1. After [recordInit], the file holds the entries given to
    [addToEntryCache], in the order of the calls and with their fields, one
    record after the other from offset 0, and no other record: a rotation
    of the window loses, repeats or moves none of them.  This holds for
    every sequence of appends, whatever is done to the stacks and the
    output streams between them, and so for every sequence of hooks that
    returns: the file then holds, hook after hook, the entries that each
    of them appended. *)
Theorem trace_roundtrip sizeofEntry self name FD st0 st :
  0 < sizeofEntry →
  recordInit sizeofEntry self name FD st0 = Ok tt st →
  (∀ steps : list ((State -> State) * Entry),
     Forall (fun x => leavesTrace x.1) steps →
     ∃ st',
       run_all ((fun x => modify x.1 ;; addToEntryCache sizeofEntry x.2) <$> steps) st
         = Ok tt st'
       ∧ readTrace sizeofEntry (traceFile st') (length steps) = Some <$> steps.*2
       ∧ ∀ off, read_record (traceFile st') off ≠ None →
                ∃ i : nat, (i < length steps)%nat ∧ off = Z.of_nat i * sizeofEntry)
  ∧ (∀ self' (hs : list Hook) st',
       run_all (runHook sizeofEntry self' <$> hs) st = Ok tt st' →
       ∃ ess : list (list Entry),
         Forall2 hookRecords hs ess
         ∧ readTrace sizeofEntry (traceFile st') (length (concat ess))
             = Some <$> concat ess
         ∧ ∀ off, read_record (traceFile st') off ≠ None →
                  ∃ i : nat, (i < length (concat ess))%nat
                             ∧ off = Z.of_nat i * sizeofEntry).
Proof.
  intros Hsize Hinit.
  apply recordInit_inv in Hinit as [Hdiv ->].
  pose proof (openedState_CacheInv sizeofEntry Hsize Hdiv self name FD st0) as Hinv0.
  pose proof (openedState_Holds sizeofEntry self name FD st0) as Hholds0.
  split.
  - intros steps Hsteps.
    destruct (run_all_steps sizeofEntry steps Hsize Hdiv Hsteps
                (openedState self name FD st0) [] Hinv0 Hholds0)
      as (st' & Hrun & Hinv & Hholds).
    simpl in Hholds. exists st'. split_and!; [done|..].
    + rewrite <- (length_fmap snd steps). by apply Holds_readTrace.
    + intros off Hoff. rewrite <- (length_fmap snd steps).
      by eapply Holds_nothing_else.
  - intros self' hs st' Hrun.
    destruct (run_all_hooks_Holds sizeofEntry self' hs _ _ [] Hsize Hdiv Hinv0 Hholds0 Hrun)
      as (ess & Hall & Hholds).
    simpl in Hholds. exists ess. split_and!; [done|..].
    + by apply Holds_readTrace.
    + intros off Hoff. by eapply Holds_nothing_else.
Qed.

Lemma trace_roundtrip_witness :
  0 < 134217728
  ∧ recordInit 134217728 7 "trace.bin" 3 initialState
      = Ok tt (openedState 7 "trace.bin" 3 initialState)
  ∧ Forall (fun x : (State -> State) * Entry => leavesTrace x.1)
      [(set_BBStackIndex 1, Entry4 LDType 2 8192 8);
       (set_BBStackIndex 0, Entry4 BBType 1 4096 4294967295);
       (fun st => st, Entry3 CLType 5 4096)]
  ∧ ∃ st',
      run_all ((fun x : (State -> State) * Entry =>
                  modify x.1 ;; addToEntryCache 134217728 x.2)
               <$> [(set_BBStackIndex 1, Entry4 LDType 2 8192 8);
                    (set_BBStackIndex 0, Entry4 BBType 1 4096 4294967295);
                    (fun st => st, Entry3 CLType 5 4096)])
        (openedState 7 "trace.bin" 3 initialState) = Ok tt st'
      ∧ readTrace 134217728 (traceFile st') 3
          = [Some (Entry4 LDType 2 8192 8);
             Some (Entry4 BBType 1 4096 4294967295);
             Some (Entry3 CLType 5 4096)]
      ∧ ∀ off, read_record (traceFile st') off ≠ None →
               ∃ i : nat, (i < 3)%nat ∧ off = Z.of_nat i * 134217728.
Proof.
  assert (H1 : 0 < 134217728) by lia.
  assert (H2 : recordInit 134217728 7 "trace.bin" 3 initialState
               = Ok tt (openedState 7 "trace.bin" 3 initialState))
    by (vm_compute; reflexivity).
  assert (H3 : Forall (fun x : (State -> State) * Entry => leavesTrace x.1)
      [(set_BBStackIndex 1, Entry4 LDType 2 8192 8);
       (set_BBStackIndex 0, Entry4 BBType 1 4096 4294967295);
       (fun st => st, Entry3 CLType 5 4096)])
    by (repeat constructor).
  split; [exact H1|]. split; [exact H2|]. split; [exact H3|].
  destruct (trace_roundtrip 134217728 7 "trace.bin" 3 initialState _ H1 H2)
    as [Happ _].
  exact (Happ _ H3).
Defined.

(** ** Two runs of the specification, computed *)

(** A block is entered, a load is traced, the block ends as the last one
    of [main], and the program exits: the file holds the load, the
    basic-block record with the all-ones call id, and the end record. *)
Example end_to_end_scenario :
  ∃ st,
    (recordInit 16 7 "trace.bin" 3 ;;
     recordStartBB 16 7 1 4096 ;;
     recordLoad 16 7 2 8192 8 ;;
     recordBB 16 7 1 4096 1 ;;
     closeCacheFile 16) initialState = Ok tt st
    ∧ readTrace 16 (traceFile st) 4
        = [Some (mkEntry LDType 2 8192 8);
           Some (mkEntry BBType 1 4096 4294967295);
           Some (mkEntry ENType 0 0 0);
           None]
    ∧ size (contents (traceFile st)) = 3%nat
    ∧ BBStackIndex st = 0.
Proof.
  eexists. split; [vm_compute; reflexivity|].
  split_and!; vm_compute; reflexivity.
Qed.

(** [recordStrStore] on a string of five characters: the record has
    length 6. *)
Example strStore_length_scenario :
  ∃ st,
    recordStrStore 16 7 3 8192 "hello" sampleState = Ok tt st
    ∧ read_record (traceFile st) 0 = Some (mkEntry STType 3 8192 6).
Proof.
  eexists. split; [vm_compute; reflexivity|]. vm_compute. reflexivity.
Qed.

(** The forced write of block 190531, followed to the end of the process:
    [recordStartBB] runs [closeCacheFile] and calls [abort()]; the handler
    of SIGABRT calls [exit], and [closeCacheFile] runs a second time.  The
    file then has a second end record, at the start of the next window. *)
Example forced_write_runs_teardown_twice :
  ∃ st1 st2,
    recordStartBB 16 7 190531 4096 sampleState = Aborted st1
    ∧ cleanup_only_tracing 16 6 st1 = Ok tt st2
    ∧ readTrace 16 (traceFile st2) 3
        = [Some (mkEntry BBType 190531 4096 0);
           Some (mkEntry ENType 0 0 0);
           None]
    ∧ read_record (traceFile st2) entryCacheSizeinBytes
        = Some (mkEntry ENType 0 0 0)
    ∧ size (contents (traceFile st2)) = 3%nat
    ∧ stderr st2 = [MsgForceWrite; MsgAbnormalTermination 6].
Proof.
  eexists _, _. split; [vm_compute; reflexivity|].
  split; [vm_compute; reflexivity|].
  split_and!; vm_compute; reflexivity.
Qed.

(** * Further properties of the run-time *)

(** ** The teardown *)

Lemma run_all_app (ms1 ms2 : list (M unit)) st :
  run_all (ms1 ++ ms2) st = (run_all ms1 ;; run_all ms2) st.
Proof.
  revert st. induction ms1 as [|m ms1 IH]; intros st; simpl.
  - by rewrite bind_ret.
  - rewrite bind_bind. destruct (m st) as [[] st1| |] eqn:E.
    + rewrite !(bind_Ok _ _ _ _ _ E). apply IH.
    + unfold mbind, M_bind. by rewrite E.
    + unfold mbind, M_bind. by rewrite E.
Qed.

(** X1. The teardown closes the blocks that are still open.  From a state
    whose file holds [es], [closeCacheFile] returns, and the file then
    holds [es], the basic-block records of the frames on the basic-block
    stack, the one on top first, and the end record after them, and
    nothing else.  The stack is empty, and the window has moved on to the
    first window boundary at or after the end of the records. *)
Theorem closeCacheFile_closes_open_blocks sizeofEntry st es :
  0 < sizeofEntry →
  entryCacheSizeinBytes mod sizeofEntry = 0 →
  CacheInv sizeofEntry st →
  Holds sizeofEntry st es →
  0 <= BBStackIndex st <= maxBBStack →
  Z.of_nat (length (BBStack st)) = maxBBStack →
  ∃ st', closeCacheFile sizeofEntry st = Ok tt st'
    ∧ (∀ off, read_record (traceFile st') off
              = recordAt sizeofEntry (es ++ openBlocks st ++ [Entry2 ENType 0]) off)
    ∧ BBStackIndex st' = 0
    ∧ index (entryCache st') = 0
    ∧ fileOffset (entryCache st') - entryCacheSizeinBytes
        < Z.of_nat (length (es ++ openBlocks st ++ [Entry2 ENType 0])) * sizeofEntry
        <= fileOffset (entryCache st')
    ∧ stdout st' = stdout st ++ [MsgWritingCache]
    ∧ stderr st' = stderr st.
Proof.
  intros Hsize Hdiv Hinv Hholds Hi Hlen.
  destruct (closeCacheFile_teardown sizeofEntry st es Hsize Hdiv Hinv Hholds Hi Hlen)
    as (st' & Hrun & Hrec & H0 & Hidx & Hbounds & Ho & He).
  exists st'. split_and!; first [done | apply Hbounds].
Qed.

(** ** Blocks entered and not left *)

(** Pushes one after the other: the frames lie on the stack in the order
    of the calls, and nothing else has changed but the standard output. *)
Lemma recordStartBB_pushes_frames sizeofEntry self (l : list (Z * Z)) : ∀ st,
  Forall (fun x => x.1 ≠ 190531) l →
  Z.of_nat (length (BBStack st)) = maxBBStack →
  0 <= BBStackIndex st →
  BBStackIndex st + Z.of_nat (length l) <= maxBBStack →
  ∃ st', run_all ((fun x => recordStartBB sizeofEntry self x.1 x.2) <$> l) st
           = Ok tt st'
    ∧ BBStackIndex st' = BBStackIndex st + Z.of_nat (length l)
    ∧ Z.of_nat (length (BBStack st')) = maxBBStack
    ∧ take (Z.to_nat (BBStackIndex st')) (BBStack st')
        = take (Z.to_nat (BBStackIndex st)) (BBStack st)
          ++ ((fun x => mkFrame x.1 x.2) <$> l)
    ∧ entryCache st' = entryCache st
    ∧ traceFile st' = traceFile st
    ∧ FNStackIndex st' = FNStackIndex st
    ∧ FNStack st' = FNStack st.
Proof.
  induction l as [|[id fp] l IH]; intros st Hids Hlen Hpos Hroom.
  - exists st. simpl. rewrite Z.add_0_r, app_nil_r. done.
  - apply Forall_cons in Hids as [Hid Hids]. simpl in *.
    destruct (recordStartBB_push sizeofEntry self id fp st Hid ltac:(lia) Hlen)
      as (st1 & Hrun & Hi1 & Ha1 & _).
    destruct (recordStartBB_returned _ _ _ _ _ _ Hrun)
      as (_ & Hc1 & Hf1 & _ & _ & _ & Hn1 & Hfn1 & _).
    destruct (IH st1 Hids) as (st' & Hrun' & Hi' & Hlen' & Htake & Hc & Hf & Hn & Hfn).
    + by rewrite Ha1, length_insert.
    + lia.
    + lia.
    + exists st'. rewrite (bind_Ok _ _ _ _ _ Hrun).
      split_and!; [done|lia|done| |congruence..].
      rewrite Htake, Hi1, Ha1.
      replace (Z.to_nat (BBStackIndex st + 1)) with (S (Z.to_nat (BBStackIndex st))) by lia.
      rewrite take_S_insert by lia. by rewrite <- app_assoc.
Qed.

(** ** Calls and the blocks that end them *)

(** A call while the function-call stack has room: the call record is
    appended and the frame pushed. *)
Lemma recordCall_push sizeofEntry self id fp st :
  0 < sizeofEntry →
  entryCacheSizeinBytes mod sizeofEntry = 0 →
  CacheInv sizeofEntry st →
  StackInv st →
  FNStackIndex st < maxFNStack →
  recordCall sizeofEntry self id fp st
    = Ok tt (set_FNStackIndex (FNStackIndex st + 1)
               (set_FNStack (<[Z.to_nat (FNStackIndex st) := mkFrame id fp]> (FNStack st))
                  (appended sizeofEntry (Entry3 CLType id fp) st))).
Proof.
  intros Hsize Hdiv Hinv [_ Hlen Hn] Hroom. unfold maxFNStack in *.
  unfold recordCall. unfold_prims.
  repeat first [ hook_step Hsize Hdiv Hinv
               | progress rewrite ?appended_FNStack, ?appended_FNStackIndex in *
               | rewrite array_store_Ok by lia ]; try (unfold maxFNStack in *; lia).
  rewrite wrap32_small by lia. done.
Qed.

(** The end of the last block of a function whose frame is on top of the
    function-call stack: the frame is popped and its call id goes into the
    basic-block record. *)
Lemma recordBB_pop sizeofEntry self id fp lastBB st top :
  0 < sizeofEntry →
  entryCacheSizeinBytes mod sizeofEntry = 0 →
  CacheInv sizeofEntry st →
  lastBB ≠ 0 →
  topFN st = Some top →
  f_address top = fp →
  0 < FNStackIndex st <= maxFNStack →
  ∃ st1,
    recordBB sizeofEntry self id fp lastBB st
      = Ok tt (set_BBStackIndex (wrap32 (BBStackIndex st - 1))
                 (appended sizeofEntry (mkEntry BBType id fp (f_id top)) st1))
    ∧ entryCache st1 = entryCache st
    ∧ traceFile st1 = traceFile st
    ∧ BBStack st1 = BBStack st
    ∧ FNStack st1 = FNStack st
    ∧ FNStackIndex st1 = FNStackIndex st - 1
    ∧ stderr st1 = stderr st.
Proof.
  intros Hsize Hdiv Hinv Hlast Htop Hfp Hn. unfold maxFNStack in *.
  pose proof Htop as Htop'.
  destruct (topFN_load _ _ Htop) as [_ Hload].
  unfold topFN in Htop'. rewrite bool_decide_true in Htop' by lia.
  rewrite wrap32_small in Htop', Hload by lia.
  unfold recordBB. unfold_prims.
  rewrite (bool_decide_true (lastBB ≠ 0)) by done.
  repeat first [ hook_step Hsize Hdiv Hinv
               | rewrite wrap32_small by lia
               | rewrite Hload | lia ];
    try done;
    (eexists; split;
     [rewrite ?appended_BBStackIndex; reflexivity|]; simpl; done).
Qed.

(** X2. Blocks that were entered and never left get their basic-block
    records from the teardown, the block entered last first, before the
    end record: what [recordStartBB] keeps its stack for. *)
Theorem unfinished_blocks_closed_at_exit sizeofEntry self (l : list (Z * Z)) st es :
  0 < sizeofEntry →
  entryCacheSizeinBytes mod sizeofEntry = 0 →
  CacheInv sizeofEntry st →
  Holds sizeofEntry st es →
  BBStackIndex st = 0 →
  Z.of_nat (length (BBStack st)) = maxBBStack →
  Forall (fun x => x.1 ≠ 190531) l →
  Z.of_nat (length l) <= maxBBStack →
  ∃ st',
    (run_all ((fun x => recordStartBB sizeofEntry self x.1 x.2) <$> l) ;;
     closeCacheFile sizeofEntry) st = Ok tt st'
    ∧ (∀ off, read_record (traceFile st') off
              = recordAt sizeofEntry
                  (es ++ ((fun x => mkEntry BBType x.1 x.2 0) <$> reverse l)
                      ++ [mkEntry ENType 0 0 0]) off)
    ∧ BBStackIndex st' = 0.
Proof.
  intros Hsize Hdiv Hinv Hholds Hi Hlen Hids Hroom.
  destruct (recordStartBB_pushes_frames sizeofEntry self l st Hids Hlen)
    as (st1 & Hrun & Hi1 & Hlen1 & Htake & Hc & Hf & _); [lia..|].
  rewrite Hi in Hi1, Htake. simpl in Hi1, Htake.
  destruct (closeCacheFile_teardown sizeofEntry st1 es Hsize Hdiv)
    as (st' & Hclose & Hrec & H0 & _); [| |lia|done|].
  - by eapply CacheInv_frame.
  - by eapply Holds_frame.
  - exists st'. rewrite (bind_Ok _ _ _ _ _ Hrun). split_and!; [done| |done].
    intros off. rewrite Hrec. do 3 f_equal.
    unfold openBlocks. rewrite Htake, <- fmap_reverse, <- list_fmap_compose. done.
Qed.

(** X3. Calls nested one in the other, each ended by the last block of its
    function: every call is matched with the block that ends it.  The
    basic-block record carries the id of the call, the index of the
    function-call stack is back where it was, and the frames below it are
    as they were.  An element of [l] is the id of a call, the address of
    the function called and the id of the block that ends it. *)
Theorem calls_matched_in_reverse sizeofEntry self lastBB (l : list (Z * Z * Z)) : ∀ st es,
  0 < sizeofEntry →
  entryCacheSizeinBytes mod sizeofEntry = 0 →
  CacheInv sizeofEntry st →
  StackInv st →
  Holds sizeofEntry st es →
  lastBB ≠ 0 →
  FNStackIndex st + Z.of_nat (length l) <= maxFNStack →
  ∃ st',
    run_all (runHook sizeofEntry self <$>
               (((fun x => HCall x.1.1 x.1.2) <$> l)
                ++ ((fun x => HBB x.2 x.1.2 lastBB) <$> reverse l))) st
      = Ok tt st'
    ∧ CacheInv sizeofEntry st'
    ∧ StackInv st'
    ∧ Holds sizeofEntry st'
        (es ++ ((fun x => mkEntry CLType x.1.1 x.1.2 0) <$> l)
            ++ ((fun x => mkEntry BBType x.2 x.1.2 x.1.1) <$> reverse l))
    ∧ FNStackIndex st' = FNStackIndex st
    ∧ take (Z.to_nat (FNStackIndex st)) (FNStack st')
        = take (Z.to_nat (FNStackIndex st)) (FNStack st).
Proof.
  induction l as [|[[id fp] bb] l IH];
    intros st es Hsize Hdiv Hinv Hstack Hholds Hlast Hroom.
  - exists st. simpl. rewrite app_nil_r. done.
  - pose proof Hstack as [Hlb Hlf Hn]. unfold maxFNStack in *.
    rewrite length_cons in Hroom.
    set (calls := fun x : Z * Z * Z => HCall x.1.1 x.1.2) in *.
    set (ends := fun x : Z * Z * Z => HBB x.2 x.1.2 lastBB) in *.
    set (callEntries := fun x : Z * Z * Z => mkEntry CLType x.1.1 x.1.2 0) in *.
    set (endEntries := fun x : Z * Z * Z => mkEntry BBType x.2 x.1.2 x.1.1) in *.
    assert (runHook sizeofEntry self <$>
              ((calls <$> (id, fp, bb) :: l) ++ (ends <$> reverse ((id, fp, bb) :: l)))
            = recordCall sizeofEntry self id fp
              :: (runHook sizeofEntry self <$> ((calls <$> l) ++ (ends <$> reverse l)))
              ++ [recordBB sizeofEntry self bb fp lastBB]) as ->.
    { rewrite reverse_cons. repeat (rewrite ?fmap_app, ?fmap_cons; simpl).
      by rewrite <- ?app_assoc. }
    assert (es ++ (callEntries <$> (id, fp, bb) :: l)
              ++ (endEntries <$> reverse ((id, fp, bb) :: l))
            = ((es ++ [mkEntry CLType id fp 0]) ++ (callEntries <$> l)
                 ++ (endEntries <$> reverse l))
              ++ [mkEntry BBType bb fp id]) as ->.
    { rewrite reverse_cons. repeat (rewrite ?fmap_app, ?fmap_cons; simpl).
      by rewrite <- ?app_assoc. }
    change (run_all (?m :: ?ms)) with (m ;; run_all ms).
    pose proof (recordCall_push sizeofEntry self id fp st Hsize Hdiv Hinv Hstack
                  ltac:(unfold maxFNStack; lia)) as Hcall.
    set (st1 := set_FNStackIndex _ _) in Hcall.
    assert (CacheInv sizeofEntry st1) as Hinv1 by (subst st1; peel_setter Hinv).
    assert (StackInv st1) as Hstack1.
    { subst st1. split; simpl;
        rewrite ?length_insert, ?appended_BBStack, ?appended_FNStack,
          ?appended_FNStackIndex; try done.
      unfold maxFNStack. lia. }
    assert (Holds sizeofEntry st1 (es ++ [mkEntry CLType id fp 0])) as Hholds1.
    { subst st1. peel_Holds Hsize Hdiv Hinv Hholds. }
    assert (FNStackIndex st1 = FNStackIndex st + 1) as Hn1
      by (subst st1; simpl; by rewrite ?appended_FNStackIndex).
    assert (FNStack st1 = <[Z.to_nat (FNStackIndex st) := mkFrame id fp]> (FNStack st))
      as Hfn1 by (subst st1; simpl; by rewrite ?appended_FNStack).
    clearbody st1.
    destruct (IH st1 (es ++ [mkEntry CLType id fp 0]) Hsize Hdiv Hinv1 Hstack1 Hholds1 Hlast)
      as (st2 & Hrun2 & Hinv2 & Hstack2 & Hholds2 & Hn2 & Htake2); [lia|].
    rewrite Hn1 in Htake2.
    assert (topFN st2 = Some (mkFrame id fp)) as Htop.
    { unfold topFN. rewrite Hn2, Hn1. rewrite bool_decide_true by lia.
      rewrite wrap32_small by lia.
      replace (FNStackIndex st + 1 - 1) with (FNStackIndex st) by lia.
      rewrite <- (lookup_take_lt (FNStack st2) (Z.to_nat (FNStackIndex st + 1))) by lia.
      rewrite Htake2, lookup_take_lt by lia. rewrite Hfn1.
      apply list_lookup_insert_eq. lia. }
    destruct (recordBB_pop sizeofEntry self bb fp lastBB st2 _ Hsize Hdiv Hinv2 Hlast Htop eq_refl)
      as (st3 & Hpop & Hc3 & Hf3 & Hb3 & Hfn3 & Hn3 & _).
    { unfold maxFNStack. lia. }
    simpl f_id in Hpop.
    eexists. split.
    { rewrite (bind_Ok _ _ _ _ _ Hcall). rewrite run_all_app.
      rewrite (bind_Ok _ _ _ _ _ Hrun2).
      change (run_all [?m]) with (m ;; mret tt : M unit).
      rewrite (bind_Ok _ _ _ _ _ Hpop). reflexivity. }
    assert (CacheInv sizeofEntry st3) as Hinv3 by (by eapply CacheInv_frame).
    assert (Holds sizeofEntry st3
              ((es ++ [mkEntry CLType id fp 0]) ++ (callEntries <$> l)
                 ++ (endEntries <$> reverse l))) as Hholds3
      by (by eapply Holds_frame).
    split_and!.
    + peel_setter Hinv3.
    + destruct Hstack2 as [? ? ?].
      split; simpl; rewrite ?appended_BBStack, ?appended_FNStack, ?appended_FNStackIndex;
        rewrite ?Hb3, ?Hfn3, ?Hn3; try done. unfold maxFNStack. lia.
    + peel_Holds Hsize Hdiv Hinv3 Hholds3.
    + simpl. rewrite appended_FNStackIndex, Hn3, Hn2, Hn1. lia.
    + simpl. rewrite appended_FNStack, Hfn3.
      apply (f_equal (take (Z.to_nat (FNStackIndex st)))) in Htake2.
      rewrite !take_take in Htake2.
      rewrite Nat.min_l in Htake2 by lia. rewrite Htake2.
      rewrite Hfn1. by rewrite take_insert_ge by lia.
Qed.

(** ** Blocks that run one after the other *)

(** The end of a block that is not the last of its function: the
    function-call stack is not looked at, and the call id of the record
    is 0. *)
Lemma recordBB_not_last sizeofEntry self id fp st :
  0 < sizeofEntry →
  entryCacheSizeinBytes mod sizeofEntry = 0 →
  CacheInv sizeofEntry st →
  ∃ st1,
    recordBB sizeofEntry self id fp 0 st
      = Ok tt (set_BBStackIndex (wrap32 (BBStackIndex st - 1))
                 (appended sizeofEntry (mkEntry BBType id fp 0) st1))
    ∧ entryCache st1 = entryCache st
    ∧ traceFile st1 = traceFile st
    ∧ BBStackIndex st1 = BBStackIndex st
    ∧ BBStack st1 = BBStack st
    ∧ FNStack st1 = FNStack st
    ∧ FNStackIndex st1 = FNStackIndex st
    ∧ stderr st1 = stderr st.
Proof.
  intros Hsize Hdiv Hinv. unfold recordBB. unfold_prims.
  rewrite (bool_decide_false (0 ≠ 0)) by (intros H; by apply H).
  repeat hook_step Hsize Hdiv Hinv;
    (eexists; split;
     [rewrite ?appended_BBStackIndex; reflexivity|]; simpl; done).
Qed.

(** X4. Blocks that run one after the other, each announced by
    [recordStartBB] and ended by [recordBB] without the last-block flag:
    every call returns, the file gains the basic-block record of each
    block, in order and with call id 0, the index of the basic-block stack
    is back where it was after each block, and the function-call stack is
    not touched. *)
Theorem blocks_in_sequence sizeofEntry self (l : list (Z * Z)) : ∀ st es,
  0 < sizeofEntry →
  entryCacheSizeinBytes mod sizeofEntry = 0 →
  CacheInv sizeofEntry st →
  Holds sizeofEntry st es →
  0 <= BBStackIndex st < maxBBStack →
  Z.of_nat (length (BBStack st)) = maxBBStack →
  Forall (fun x => x.1 ≠ 190531) l →
  ∃ st',
    run_all (runHook sizeofEntry self <$>
               (l ≫= fun x => [HStartBB x.1 x.2; HBB x.1 x.2 0])) st
      = Ok tt st'
    ∧ CacheInv sizeofEntry st'
    ∧ Holds sizeofEntry st' (es ++ ((fun x => mkEntry BBType x.1 x.2 0) <$> l))
    ∧ BBStackIndex st' = BBStackIndex st
    ∧ Z.of_nat (length (BBStack st')) = maxBBStack
    ∧ FNStackIndex st' = FNStackIndex st
    ∧ FNStack st' = FNStack st.
Proof.
  induction l as [|[id fp] l IH]; intros st es Hsize Hdiv Hinv Hholds Hi Hlen Hids.
  - exists st. simpl. rewrite app_nil_r. done.
  - apply Forall_cons in Hids as [Hid Hids]. simpl in Hid.
    unfold maxBBStack in *.
    destruct (recordStartBB_push sizeofEntry self id fp st Hid
                ltac:(unfold maxBBStack; lia) ltac:(done))
      as (st1 & Hstart & Hi1 & Ha1 & _).
    destruct (recordStartBB_returned _ _ _ _ _ _ Hstart)
      as (_ & Hc1 & Hf1 & _ & _ & _ & Hn1 & Hfn1 & _).
    assert (CacheInv sizeofEntry st1) as Hinv1 by (by eapply CacheInv_frame).
    assert (Holds sizeofEntry st1 es) as Hholds1 by (by eapply Holds_frame).
    destruct (recordBB_not_last sizeofEntry self id fp st1 Hsize Hdiv Hinv1)
      as (st2 & Hend & Hc2 & Hf2 & Hi2 & Ha2 & Hfn2 & Hn2 & _).
    set (st3 := set_BBStackIndex _ _) in Hend.
    assert (CacheInv sizeofEntry st2) as Hinv2 by (by eapply CacheInv_frame).
    assert (Holds sizeofEntry st2 es) as Hholds2 by (by eapply Holds_frame).
    assert (CacheInv sizeofEntry st3) as Hinv3 by (subst st3; peel_setter Hinv2).
    assert (Holds sizeofEntry st3 (es ++ [mkEntry BBType id fp 0])) as Hholds3
      by (subst st3; peel_Holds Hsize Hdiv Hinv2 Hholds2).
    assert (BBStackIndex st3 = BBStackIndex st) as Hi3.
    { subst st3. simpl. rewrite Hi1, wrap32_small by lia. lia. }
    assert (BBStack st3 = <[Z.to_nat (BBStackIndex st) := mkFrame id fp]> (BBStack st))
      as Ha3 by (subst st3; simpl; by rewrite appended_BBStack, Ha2, Ha1).
    assert (FNStackIndex st3 = FNStackIndex st) as Hn3
      by (subst st3; simpl; by rewrite appended_FNStackIndex, Hn2, Hn1).
    assert (FNStack st3 = FNStack st) as Hfn3
      by (subst st3; simpl; by rewrite appended_FNStack, Hfn2, Hfn1).
    clearbody st3.
    destruct (IH st3 (es ++ [mkEntry BBType id fp 0]) Hsize Hdiv Hinv3 Hholds3)
      as (st' & Hrun & Hinv' & Hholds' & Hi' & Hlen' & Hn' & Hfn');
      [lia|by rewrite Ha3, length_insert|done|].
    exists st'. split.
    { change (run_all (runHook sizeofEntry self <$>
                         ((id, fp) :: l) ≫= (fun x => [HStartBB x.1 x.2; HBB x.1 x.2 0])))
        with (recordStartBB sizeofEntry self id fp ;;
              recordBB sizeofEntry self id fp 0 ;;
              run_all (runHook sizeofEntry self <$>
                         (l ≫= fun x => [HStartBB x.1 x.2; HBB x.1 x.2 0]))).
      rewrite (bind_Ok _ _ _ _ _ Hstart), (bind_Ok _ _ _ _ _ Hend). exact Hrun. }
    rewrite fmap_cons. simpl fst. simpl snd.
    rewrite <- app_assoc in Hholds'.
    split_and!; [done|done|congruence|done|congruence|congruence].
Qed.

(** ** Accesses within bounds *)

(** [recordExtCallRet] on a stack that is not empty, when the characters
    at [fp] can be read. *)
Lemma recordExtCallRet_Ok self callID fp s st top :
  topFN st = Some top →
  0 < FNStackIndex st < 2 ^ 32 →
  recordExtCallRet self callID fp (Some s) st
    = Ok tt
        (let st1 := set_stdout
                      (stdout st ++ [MsgInsideExtCallRet callID s (f_address top)]) st in
         if bool_decide (f_address top ≠ fp)
         then set_stderr (stderr st ++ [MsgFunctionMismatchExt callID]) st1
         else set_FNStackIndex (FNStackIndex st - 1) st1).
Proof.
  intros Htop Hn. destruct (topFN_load _ _ Htop) as [_ Hload].
  unfold recordExtCallRet. unfold_prims. msteps.
  rewrite (bool_decide_true (_ > 0)) by lia. msteps.
  rewrite Hload. msteps. case_bool_decide; msteps; [done|].
  by rewrite wrap32_small by lia.
Qed.

(** [recordExtCallRet] on a stack that is not empty, when the characters
    at [fp] cannot be read: [fprintf] faults. *)
Lemma recordExtCallRet_unreadable self callID fp st top :
  topFN st = Some top →
  0 < FNStackIndex st < 2 ^ 32 →
  recordExtCallRet self callID fp None st = Fault.
Proof.
  intros Htop Hn. destruct (topFN_load _ _ Htop) as [_ Hload].
  unfold recordExtCallRet. unfold_prims. msteps.
  rewrite (bool_decide_true (_ > 0)) by lia. msteps.
  rewrite Hload. by msteps.
Qed.

(** [recordExtCallRet] on an empty stack: the assertion fails before
    anything is read. *)
Lemma recordExtCallRet_empty self callID fp str st :
  FNStackIndex st = 0 →
  recordExtCallRet self callID fp str st
    = Aborted (set_stderr (stderr st ++ [MsgAssertionFailed 444]) st).
Proof.
  intros Hzero. unfold recordExtCallRet. unfold_prims. msteps.
  rewrite (bool_decide_false (_ > 0)) by lia. by msteps.
Qed.

(** The hooks other than [recordExtCallRet] stay within the two stacks,
    the mapped window and the file. *)
Lemma runHook_in_bounds sizeofEntry self h st :
  0 < sizeofEntry →
  entryCacheSizeinBytes mod sizeofEntry = 0 →
  CacheInv sizeofEntry st →
  StackInv st →
  0 <= BBStackIndex st <= maxBBStack →
  (∀ callID fp str, h ≠ HExtCallRet callID fp str) →
  runHook sizeofEntry self h st ≠ Fault.
Proof.
  intros Hsize Hdiv Hinv Hstack Hbb Hother.
  destruct (hookEntry h) as [entry|] eqn:Hentry.
  { destruct (runHook_appends sizeofEntry self h entry st Hsize Hdiv Hinv Hstack Hentry)
      as (st' & -> & _). done. }
  destruct h as [id fp|id fp lastBB| | | | | | | | |callID fp str| |]; try done; simpl.
  - (* recordStartBB *)
    destruct (decide (BBStackIndex st = maxBBStack)) as [Hfull|Hroom].
    { unfold recordStartBB. unfold_prims.
      repeat first [mstep | case_bool_decide]; done. }
    destruct (decide (id = 190531)) as [Hforce|Hid].
    + pose proof (inv_BBStack _ Hstack) as Hlen. unfold maxBBStack in *.
      unfold recordStartBB. unfold_prims.
      repeat first [ mstep | rewrite array_store_Ok by lia | case_bool_decide ];
        try done; try (exfalso; unfold maxBBStack in *; lia);
        match goal with
        | |- (closeCacheFile _ ≫= _) ?X ≠ _ =>
            destruct (closeCacheFile_Ok sizeofEntry X Hsize Hdiv) as (d & Hrun & _);
              [ peel_setter Hinv
              | simpl; rewrite wrap32_small by lia; unfold maxBBStack; lia
              | simpl; by rewrite length_insert
              | rewrite (bind_Ok _ _ _ _ _ Hrun); done ]
        end.
    + destruct (recordStartBB_push sizeofEntry self id fp st Hid ltac:(lia)
                  (inv_BBStack _ Hstack)) as (st' & -> & _). done.
  - (* recordBB *)
    destruct (recordBB_Ok sizeofEntry self id fp lastBB st Hsize Hdiv Hinv Hstack)
      as (c & st1 & -> & _). done.
  - (* recordExtCallRet *)
    by destruct (Hother callID fp str).
Qed.

(** X5. While the index of the basic-block stack is within its array, no
    hook reads or writes outside the two stacks, outside the mapped window
    or past the end of the file: it returns or it calls [abort()].  The
    one fault that is left is that of [recordExtCallRet], which prints
    [fp] with [%s]: it faults when the function-call stack is not empty
    and the characters at [fp] cannot be read, and in no other case. *)
Theorem hooks_stay_in_bounds sizeofEntry self h st :
  0 < sizeofEntry →
  entryCacheSizeinBytes mod sizeofEntry = 0 →
  CacheInv sizeofEntry st →
  StackInv st →
  0 <= BBStackIndex st <= maxBBStack →
  runHook sizeofEntry self h st = Fault
  ↔ ∃ callID fp, h = HExtCallRet callID fp None ∧ 0 < FNStackIndex st.
Proof.
  intros Hsize Hdiv Hinv Hstack Hbb.
  pose proof (inv_FNStackIndex _ Hstack) as Hn. unfold maxFNStack in Hn.
  split.
  - intros Hfault.
    destruct h as [| | | | | | | | | |callID fp str| |];
      try (exfalso;
           eapply (runHook_in_bounds sizeofEntry self); [..|exact Hfault]; done).
    simpl in Hfault.
    destruct (decide (0 < FNStackIndex st)) as [Hpos|Hzero].
    + destruct (StackInv_topFN _ Hstack Hpos) as [top Htop].
      destruct str as [s|]; [|by exists callID, fp].
      by rewrite (recordExtCallRet_Ok _ _ _ _ _ _ Htop) in Hfault by lia.
    + by rewrite recordExtCallRet_empty in Hfault by lia.
  - intros (callID & fp & -> & Hpos). simpl.
    destruct (StackInv_topFN _ Hstack Hpos) as [top Htop].
    apply (recordExtCallRet_unreadable _ _ _ _ top); [done|lia].
Qed.

(** The teardown when the index of the basic-block stack is past the end
    of the array: the loop reads [BBStack] outside its bounds at its first
    iteration. *)
Lemma closeCacheFile_out_of_bounds sizeofEntry st :
  maxBBStack < BBStackIndex st < 2 ^ 32 →
  Z.of_nat (length (BBStack st)) = maxBBStack →
  closeCacheFile sizeofEntry st = Fault.
Proof.
  intros Hi Hlen. unfold maxBBStack in *.
  unfold closeCacheFile. unfold_prims. msteps.
  destruct (Z.to_nat (BBStackIndex st)) as [|n] eqn:E; [lia|].
  simpl drainBBStack. msteps.
  rewrite (bool_decide_true (_ > 0)) by lia. msteps.
  rewrite wrap32_small by lia.
  unfold array_load. rewrite bool_decide_true by lia.
  rewrite lookup_ge_None_2 by lia. by msteps.
Qed.

(** [recordStartBB] when the index of the basic-block stack is past the end
    of the array: the push is a store outside [BBStack]. *)
Lemma recordStartBB_out_of_bounds sizeofEntry self id fp st :
  maxBBStack < BBStackIndex st →
  Z.of_nat (length (BBStack st)) = maxBBStack →
  recordStartBB sizeofEntry self id fp st = Fault.
Proof.
  intros Hi Hlen. unfold maxBBStack in *.
  unfold recordStartBB, array_store. unfold_prims.
  repeat first [ mstep | case_bool_decide ]; first [done | unfold maxBBStack in *; lia].
Qed.

(** X6. An end of block that no start of block has announced, the
    basic-block stack being empty: [recordBB] returns, with the index
    wrapped around, and from then on the start of any block and the
    teardown access [BBStack] outside its bounds. *)
Theorem unmatched_block_end_breaks_stack sizeofEntry self id fp lastBB st :
  0 < sizeofEntry →
  entryCacheSizeinBytes mod sizeofEntry = 0 →
  CacheInv sizeofEntry st →
  StackInv st →
  BBStackIndex st = 0 →
  ∃ st', recordBB sizeofEntry self id fp lastBB st = Ok tt st'
    ∧ (∀ self' id' fp', recordStartBB sizeofEntry self' id' fp' st' = Fault)
    ∧ closeCacheFile sizeofEntry st' = Fault.
Proof.
  intros Hsize Hdiv Hinv Hstack Hi.
  destruct (recordBB_Ok sizeofEntry self id fp lastBB st Hsize Hdiv Hinv Hstack)
    as (c & st1 & Hrun & _ & _ & _ & Hb & _).
  set (st' := set_BBStackIndex _ _) in Hrun.
  assert (BBStackIndex st' = 2 ^ 32 - 1) as Hi' by (subst st'; simpl; by rewrite Hi).
  assert (Z.of_nat (length (BBStack st')) = maxBBStack) as Hlen'.
  { subst st'. simpl. rewrite appended_BBStack, Hb. apply Hstack. }
  clearbody st'. exists st'. split; [done|]. unfold maxBBStack in *. split.
  - intros self' id' fp'. apply recordStartBB_out_of_bounds; unfold maxBBStack; [lia|done].
  - apply closeCacheFile_out_of_bounds; unfold maxBBStack; [lia|done].
Qed.

(** ** A flush before the window is full *)

(** X7. [flushEntryCache] moves the window on by its whole size, wherever
    the cursor is: the slots of the window that were not written stay
    empty, and the next entry goes to the first slot of the next
    window. *)
Theorem flushEntryCache_skips_free_slots sizeofEntry entry st :
  0 < sizeofEntry →
  entryCacheSizeinBytes mod sizeofEntry = 0 →
  CacheInv sizeofEntry st →
  ∃ st',
    (flushEntryCache sizeofEntry ;; addToEntryCache sizeofEntry entry) st = Ok tt st'
    ∧ fileOffset (entryCache st') = fileOffset (entryCache st) + entryCacheSizeinBytes
    ∧ index (entryCache st') = 1
    ∧ read_record (traceFile st') (fileOffset (entryCache st) + entryCacheSizeinBytes)
        = Some entry
    ∧ (∀ off, off < cursor sizeofEntry st →
              read_record (traceFile st') off = read_record (traceFile st) off)
    ∧ (∀ off, cursor sizeofEntry st <= off
              < fileOffset (entryCache st) + entryCacheSizeinBytes →
              read_record (traceFile st') off = None).
Proof.
  intros Hsize Hdiv Hinv. unfold flushEntryCache.
  rewrite (bind_Ok _ _ _ _ _ (flushCache_Ok sizeofEntry st)).
  pose proof (rotated_CacheInv _ Hsize Hdiv _ Hinv) as Hinv'.
  rewrite (addToEntryCache_Ok _ Hsize Hdiv _ _ Hinv').
  pose proof (capacity_pos _ Hsize Hdiv) as Hcap.
  pose proof (capacity_bytes _ Hsize Hdiv) as Hbytes.
  pose proof (inv_index _ _ Hinv) as Hidx.
  eexists. split; [reflexivity|].
  assert (cursor sizeofEntry (rotated sizeofEntry st)
          = fileOffset (entryCache st) + entryCacheSizeinBytes) as Hcur
    by (unfold cursor; simpl; lia).
  assert (∀ off, read_record (traceFile (appended sizeofEntry entry (rotated sizeofEntry st))) off
                 = if bool_decide (off = fileOffset (entryCache st) + entryCacheSizeinBytes)
                   then Some entry else read_record (traceFile st) off) as Hread.
  { intros off. unfold read_record.
    rewrite (appended_contents _ Hsize Hdiv) by done.
    rewrite Hcur, (rotated_contents _ Hsize Hdiv) by done.
    case_bool_decide as Hoff; [subst; apply lookup_insert_eq|by apply lookup_insert_ne]. }
  split_and!.
  - rewrite appended_fileOffset. simpl. rewrite bool_decide_false by lia. lia.
  - rewrite (appended_index _ Hsize Hdiv) by done. simpl.
    rewrite bool_decide_false by lia. done.
  - rewrite Hread. by rewrite bool_decide_true.
  - intros off Hoff. rewrite Hread. rewrite bool_decide_false; [done|].
    unfold cursor in Hoff. nia.
  - intros off Hoff. rewrite Hread. rewrite bool_decide_false by lia.
    unfold read_record. destruct (contents (traceFile st) !! off) as [e|] eqn:E; [|done].
    apply (inv_below _ _ Hinv) in E. lia.
Qed.

(** ** [recordInit] *)

(** X8. The two ways in which [recordInit] ends the program.  When the
    size of an entry does not divide the size of the window, it prints the
    size on stderr and calls [abort()] before it has opened or changed
    anything.  When [open] fails, its assertion fails: the descriptor -1
    is in [record], the line of the failed assertion is on stderr and
    nothing on stdout, and the entry cache and the file are as they were.
    It returns in no other case. *)
Theorem recordInit_failures sizeofEntry self name FD st :
  (entryCacheSizeinBytes mod sizeofEntry ≠ 0 →
   recordInit sizeofEntry self name FD st
     = Aborted (set_stderr (stderr st ++ [MsgEntrySize sizeofEntry]) st))
  ∧ (entryCacheSizeinBytes mod sizeofEntry = 0 → FD = -1 →
     recordInit sizeofEntry self name FD st
       = Aborted (set_stderr (stderr st ++ [MsgAssertionFailed 327])
                    (set_record (-1) st)))
  ∧ (∀ st', recordInit sizeofEntry self name FD st = Ok tt st' →
            entryCacheSizeinBytes mod sizeofEntry = 0 ∧ FD ≠ -1).
Proof.
  split_and!.
  - intros Hdiv. unfold recordInit. unfold_prims.
    rewrite (bool_decide_true (_ mod _ ≠ 0)) by done. by msteps.
  - intros Hdiv ->. unfold recordInit, open_trunc. unfold_prims.
    rewrite (bool_decide_false (_ mod _ ≠ 0)) by (intros H; by apply H).
    by msteps.
  - intros st' Hrun. pose proof Hrun as Hrun'.
    apply recordInit_inv in Hrun as [Hdiv _]. split; [done|]. intros ->.
    revert Hrun'. unfold recordInit, open_trunc. unfold_prims.
    rewrite (bool_decide_false (_ mod _ ≠ 0)) by (intros H; by apply H).
    by msteps.
Qed.

(** X9. [recordInit] starts an empty trace, whatever the file held and
    wherever the cursor was, and takes the calling thread as the handler
    thread; it resets neither the trace index nor the two stacks. *)
Theorem recordInit_starts_empty_trace sizeofEntry self name FD st st' :
  recordInit sizeofEntry self name FD st = Ok tt st' →
  (∀ off, read_record (traceFile st') off = None)
  ∧ cursor sizeofEntry st' = 0
  ∧ cache (entryCache st') = Some 0
  ∧ fd (entryCache st') = FD
  ∧ fsize (traceFile st') = entryCacheSizeinBytes + 2
  ∧ handlerThreadID st' = self
  ∧ trace_index st' = trace_index st
  ∧ BBStackIndex st' = BBStackIndex st
  ∧ BBStack st' = BBStack st
  ∧ FNStackIndex st' = FNStackIndex st
  ∧ FNStack st' = FNStack st.
Proof.
  intros Hrun. apply recordInit_inv in Hrun as [_ ->].
  split_and!; try reflexivity.
Qed.

(** ** The handler thread *)

(** One update of the handler thread. *)
Lemma recordHandlerThreadID_Ok self name st :
  countUpdateThreadID st ≠ 2 ^ 31 - 1 →
  recordHandlerThreadID self name st
    = Ok tt
        (set_stdout
           (stdout st ++ [MsgInsideConnection name; MsgInsideUpdateThreadID]
              ++ (if bool_decide (countUpdateThreadID st + 1 > 2)
                  then [MsgMoreThreads] else []))
           (set_countUpdateThreadID (countUpdateThreadID st + 1)
              (set_handlerThreadID self st))).
Proof.
  intros Hc. unfold recordHandlerThreadID, updateThreadID. unfold_prims. msteps.
  rewrite (bool_decide_false (_ = 2 ^ 31 - 1)) by done. msteps.
  case_bool_decide; msteps; by rewrite <- ?app_assoc, ?app_nil_r.
Qed.

(** X10. Calls of [recordHandlerThreadID] one after the other, by the
    threads and for the functions of [l]: each one makes its caller the
    handler thread and counts; the warning is printed by every update from
    the third on, the update of [recordInit] being counted too.  Nothing
    is written to the trace. *)
Theorem handler_thread_updates (l : list (Z * string)) : ∀ st,
  countUpdateThreadID st + Z.of_nat (length l) < 2 ^ 31 →
  ∃ st',
    run_all ((fun x => recordHandlerThreadID x.1 x.2) <$> l) st = Ok tt st'
    ∧ countUpdateThreadID st' = countUpdateThreadID st + Z.of_nat (length l)
    ∧ handlerThreadID st' = default (handlerThreadID st) (last l.*1)
    ∧ stdout st'
        = stdout st
          ++ mjoin (imap (fun k x =>
                            [MsgInsideConnection x.2; MsgInsideUpdateThreadID]
                              ++ (if bool_decide
                                       (countUpdateThreadID st + Z.of_nat k + 1 > 2)
                                  then [MsgMoreThreads] else [])) l)
    ∧ entryCache st' = entryCache st
    ∧ traceFile st' = traceFile st
    ∧ trace_index st' = trace_index st.
Proof.
  induction l as [|[self name] l IH]; intros st Hc.
  - exists st. simpl. rewrite app_nil_r, Z.add_0_r. done.
  - rewrite length_cons in Hc.
    change (run_all (?f <$> ?x :: ?l)) with (f x ;; run_all (f <$> l)).
    cbv beta. simpl fst. simpl snd.
    rewrite (bind_Ok _ _ _ _ _ (recordHandlerThreadID_Ok self name st ltac:(lia))).
    match goal with
    | |- ∃ st', run_all _ ?X = _ ∧ _ =>
        destruct (IH X) as (st' & Hrun & Hcount & Hself & Hout & Hcache & Hfile & Hidx)
    end; [simpl; lia|].
    exists st'. simpl in Hcount, Hself, Hout, Hcache, Hfile, Hidx.
    split_and!; [done|rewrite length_cons; lia| | |done..].
    + rewrite Hself, fmap_cons, last_cons. simpl. by destruct (last l.*1).
    + rewrite Hout, imap_cons. simpl. rewrite Z.add_0_r, <- !app_assoc. simpl.
      do 4 f_equal. f_equal. apply imap_ext. intros k x _. simpl.
      replace (countUpdateThreadID st + 1 + Z.of_nat k + 1)
        with (countUpdateThreadID st + Z.of_nat (S k) + 1) by lia. done.
Qed.

(** ** [recordExtCallRet] *)

(** X11. [recordExtCallRet] builds no entry.  On an empty function-call
    stack its assertion fails: the line of the assertion is on stderr and
    the call ends in [abort()].  Otherwise it prints a line, for which
    [fprintf] reads the characters at [fp]: when they cannot be read the
    call faults; when they can, it pops the frame on top when that frame
    is of the function at [fp], and prints the mismatch on stderr and
    leaves the stack when it is not. *)
Theorem recordExtCallRet_pops_or_reports self callID fp str st :
  StackInv st →
  (FNStackIndex st = 0 →
   recordExtCallRet self callID fp str st
     = Aborted (set_stderr (stderr st ++ [MsgAssertionFailed 444]) st))
  ∧ (0 < FNStackIndex st → str = None →
     recordExtCallRet self callID fp str st = Fault)
  ∧ (0 < FNStackIndex st → ∀ s, str = Some s →
     ∃ top st',
       topFN st = Some top
       ∧ recordExtCallRet self callID fp str st = Ok tt st'
       ∧ entryCache st' = entryCache st
       ∧ traceFile st' = traceFile st
       ∧ trace_index st' = trace_index st
       ∧ FNStack st' = FNStack st
       ∧ FNStackIndex st'
           = (if bool_decide (f_address top = fp)
              then FNStackIndex st - 1 else FNStackIndex st)
       ∧ stdout st'
           = stdout st ++ [MsgInsideExtCallRet callID s (f_address top)]
       ∧ stderr st'
           = stderr st ++ (if bool_decide (f_address top = fp)
                           then [] else [MsgFunctionMismatchExt callID])).
Proof.
  intros Hstack. pose proof (inv_FNStackIndex _ Hstack) as Hn.
  unfold maxFNStack in Hn. split_and!.
  - intros Hzero. by apply recordExtCallRet_empty.
  - intros Hpos ->. destruct (StackInv_topFN _ Hstack Hpos) as [top Htop].
    apply (recordExtCallRet_unreadable _ _ _ _ top); [done|lia].
  - intros Hpos s ->. destruct (StackInv_topFN _ Hstack Hpos) as [top Htop].
    exists top. eexists. split; [done|].
    rewrite (recordExtCallRet_Ok _ _ _ _ _ _ Htop) by lia.
    split; [reflexivity|]. cbv zeta.
    case_bool_decide as Hne.
    + rewrite (bool_decide_false (f_address top = fp)) by done. done.
    + rewrite (bool_decide_true (f_address top = fp)) by done.
      simpl. by rewrite app_nil_r.
Qed.

(** ** The hooks on strings *)

Lemma strlen_append (s1 s2 : string) :
  strlen (s1 +:+ s2) = strlen s1 + strlen s2.
Proof.
  unfold strlen. induction s1 as [|c s1 IH].
  - change ("" +:+ s2) with s2. simpl. lia.
  - change (String c s1 +:+ s2) with (String c (s1 +:+ s2)). simpl String.length.
    rewrite !Nat2Z.inj_succ. lia.
Qed.

(** An append from a state whose file holds [es]. *)
Lemma addToEntryCache_Holds sizeofEntry entry st es :
  0 < sizeofEntry →
  entryCacheSizeinBytes mod sizeofEntry = 0 →
  CacheInv sizeofEntry st →
  Holds sizeofEntry st es →
  ∃ st', addToEntryCache sizeofEntry entry st = Ok tt st'
    ∧ CacheInv sizeofEntry st'
    ∧ Holds sizeofEntry st' (es ++ [entry]).
Proof.
  intros Hsize Hdiv Hinv Hholds. exists (appended sizeofEntry entry st).
  split_and!; [by apply addToEntryCache_Ok|by apply appended_CacheInv
              |by apply Holds_appended].
Qed.

(** X12. The three calls that trace [strcat (dst, src)], made before the
    call: a load of each string with its terminator, and a store that
    begins at the terminator of [dst] and ends with the terminator of the
    concatenation, the bytes that [strcat] writes. *)
Theorem strcat_records sizeofEntry self id p q (dst src : string) st es :
  0 < sizeofEntry →
  entryCacheSizeinBytes mod sizeofEntry = 0 →
  CacheInv sizeofEntry st →
  Holds sizeofEntry st es →
  ∃ st',
    (recordStrLoad sizeofEntry self id p dst ;;
     recordStrLoad sizeofEntry self id q src ;;
     recordStrcatStore sizeofEntry self id p dst src) st = Ok tt st'
    ∧ Holds sizeofEntry st'
        (es ++ [mkEntry LDType id p (strlen dst + 1);
                mkEntry LDType id q (strlen src + 1);
                mkEntry STType id (p + strlen dst)
                  (p + strlen (dst +:+ src) + 1 - (p + strlen dst))]).
Proof.
  intros Hsize Hdiv Hinv Hholds.
  replace (p + strlen (dst +:+ src) + 1 - (p + strlen dst)) with (strlen src + 1)
    by (rewrite strlen_append; lia).
  destruct (addToEntryCache_Holds sizeofEntry (mkEntry LDType id p (strlen dst + 1))
              st es Hsize Hdiv Hinv Hholds) as (st1 & Hrun1 & Hinv1 & Hholds1).
  destruct (addToEntryCache_Holds sizeofEntry (mkEntry LDType id q (strlen src + 1))
              st1 _ Hsize Hdiv Hinv1 Hholds1) as (st2 & Hrun2 & Hinv2 & Hholds2).
  destruct (addToEntryCache_Holds sizeofEntry
              (mkEntry STType id (p + strlen dst) (strlen src + 1))
              st2 _ Hsize Hdiv Hinv2 Hholds2) as (st3 & Hrun3 & Hinv3 & Hholds3).
  exists st3. split.
  - change (recordStrLoad sizeofEntry self id p dst)
      with (addToEntryCache sizeofEntry (mkEntry LDType id p (strlen dst + 1))).
    change (recordStrLoad sizeofEntry self id q src)
      with (addToEntryCache sizeofEntry (mkEntry LDType id q (strlen src + 1))).
    change (recordStrcatStore sizeofEntry self id p dst src)
      with (addToEntryCache sizeofEntry
              (mkEntry STType id (p + strlen dst) (strlen src + 1))).
    rewrite (bind_Ok _ _ _ _ _ Hrun1), (bind_Ok _ _ _ _ _ Hrun2). exact Hrun3.
  - by rewrite <- !app_assoc in Hholds3.
Qed.

(** ** The trace index *)

(** What a hook that returns has done to the trace index. *)
Lemma runHook_trace_index sizeofEntry self h st st' :
  runHook sizeofEntry self h st = Ok tt st' →
  trace_index st'
    = match h with
      | HStartBB _ _ | HExtCallRet _ _ _ => trace_index st
      | _ => wrap32 (trace_index st + 1)
      end.
Proof.
  destruct h; simpl;
    unfold recordStartBB, recordBB, recordLoad, recordStore, recordStrLoad,
      recordStrStore, recordStrcatStore, recordCall, recordReturn,
      recordExtCall, recordExtCallRet, recordInvFailure, recordSelect,
      array_load, array_store;
    unfold_prims;
    repeat returned_step; try done;
    try (intros [= <-]); simpl in *; congruence.
Qed.

Lemma hookRecords_length h es :
  hookRecords h es →
  length es = match h with
              | HStartBB _ _ | HExtCallRet _ _ _ => 0%nat
              | _ => 1%nat
              end.
Proof. destruct h; simpl; first [by intros -> | by intros (? & ->) | by intros (? & ? & ->)]. Qed.

Lemma wrap32_add_l a b : wrap32 (wrap32 a + b) = wrap32 (a + b).
Proof. unfold wrap32. by rewrite Zplus_mod_idemp_l. Qed.

(** X13. The trace index counts the records of the file: in every state
    that a sequence of hooks returns in after [recordInit], the file holds
    some entries [es], one after the other from offset 0, and the trace
    index is the value it had before [recordInit] plus their number,
    modulo 2^32. *)
Theorem trace_index_counts_records sizeofEntry self self' name FD (hs : list Hook)
    st0 st st' :
  0 < sizeofEntry →
  0 <= trace_index st0 < 2 ^ 32 →
  recordInit sizeofEntry self name FD st0 = Ok tt st →
  run_all (runHook sizeofEntry self' <$> hs) st = Ok tt st' →
  ∃ es, Holds sizeofEntry st' es
        ∧ trace_index st' = wrap32 (trace_index st0 + Z.of_nat (length es)).
Proof.
  intros Hsize Hrange Hinit.
  apply recordInit_inv in Hinit as [Hdiv ->].
  pose proof (openedState_CacheInv sizeofEntry Hsize Hdiv self name FD st0) as Hinv.
  pose proof (openedState_Holds sizeofEntry self name FD st0) as Hholds.
  assert (trace_index (openedState self name FD st0)
          = wrap32 (trace_index st0 + Z.of_nat (length (@nil Entry)))) as Hidx
    by (simpl; rewrite Z.add_0_r, wrap32_small; done).
  revert Hinv Hholds Hidx.
  generalize (openedState self name FD st0). generalize (@nil Entry).
  induction hs as [|h hs IH]; intros es st Hinv Hholds Hidx Hrun.
  - simpl in Hrun. injection Hrun as <-. by exists es.
  - simpl in Hrun. apply bind_Ok_inv in Hrun as ([] & st1 & Hh & Hrun).
    destruct (runHook_Holds _ _ _ _ _ _ Hsize Hdiv Hinv Hholds Hh)
      as (Hinv1 & es1 & Hholds1 & Hrec).
    apply (IH (es ++ es1) st1); [done..| |done].
    rewrite (runHook_trace_index _ _ _ _ _ Hh), Hidx, length_app.
    apply hookRecords_length in Hrec. rewrite Hrec.
    destruct h; rewrite ?wrap32_add_l; f_equal; lia.
Qed.

(** ** The end of the program *)

Section Registrations_preserved.

Variable sizeofEntry : Z.
Variable n : nat.

(** [closeCacheFile] is registered [n] times. *)
Local Abbreviation Reg := (fun st : State => atexitRegistered st = n).

Lemma reg_setter (g : State -> State) :
  (∀ st, atexitRegistered (g st) = atexitRegistered st) →
  preserves Reg (modify g).
Proof. intros Hg. apply preserves_modify. intros st HP. by rewrite Hg. Qed.

Lemma reg_cache_store i e : preserves Reg (cache_store sizeofEntry i e).
Proof.
  intros st HP. unfold cache_store.
  destruct (cache (entryCache st)); [|done]. by case_bool_decide.
Qed.

Lemma reg_flushCache : preserves Reg (flushCache sizeofEntry).
Proof. intros st HP. by rewrite flushCache_Ok. Qed.

Ltac reg_step :=
  lazymatch goal with
  | |- preserves _ (mret _) => apply preserves_ret
  | |- preserves _ (gets _) => apply preserves_gets
  | |- preserves _ abort => apply preserves_abort
  | |- preserves _ fault => apply preserves_fault
  | |- preserves _ (array_load _ _) => apply preserves_array_load
  | |- preserves _ (array_store _ _ _) => apply preserves_array_store
  | |- preserves _ (read_string _) => apply preserves_read_string
  | |- preserves _ (cache_store _ _ _) => apply reg_cache_store
  | |- preserves _ (flushCache _) => apply reg_flushCache
  | |- preserves _ (modify _) => apply reg_setter; intros ?; reflexivity
  | |- preserves _ (when _ _) => apply preserves_when
  | |- preserves _ (if _ then _ else _) => apply preserves_if
  | |- preserves _ (_ ≫= _) => apply preserves_bind; [|intros ?]
  end.

Lemma reg_addToEntryCache e : preserves Reg (addToEntryCache sizeofEntry e).
Proof. unfold addToEntryCache. unfold_prims. repeat reg_step. Qed.

Lemma reg_drainBBStack k : preserves Reg (drainBBStack sizeofEntry k).
Proof.
  induction k as [|k IH]; simpl; [apply preserves_ret|].
  repeat reg_step; first [apply reg_addToEntryCache | exact IH].
Qed.

Lemma reg_closeCacheFile : preserves Reg (closeCacheFile sizeofEntry).
Proof.
  unfold closeCacheFile. unfold_prims.
  repeat reg_step; first [apply reg_addToEntryCache | apply reg_drainBBStack].
Qed.

(** No hook registers anything. *)
Lemma reg_runHook self h : preserves Reg (runHook sizeofEntry self h).
Proof.
  destruct h; simpl;
    unfold recordStartBB, recordBB, recordLoad, recordStore, recordStrLoad,
      recordStrStore, recordStrcatStore, recordCall, recordReturn,
      recordExtCall, recordExtCallRet, recordInvFailure, recordSelect;
    unfold_prims; repeat reg_step;
    first [apply reg_addToEntryCache | apply reg_closeCacheFile].
Qed.

Lemma reg_run_all_hooks self (hs : list Hook) :
  preserves Reg (run_all (runHook sizeofEntry self <$> hs)).
Proof.
  apply preserves_run_all. apply Forall_fmap, Forall_forall.
  intros h _. apply reg_runHook.
Qed.

End Registrations_preserved.

(** In a process that has called [recordInit] once, the teardown is
    registered once in every state that the hooks reach. *)
Lemma registered_once sizeofEntry self name FD (hs : list Hook) st0 st1 st :
  atexitRegistered st0 = 0%nat →
  recordInit sizeofEntry self name FD st0 = Ok tt st1 →
  run_all (runHook sizeofEntry self <$> hs) st1 = Ok tt st →
  atexitRegistered st = 1%nat.
Proof.
  intros Hnone Hinit Hrun. apply recordInit_inv in Hinit as [_ ->].
  pose proof (reg_run_all_hooks sizeofEntry 1 self hs
                (openedState self name FD st0)) as Hp.
  rewrite Hrun in Hp. apply Hp. simpl. by rewrite Hnone.
Qed.

(** X14. The handler of the terminating signals prints the signal on
    stderr and exits, and the teardown runs as many times as [recordInit]
    has registered it.  When that is once, as it is in every state that
    the hooks reach after a single call of [recordInit]
    ([registered_once]), the file is left with the records it held, the
    basic-block records of the blocks that were still open, the one
    entered last first, and the end record. *)
Theorem signal_handler_finishes_trace sizeofEntry signum st es :
  0 < sizeofEntry →
  entryCacheSizeinBytes mod sizeofEntry = 0 →
  CacheInv sizeofEntry st →
  Holds sizeofEntry st es →
  0 <= BBStackIndex st <= maxBBStack →
  Z.of_nat (length (BBStack st)) = maxBBStack →
  atexitRegistered st = 1%nat →
  ∃ st', cleanup_only_tracing sizeofEntry signum st = Ok tt st'
    ∧ (∀ off, read_record (traceFile st') off
              = recordAt sizeofEntry (es ++ openBlocks st ++ [Entry2 ENType 0]) off)
    ∧ stderr st' = stderr st ++ [MsgAbnormalTermination signum]
    ∧ BBStackIndex st' = 0.
Proof.
  intros Hsize Hdiv Hinv Hholds Hi Hlen Hreg.
  unfold cleanup_only_tracing, exit_process. unfold_prims. msteps.
  rewrite Hreg. simpl run_atexit.
  match goal with
  | |- ∃ st', (closeCacheFile _ ≫= _) ?X = _ ∧ _ =>
      destruct (closeCacheFile_teardown sizeofEntry X es Hsize Hdiv)
        as (st' & Hrun & Hrec & H0 & _ & _ & _ & Hse);
        [ eapply CacheInv_frame; [| |exact Hinv]; reflexivity
        | eapply Holds_frame; [| |exact Hholds]; reflexivity
        | done | done | ]
  end.
  exists st'. rewrite (bind_Ok _ _ _ _ _ Hrun). split_and!; [done|done| |done].
  by rewrite Hse.
Qed.

(** [recordInit] called twice registers the teardown twice: at the end of
    the process it runs twice, and the file has a second end record, at
    the start of the next window. *)
Example two_registrations_two_end_records :
  ∃ st st',
    (recordInit 16 7 "trace.bin" 3 ;;
     recordInit 16 7 "trace.bin" 3 ;;
     recordLoad 16 7 2 8192 8) initialState = Ok tt st
    ∧ atexitRegistered st = 2%nat
    ∧ cleanup_only_tracing 16 15 st = Ok tt st'
    ∧ readTrace 16 (traceFile st') 3
        = [Some (mkEntry LDType 2 8192 8);
           Some (mkEntry ENType 0 0 0);
           None]
    ∧ read_record (traceFile st') entryCacheSizeinBytes
        = Some (mkEntry ENType 0 0 0)
    ∧ size (contents (traceFile st')) = 3%nat
    ∧ trace_index st' = 3.
Proof.
  eexists _, _. split; [vm_compute; reflexivity|].
  split; [vm_compute; reflexivity|].
  split; [vm_compute; reflexivity|].
  split_and!; vm_compute; reflexivity.
Qed.

(** ** The size of the file *)

Section Trace_preserved.

Variable sizeofEntry : Z.
Variable P : State → Prop.
Hypothesis P_frame : ∀ st st',
  fileOffset (entryCache st') = fileOffset (entryCache st) →
  fpos (traceFile st') = fpos (traceFile st) →
  fsize (traceFile st') = fsize (traceFile st) →
  P st → P st'.
Hypothesis P_flush : preserves P (flushCache sizeofEntry).

Lemma preserves_setter (g : State -> State) :
  (∀ st, fileOffset (entryCache (g st)) = fileOffset (entryCache st)
         ∧ fpos (traceFile (g st)) = fpos (traceFile st)
         ∧ fsize (traceFile (g st)) = fsize (traceFile st)) →
  preserves P (modify g).
Proof.
  intros Hg. apply preserves_modify. intros st HP.
  destruct (Hg st) as (? & ? & ?). by eapply P_frame.
Qed.

Lemma preserves_cache_store i e : preserves P (cache_store sizeofEntry i e).
Proof.
  intros st HP. unfold cache_store.
  destruct (cache (entryCache st)); [|done].
  case_bool_decide; [|done]. eapply P_frame; [..|exact HP]; reflexivity.
Qed.

Ltac shape_step :=
  lazymatch goal with
  | |- preserves _ (mret _) => apply preserves_ret
  | |- preserves _ (gets _) => apply preserves_gets
  | |- preserves _ abort => apply preserves_abort
  | |- preserves _ fault => apply preserves_fault
  | |- preserves _ (array_load _ _) => apply preserves_array_load
  | |- preserves _ (array_store _ _ _) => apply preserves_array_store
  | |- preserves _ (read_string _) => apply preserves_read_string
  | |- preserves _ (cache_store _ _ _) => apply preserves_cache_store
  | |- preserves _ (flushCache _) => apply P_flush
  | |- preserves _ (modify _) =>
      apply preserves_setter; intros ?; split_and!; reflexivity
  | |- preserves _ (when _ _) => apply preserves_when
  | |- preserves _ (if _ then _ else _) => apply preserves_if
  | |- preserves _ (_ ≫= _) => apply preserves_bind; [|intros ?]
  end.

Lemma shape_addToEntryCache e : preserves P (addToEntryCache sizeofEntry e).
Proof. unfold addToEntryCache. unfold_prims. repeat shape_step. Qed.

Lemma shape_drainBBStack n : preserves P (drainBBStack sizeofEntry n).
Proof.
  induction n as [|n IH]; simpl; [apply preserves_ret|].
  repeat shape_step; first [apply shape_addToEntryCache | exact IH].
Qed.

Lemma shape_closeCacheFile : preserves P (closeCacheFile sizeofEntry).
Proof.
  unfold closeCacheFile. unfold_prims.
  repeat shape_step; first [apply shape_addToEntryCache | apply shape_drainBBStack].
Qed.

Lemma shape_runHook self h : preserves P (runHook sizeofEntry self h).
Proof.
  destruct h; simpl;
    unfold recordStartBB, recordBB, recordLoad, recordStore, recordStrLoad,
      recordStrStore, recordStrcatStore, recordCall, recordReturn,
      recordExtCall, recordExtCallRet, recordInvFailure, recordSelect;
    unfold_prims; repeat shape_step;
    first [apply shape_addToEntryCache | apply shape_closeCacheFile].
Qed.

Lemma shape_run_all_hooks self (hs : list Hook) :
  preserves P (run_all (runHook sizeofEntry self <$> hs)).
Proof.
  apply preserves_run_all. apply Forall_fmap, Forall_forall.
  intros h _. apply shape_runHook.
Qed.

End Trace_preserved.

Lemma FileShape_frame st st' :
  fileOffset (entryCache st') = fileOffset (entryCache st) →
  fpos (traceFile st') = fpos (traceFile st) →
  fsize (traceFile st') = fsize (traceFile st) →
  FileShape st → FileShape st'.
Proof.
  intros H1 H2 H3 (k & ? & ? & ? & ?). exists k. rewrite H1, H2, H3. done.
Qed.

Lemma FileShape_flushCache sizeofEntry :
  preserves FileShape (flushCache sizeofEntry).
Proof.
  intros st (k & Hk & Ho & Hp & Hs). rewrite flushCache_Ok.
  exists (k + 1). simpl. rewrite entryCacheSizeinBytes_val in *. lia.
Qed.

Lemma FileShape_openedState self name FD st :
  FileShape (openedState self name FD st).
Proof. exists 0. simpl. rewrite entryCacheSizeinBytes_val. lia. Qed.

(** X15. The size of a finished trace.  After [recordInit], hooks that
    return and the teardown, the file holds the entries [es] that the
    hooks and the loop of the teardown appended, and the end record after
    them; its size is that of one window plus one byte for [openFD] and
    for each flush, plus one byte: the file is never cut to the records
    it holds. *)
Theorem finished_trace_file_size sizeofEntry self name FD (hs : list Hook) st0 st st1 :
  0 < sizeofEntry →
  recordInit sizeofEntry self name FD st0 = Ok tt st →
  run_all (runHook sizeofEntry self <$> hs) st = Ok tt st1 →
  0 <= BBStackIndex st1 <= maxBBStack →
  Z.of_nat (length (BBStack st1)) = maxBBStack →
  ∃ es st2,
    closeCacheFile sizeofEntry st1 = Ok tt st2
    ∧ (∀ off, read_record (traceFile st2) off
              = recordAt sizeofEntry (es ++ [Entry2 ENType 0]) off)
    ∧ fsize (traceFile st2)
        = (Z.of_nat (length es) / entryCacheSize sizeofEntry + 2)
          * (entryCacheSizeinBytes + 1) + 1.
Proof.
  intros Hsize Hinit Hrun Hbb Hlen.
  apply recordInit_inv in Hinit as [Hdiv ->].
  pose proof (openedState_CacheInv sizeofEntry Hsize Hdiv self name FD st0) as Hinv0.
  pose proof (openedState_Holds sizeofEntry self name FD st0) as Hholds0.
  destruct (run_all_hooks_Holds sizeofEntry self hs _ _ [] Hsize Hdiv Hinv0 Hholds0 Hrun)
    as (ess & _ & Hholds1). simpl in Hholds1.
  assert (CacheInv sizeofEntry st1) as Hinv1.
  { pose proof (preserves_run_all (CacheInv sizeofEntry)
                  (runHook sizeofEntry self <$> hs)) as Hp.
    specialize (Hp ltac:(apply Forall_fmap, Forall_forall; intros h _;
                         by apply preserves_runHook) _ Hinv0).
    by rewrite Hrun in Hp. }
  assert (FileShape st1) as Hshape1.
  { pose proof (shape_run_all_hooks sizeofEntry FileShape FileShape_frame
                  (FileShape_flushCache sizeofEntry) self hs _
                  (FileShape_openedState self name FD st0)) as Hp.
    by rewrite Hrun in Hp. }
  destruct (closeCacheFile_teardown sizeofEntry st1 (concat ess)
              Hsize Hdiv Hinv1 Hholds1 Hbb Hlen)
    as (st2 & Hclose & Hrec & _ & _ & Hbounds & _).
  pose proof (shape_closeCacheFile sizeofEntry FileShape FileShape_frame
                (FileShape_flushCache sizeofEntry) _ Hshape1) as Hshape2.
  rewrite Hclose in Hshape2. destruct Hshape2 as (k & Hk & Hoff & _ & Hfsize).
  exists (concat ess ++ openBlocks st1), st2.
  split_and!; [done|by intros off; rewrite Hrec, <- app_assoc|].
  rewrite Hfsize. do 2 f_equal.
  rewrite app_assoc, length_app in Hbounds. simpl in Hbounds.
  pose proof (capacity_bytes _ Hsize Hdiv) as Hbytes.
  pose proof (capacity_pos _ Hsize Hdiv) as Hcap.
  rewrite Hoff, <- Hbytes in Hbounds.
  set (n := Z.of_nat (length (concat ess ++ openBlocks st1))) in *.
  assert (n = Z.of_nat (length (concat ess ++ openBlocks st1) + 1) - 1) as Hn by lia.
  set (cap := entryCacheSize sizeofEntry) in *.
  assert (n / cap = k - 1); [|lia].
  symmetry. apply (Z.div_unique n cap (k - 1) (n - cap * (k - 1))); [|lia].
  left. nia.
Qed.

(** * Numbering of basic blocks: properties *)

Import QueryBasicBlockNumbers.

Lemma nodesFrom_cons c b bs :
  nodesFrom c (b :: bs)
  = BasicBlockNumberPass.assignIDToBlock b (c + 1) :: nodesFrom (c + 1) bs.
Proof.
  unfold nodesFrom. rewrite imap_cons. simpl. rewrite Z.add_0_r. f_equal.
  apply imap_ext. intros k x _. simpl. do 2 f_equal. lia.
Qed.

Lemma nodesFrom_app c bs1 bs2 :
  nodesFrom c (bs1 ++ bs2)
  = nodesFrom c bs1 ++ nodesFrom (c + Z.of_nat (length bs1)) bs2.
Proof.
  unfold nodesFrom. rewrite imap_app. f_equal.
  apply imap_ext. intros k x _. simpl. do 2 f_equal. lia.
Qed.

(** The inner loop of the numbering pass. *)
Lemma number_blocks (bs : list BasicBlock) : ∀ c fs md ops,
  md !! mdKindName = Some ops →
  0 <= c →
  c + Z.of_nat (length bs) < 2 ^ 32 →
  foldl BasicBlockNumberPass.numberBlock (c, mkModule fs md) bs
  = (c + Z.of_nat (length bs),
     mkModule fs (<[mdKindName := ops ++ nodesFrom c bs]> md)).
Proof.
  induction bs as [|b bs IH]; intros c fs md ops Hops Hc Hlen.
  - simpl. rewrite Z.add_0_r, app_nil_r, insert_id by done. done.
  - rewrite length_cons in Hlen. simpl foldl.
    unfold BasicBlockNumberPass.numberBlock at 2. simpl.
    rewrite wrap32_small by lia. unfold addOperand. simpl.
    rewrite (IH (c + 1) fs _ (ops ++ [BasicBlockNumberPass.assignIDToBlock b (c + 1)]));
      [|by rewrite lookup_alter_eq, Hops|lia|lia].
    rewrite insert_alter_eq, nodesFrom_cons, <- app_assoc. simpl.
    f_equal. lia.
Qed.

(** The outer loop of the numbering pass. *)
Lemma number_functions (Fs : list llvm_Function) : ∀ c fs md ops,
  md !! mdKindName = Some ops →
  0 <= c →
  c + Z.of_nat (length (mjoin Fs)) < 2 ^ 32 →
  foldl BasicBlockNumberPass.numberFunction (c, mkModule fs md) Fs
  = (c + Z.of_nat (length (mjoin Fs)),
     mkModule fs (<[mdKindName := ops ++ nodesFrom c (mjoin Fs)]> md)).
Proof.
  induction Fs as [|F Fs IH]; intros c fs md ops Hops Hc Hlen.
  - simpl. rewrite Z.add_0_r, app_nil_r, insert_id by done. done.
  - simpl mjoin in *. rewrite length_app in Hlen. simpl foldl.
    unfold BasicBlockNumberPass.numberFunction at 2.
    rewrite (number_blocks F c fs md ops) by (first [done | lia]).
    rewrite (IH _ fs _ (ops ++ nodesFrom c F));
      [|by rewrite lookup_insert_eq|lia|lia].
    rewrite insert_insert_eq, nodesFrom_app, <- app_assoc, length_app.
    f_equal. lia.
Qed.

(** What the numbering pass does: it keeps the functions and adds, after
    the nodes that the module had under the name, one node for each block,
    numbered from 1 in the order of the module; it prints their number and
    reports a change. *)
Lemma runOnModule_numbers (M : llvm_Module) :
  Z.of_nat (length (blocksOf M)) < 2 ^ 32 →
  BasicBlockNumberPass.runOnModule M
  = (true,
     mkModule (functions M)
       (<[mdKindName := default [] (namedMetadata M !! mdKindName)
                          ++ nodesFrom 0 (blocksOf M)]> (namedMetadata M)),
     [MsgTotalBasicBlocks (Z.of_nat (length (blocksOf M)))]).
Proof.
  intros Hlen. destruct M as [fs md]. unfold blocksOf in *. simpl in *.
  unfold BasicBlockNumberPass.runOnModule, getOrInsertNamedMetadata. simpl.
  destruct (md !! mdKindName) as [ops|] eqn:Hops; simpl.
  - rewrite (number_functions fs 0 fs md ops) by (first [done | lia]). done.
  - rewrite (number_functions fs 0 fs _ []);
      [|by rewrite lookup_insert_eq|lia|lia].
    by rewrite insert_insert_eq.
Qed.

Lemma numbered_metadata (M : llvm_Module) :
  Z.of_nat (length (blocksOf M)) < 2 ^ 32 →
  namedMetadata (numbered M) !! mdKindName
  = Some (default [] (namedMetadata M !! mdKindName) ++ nodesFrom 0 (blocksOf M)).
Proof.
  intros Hlen. unfold numbered. rewrite runOnModule_numbers by done. simpl.
  apply lookup_insert_eq.
Qed.


(** One iteration of the query on a node of the numbering pass. *)
Lemma addNode_assigned Q BB id :
  0 < id < 2 ^ 32 →
  addNode Q (BasicBlockNumberPass.assignIDToBlock BB id)
  = match BBMap Q !! id with
    | Some _ => None
    | None => Some (mk (<[BB := id]> (IDMap Q)) (<[id := BB]> (BBMap Q)))
    end.
Proof.
  intros Hid. unfold addNode. simpl.
  rewrite bool_decide_false by lia. by rewrite wrap32_small by lia.
Qed.

(** The query over the nodes of blocks that are all different, when none
    of their numbers is in [BBMap] yet. *)
Lemma addNodes_nodesFrom (bs : list BasicBlock) : ∀ c Q,
  0 <= c →
  c + Z.of_nat (length bs) < 2 ^ 32 →
  NoDup bs →
  (∀ id, c < id <= c + Z.of_nat (length bs) → BBMap Q !! id = None) →
  ∃ Q', addNodes Q (nodesFrom c bs) = Some Q'
    ∧ (∀ (k : nat) BB, bs !! k = Some BB →
         IDMap Q' !! BB = Some (c + Z.of_nat k + 1)
         ∧ BBMap Q' !! (c + Z.of_nat k + 1) = Some BB)
    ∧ (∀ BB, BB ∉ bs → IDMap Q' !! BB = IDMap Q !! BB)
    ∧ (∀ id, ¬ (c < id <= c + Z.of_nat (length bs)) → BBMap Q' !! id = BBMap Q !! id).
Proof.
  induction bs as [|b bs IH]; intros c Q Hc Hlen Hnodup Hfree.
  - exists Q. simpl. split_and!; try done.
  - rewrite length_cons in *. apply NoDup_cons in Hnodup as [Hb Hnodup].
    rewrite nodesFrom_cons. simpl addNodes.
    rewrite addNode_assigned by lia. rewrite Hfree by lia.
    destruct (IH (c + 1) (mk (<[b := c + 1]> (IDMap Q)) (<[c + 1 := b]> (BBMap Q))))
      as (Q' & Hrun & Hin & Hout & Hother); [lia|lia|done| |].
    { intros id Hid. simpl. rewrite lookup_insert_ne by lia. apply Hfree. lia. }
    exists Q'. split; [done|]. simpl in *. split_and!.
    + intros [|k] BB Hk; simpl in Hk.
      * injection Hk as <-. rewrite Hout by done. rewrite Hother by lia.
        rewrite Z.add_0_r, !lookup_insert_eq. done.
      * destruct (Hin k BB Hk) as [H1 H2].
        replace (c + Z.of_nat (S k) + 1) with (c + 1 + Z.of_nat k + 1) by lia. done.
    + intros BB HBB. apply not_elem_of_cons in HBB as [Hne HBB].
      rewrite Hout by done. by apply lookup_insert_ne.
    + intros id Hid. rewrite Hother by lia. apply lookup_insert_ne. lia.
Qed.

(** X16. The numbering round trip.  On a module that has no numbers yet,
    the numbering pass followed by the query gives every block its
    position in the module, counted from 1, as its ID, and [getBlock]
    finds the block back from the ID; a block that is not in the module
    has ID 0, and an ID that is not a position has no block. *)
Theorem numbering_round_trip (M : llvm_Module) :
  namedMetadata M !! mdKindName = None →
  NoDup (blocksOf M) →
  Z.of_nat (length (blocksOf M)) < 2 ^ 32 →
  ∃ Q, QueryBasicBlockNumbers.runOnModule newQuery (numbered M) = Some (false, Q)
    ∧ (∀ (k : nat) BB, blocksOf M !! k = Some BB →
         QueryBasicBlockNumbers.getID Q BB = Z.of_nat k + 1 ∧ QueryBasicBlockNumbers.getBlock Q (Z.of_nat k + 1) = BB)
    ∧ (∀ BB, BB ∉ blocksOf M → QueryBasicBlockNumbers.getID Q BB = 0)
    ∧ (∀ id, ¬ (1 <= id <= Z.of_nat (length (blocksOf M))) → QueryBasicBlockNumbers.getBlock Q id = 0).
Proof.
  intros Hnone Hnodup Hlen.
  destruct (addNodes_nodesFrom (blocksOf M) 0 newQuery)
    as (Q & Hrun & Hin & Hout & Hother); [lia|lia|done|done|].
  exists Q. unfold QueryBasicBlockNumbers.runOnModule. rewrite numbered_metadata, Hnone by done.
  simpl. rewrite Hrun. split; [done|]. unfold QueryBasicBlockNumbers.getID, QueryBasicBlockNumbers.getBlock. split_and!.
  - intros k BB Hk. destruct (Hin k BB Hk) as [-> H2].
    rewrite Z.add_0_l in H2. by rewrite H2.
  - intros BB HBB. by rewrite Hout.
  - intros id Hid. rewrite Hother by lia. done.
Qed.


Lemma addNodes_cons_inv Q N ops Q' :
  addNodes Q (N :: ops) = Some Q' →
  ∃ Q1, addNode Q N = Some Q1 ∧ addNodes Q1 ops = Some Q'.
Proof. simpl. destruct (addNode Q N) as [Q1|]; [eauto|done]. Qed.




(** X18. The removal pass undoes the numbering pass: the module is as it
    was before the numbering.  On a module without numbers it changes
    nothing and says so, and the query then leaves its maps as they
    are. *)
Theorem removal_undoes_numbering (M : llvm_Module) :
  namedMetadata M !! mdKindName = None →
  Z.of_nat (length (blocksOf M)) < 2 ^ 32 →
  RemoveBasicBlockNumbers.runOnModule (numbered M) = (true, M)
  ∧ RemoveBasicBlockNumbers.runOnModule M = (false, M)
  ∧ ∀ Q, QueryBasicBlockNumbers.runOnModule Q M = Some (false, Q).
Proof.
  intros Hnone Hlen. split_and!.
  - unfold RemoveBasicBlockNumbers.runOnModule.
    rewrite numbered_metadata by done.
    unfold numbered. rewrite runOnModule_numbers by done. simpl.
    rewrite delete_insert_id by done. by destruct M.
  - unfold RemoveBasicBlockNumbers.runOnModule. by rewrite Hnone.
  - intros Q. unfold QueryBasicBlockNumbers.runOnModule. by rewrite Hnone.
Qed.

(** The two maps agree after an iteration of the query if they did
    before. *)
Lemma addNode_agree Q Node Q' :
  (∀ BB id, IDMap Q !! BB = Some id → BBMap Q !! id = Some BB) →
  addNode Q Node = Some Q' →
  ∀ BB id, IDMap Q' !! BB = Some id → BBMap Q' !! id = Some BB.
Proof.
  intros Hagree. unfold addNode.
  destruct (Node !! 0%nat) as [[B| |]|]; try done.
  destruct (Node !! 1%nat) as [[|w ID|]|]; try done.
  case_bool_decide; [done|]. simpl.
  destruct (BBMap Q !! wrap32 ID) eqn:E; [done|]. intros [= <-]. simpl.
  intros BB id Hid. destruct (decide (BB = B)) as [->|Hne].
  - rewrite lookup_insert_eq in Hid. injection Hid as <-. apply lookup_insert_eq.
  - rewrite lookup_insert_ne in Hid by done. apply Hagree in Hid.
    rewrite lookup_insert_ne; [done|]. intros <-. by rewrite E in Hid.
Qed.

Lemma addNodes_agree (ops : list MDNode) : ∀ Q Q',
  (∀ BB id, IDMap Q !! BB = Some id → BBMap Q !! id = Some BB) →
  addNodes Q ops = Some Q' →
  ∀ BB id, IDMap Q' !! BB = Some id → BBMap Q' !! id = Some BB.
Proof.
  induction ops as [|N ops IH]; intros Q Q' Hagree; simpl.
  - by intros [= <-].
  - destruct (addNode Q N) as [Q1|] eqn:E; [|done].
    apply IH. by eapply addNode_agree.
Qed.

(** X19. Whatever metadata the module carries under the name, a query
    that passes its assertions leaves maps that agree: the ID that [getID]
    gives for a block is one under which [getBlock] finds that block, so
    two blocks never share an ID that is not 0. *)
Theorem query_maps_agree (M : llvm_Module) b Q :
  QueryBasicBlockNumbers.runOnModule newQuery M = Some (b, Q) →
  b = false
  ∧ (∀ BB, QueryBasicBlockNumbers.getID Q BB ≠ 0 → QueryBasicBlockNumbers.getBlock Q (QueryBasicBlockNumbers.getID Q BB) = BB)
  ∧ (∀ BB1 BB2, QueryBasicBlockNumbers.getID Q BB1 = QueryBasicBlockNumbers.getID Q BB2 → QueryBasicBlockNumbers.getID Q BB1 ≠ 0 → BB1 = BB2).
Proof.
  unfold QueryBasicBlockNumbers.runOnModule. intros Hrun.
  assert (b = false
          ∧ ∀ BB id, IDMap Q !! BB = Some id → BBMap Q !! id = Some BB)
    as [-> Hagree].
  { destruct (namedMetadata M !! mdKindName) as [ops|].
    - destruct (addNodes newQuery ops) as [Q'|] eqn:E; [|done].
      injection Hrun as <- <-. split; [done|].
      by apply (addNodes_agree ops newQuery).
    - injection Hrun as <- <-. split; [done|]. intros BB id. simpl.
      by rewrite lookup_empty. }
  assert (∀ BB, QueryBasicBlockNumbers.getID Q BB ≠ 0 → QueryBasicBlockNumbers.getBlock Q (QueryBasicBlockNumbers.getID Q BB) = BB) as Hback.
  { intros BB. unfold QueryBasicBlockNumbers.getID, QueryBasicBlockNumbers.getBlock.
    destruct (IDMap Q !! BB) as [id|] eqn:E; [|done].
    intros _. by rewrite (Hagree _ _ E). }
  split_and!; [done|done|].
  intros BB1 BB2 Heq Hne.
  rewrite <- (Hback BB1 Hne), Heq. apply Hback. by rewrite <- Heq.
Qed.

(** X20. The query checks every node that it reads: when it returns, each
    node of the metadata has a basic block as its first operand and an
    integer constant that is not zero as its second. *)
Theorem query_checks_nodes (M : llvm_Module) Q ops b Q' :
  namedMetadata M !! mdKindName = Some ops →
  QueryBasicBlockNumbers.runOnModule Q M = Some (b, Q') →
  Forall (fun Node : MDNode =>
            ∃ BB w ID, Node !! 0%nat = Some (VBasicBlock BB)
                       ∧ Node !! 1%nat = Some (VConstantInt w ID)
                       ∧ ID ≠ 0) ops.
Proof.
  intros Hops. unfold QueryBasicBlockNumbers.runOnModule. rewrite Hops.
  destruct (addNodes Q ops) as [Q1|] eqn:Hrun; [|done]. intros _.
  clear Hops. revert Q Hrun. induction ops as [|N ops IH]; intros Q Hrun.
  - constructor.
  - apply addNodes_cons_inv in Hrun as (Q0 & HN & Hrest).
    constructor; [|by eapply IH].
    revert HN. unfold addNode.
    destruct (N !! 0%nat) as [[BB| |]|]; try done.
    destruct (N !! 1%nat) as [[|w ID|]|]; try done.
    case_bool_decide; [done|]. intros _. by exists BB, w, ID.
Qed.

(** ** The further theorems at work *)

Lemma recordInit_starts_empty_trace_witness :
  recordInit 16 7 "trace.bin" 3 initialState = Ok tt sampleState
  ∧ (∀ off, read_record (traceFile sampleState) off = None)
  ∧ cursor 16 sampleState = 0
  ∧ handlerThreadID sampleState = 7
  ∧ trace_index sampleState = trace_index initialState.
Proof.
  assert (H1 : recordInit 16 7 "trace.bin" 3 initialState = Ok tt sampleState)
    by (vm_compute; reflexivity).
  split; [exact H1|].
  destruct (recordInit_starts_empty_trace 16 7 "trace.bin" 3 initialState sampleState H1)
    as (G1 & G2 & _ & _ & _ & G3 & G4 & _).
  split_and!; [exact G1|exact G2|exact G3|exact G4].
Defined.

Lemma handler_thread_updates_witness :
  countUpdateThreadID sampleState
    + Z.of_nat (length [(8, "PrintHello"); (9, "handle_one_connection")]) < 2 ^ 31
  ∧ ∃ st',
      run_all ((fun x : Z * string => recordHandlerThreadID x.1 x.2)
               <$> [(8, "PrintHello"); (9, "handle_one_connection")]) sampleState
        = Ok tt st'
      ∧ countUpdateThreadID st' = 3
      ∧ handlerThreadID st' = 9
      ∧ stdout st'
          = stdout sampleState
            ++ [MsgInsideConnection "PrintHello"; MsgInsideUpdateThreadID;
                MsgInsideConnection "handle_one_connection"; MsgInsideUpdateThreadID;
                MsgMoreThreads].
Proof.
  assert (H1 : countUpdateThreadID sampleState
               + Z.of_nat (length [(8, "PrintHello"); (9, "handle_one_connection")])
               < 2 ^ 31) by (vm_compute; reflexivity).
  split; [exact H1|].
  destruct (handler_thread_updates [(8, "PrintHello"); (9, "handle_one_connection")]
              sampleState H1) as (st' & Hrun & Hc & Hh & Ho & _).
  exists st'. split_and!; [exact Hrun|exact Hc|exact Hh|exact Ho].
Defined.

Lemma trace_index_counts_records_witness :
  0 < 16
  ∧ 0 <= trace_index initialState < 2 ^ 32
  ∧ recordInit 16 7 "trace.bin" 3 initialState = Ok tt sampleState
  ∧ ∃ st',
      run_all (runHook 16 8 <$> [HStartBB 1 4096; HLoad 2 8192 8; HBB 1 4096 1])
        sampleState = Ok tt st'
      ∧ ∃ es, Holds 16 st' es
              ∧ trace_index st'
                  = wrap32 (trace_index initialState + Z.of_nat (length es)).
Proof.
  assert (H1 : 0 < 16) by lia.
  assert (H2 : 0 <= trace_index initialState < 2 ^ 32)
    by (split; vm_compute; [discriminate|reflexivity]).
  assert (H3 : recordInit 16 7 "trace.bin" 3 initialState = Ok tt sampleState)
    by (vm_compute; reflexivity).
  refine (conj H1 (conj H2 (conj H3 _))).
  eexists. split; [vm_compute; reflexivity|].
  eapply (trace_index_counts_records 16 7 8 "trace.bin" 3
            [HStartBB 1 4096; HLoad 2 8192 8; HBB 1 4096 1]
            initialState sampleState _ H1 H2 H3).
  vm_compute. reflexivity.
Defined.

Lemma calls_matched_in_reverse_witness :
  0 < 16
  ∧ entryCacheSizeinBytes mod 16 = 0
  ∧ CacheInv 16 sampleState
  ∧ StackInv sampleState
  ∧ Holds 16 sampleState []
  ∧ 1 ≠ 0
  ∧ FNStackIndex sampleState + Z.of_nat (length [(5, 4096, 1); (6, 8192, 2)])
    <= maxFNStack
  ∧ ∃ st',
      run_all (runHook 16 7 <$>
                 (((fun x : Z * Z * Z => HCall x.1.1 x.1.2)
                   <$> [(5, 4096, 1); (6, 8192, 2)])
                  ++ ((fun x : Z * Z * Z => HBB x.2 x.1.2 1)
                      <$> reverse [(5, 4096, 1); (6, 8192, 2)]))) sampleState
        = Ok tt st'
      ∧ Holds 16 st'
          ([] ++ ((fun x : Z * Z * Z => mkEntry CLType x.1.1 x.1.2 0)
                  <$> [(5, 4096, 1); (6, 8192, 2)])
              ++ ((fun x : Z * Z * Z => mkEntry BBType x.2 x.1.2 x.1.1)
                  <$> reverse [(5, 4096, 1); (6, 8192, 2)]))
      ∧ FNStackIndex st' = FNStackIndex sampleState.
Proof.
  assert (H1 : 0 < 16) by lia.
  assert (H2 : entryCacheSizeinBytes mod 16 = 0) by reflexivity.
  assert (H3 : CacheInv 16 sampleState) by sample_CacheInv.
  assert (H4 : StackInv sampleState) by sample_StackInv.
  assert (H5 : Holds 16 sampleState []) by sample_Holds.
  assert (H6 : 1 ≠ 0) by lia.
  assert (H7 : FNStackIndex sampleState
               + Z.of_nat (length [(5, 4096, 1); (6, 8192, 2)]) <= maxFNStack)
    by (vm_compute; discriminate).
  refine (conj H1 (conj H2 (conj H3 (conj H4 (conj H5 (conj H6 (conj H7 _))))))).
  destruct (calls_matched_in_reverse 16 7 1 [(5, 4096, 1); (6, 8192, 2)]
              sampleState [] H1 H2 H3 H4 H5 H6 H7)
    as (st' & Hrun & _ & _ & Hholds & Hn & _).
  exists st'. split_and!; [exact Hrun|exact Hholds|exact Hn].
Defined.

Lemma blocks_in_sequence_witness :
  0 < 16
  ∧ entryCacheSizeinBytes mod 16 = 0
  ∧ CacheInv 16 sampleState
  ∧ Holds 16 sampleState []
  ∧ 0 <= BBStackIndex sampleState < maxBBStack
  ∧ Z.of_nat (length (BBStack sampleState)) = maxBBStack
  ∧ Forall (fun x : Z * Z => x.1 ≠ 190531) [(1, 4096); (2, 4096)]
  ∧ ∃ st',
      run_all (runHook 16 7 <$>
                 ([(1, 4096); (2, 4096)]
                    ≫= fun x : Z * Z => [HStartBB x.1 x.2; HBB x.1 x.2 0]))
        sampleState = Ok tt st'
      ∧ Holds 16 st'
          ([] ++ ((fun x : Z * Z => mkEntry BBType x.1 x.2 0)
                  <$> [(1, 4096); (2, 4096)]))
      ∧ BBStackIndex st' = BBStackIndex sampleState.
Proof.
  assert (H1 : 0 < 16) by lia.
  assert (H2 : entryCacheSizeinBytes mod 16 = 0) by reflexivity.
  assert (H3 : CacheInv 16 sampleState) by sample_CacheInv.
  assert (H4 : Holds 16 sampleState []) by sample_Holds.
  assert (H5 : 0 <= BBStackIndex sampleState < maxBBStack)
    by (split; vm_compute; [discriminate|reflexivity]).
  assert (H6 : Z.of_nat (length (BBStack sampleState)) = maxBBStack)
    by (vm_compute; reflexivity).
  assert (H7 : Forall (fun x : Z * Z => x.1 ≠ 190531) [(1, 4096); (2, 4096)])
    by (repeat constructor; simpl; lia).
  refine (conj H1 (conj H2 (conj H3 (conj H4 (conj H5 (conj H6 (conj H7 _))))))).
  destruct (blocks_in_sequence 16 7 [(1, 4096); (2, 4096)] sampleState []
              H1 H2 H3 H4 H5 H6 H7) as (st' & Hrun & _ & Hholds & Hi & _).
  exists st'. split_and!; [exact Hrun|exact Hholds|exact Hi].
Defined.

Lemma recordExtCallRet_pops_or_reports_witness :
  StackInv calledState
  ∧ 0 < FNStackIndex calledState
  ∧ ∃ top st',
      topFN calledState = Some top
      ∧ recordExtCallRet 7 5 4096 (Some "push") calledState = Ok tt st'
      ∧ traceFile st' = traceFile calledState
      ∧ FNStackIndex st'
          = (if bool_decide (f_address top = 4096)
             then FNStackIndex calledState - 1 else FNStackIndex calledState).
Proof.
  assert (H1 : StackInv calledState) by sample_StackInv.
  assert (H2 : 0 < FNStackIndex calledState) by (vm_compute; reflexivity).
  refine (conj H1 (conj H2 _)).
  destruct (recordExtCallRet_pops_or_reports 7 5 4096 (Some "push") calledState H1)
    as (_ & _ & Hpop).
  destruct (Hpop H2 "push" eq_refl)
    as (top & st' & Htop & Hrun & _ & Hf & _ & _ & Hn & _).
  exists top, st'. split_and!; [exact Htop|exact Hrun|exact Hf|exact Hn].
Defined.

Lemma strcat_records_witness :
  0 < 16
  ∧ entryCacheSizeinBytes mod 16 = 0
  ∧ CacheInv 16 sampleState
  ∧ Holds 16 sampleState []
  ∧ ∃ st',
      (recordStrLoad 16 7 3 8192 "ab" ;;
       recordStrLoad 16 7 3 12288 "cde" ;;
       recordStrcatStore 16 7 3 8192 "ab" "cde") sampleState = Ok tt st'
      ∧ Holds 16 st'
          ([] ++ [mkEntry LDType 3 8192 (strlen "ab" + 1);
                  mkEntry LDType 3 12288 (strlen "cde" + 1);
                  mkEntry STType 3 (8192 + strlen "ab")
                    (8192 + strlen ("ab" +:+ "cde") + 1 - (8192 + strlen "ab"))]).
Proof.
  assert (H1 : 0 < 16) by lia.
  assert (H2 : entryCacheSizeinBytes mod 16 = 0) by reflexivity.
  assert (H3 : CacheInv 16 sampleState) by sample_CacheInv.
  assert (H4 : Holds 16 sampleState []) by sample_Holds.
  refine (conj H1 (conj H2 (conj H3 (conj H4 _)))).
  exact (strcat_records 16 7 3 8192 12288 "ab" "cde" sampleState [] H1 H2 H3 H4).
Defined.

Lemma hooks_stay_in_bounds_witness :
  0 < 16
  ∧ entryCacheSizeinBytes mod 16 = 0
  ∧ CacheInv 16 sampleState
  ∧ StackInv sampleState
  ∧ 0 <= BBStackIndex sampleState <= maxBBStack
  ∧ (runHook 16 7 (HStartBB 190531 4096) sampleState = Fault
     ↔ ∃ callID fp, HStartBB 190531 4096 = HExtCallRet callID fp None
                    ∧ 0 < FNStackIndex sampleState).
Proof.
  assert (H1 : 0 < 16) by lia.
  assert (H2 : entryCacheSizeinBytes mod 16 = 0) by reflexivity.
  assert (H3 : CacheInv 16 sampleState) by sample_CacheInv.
  assert (H4 : StackInv sampleState) by sample_StackInv.
  assert (H5 : 0 <= BBStackIndex sampleState <= maxBBStack)
    by (split; vm_compute; discriminate).
  refine (conj H1 (conj H2 (conj H3 (conj H4 (conj H5 _))))).
  exact (hooks_stay_in_bounds 16 7 (HStartBB 190531 4096) sampleState H1 H2 H3 H4 H5).
Defined.

Lemma unmatched_block_end_breaks_stack_witness :
  0 < 16
  ∧ entryCacheSizeinBytes mod 16 = 0
  ∧ CacheInv 16 sampleState
  ∧ StackInv sampleState
  ∧ BBStackIndex sampleState = 0
  ∧ ∃ st', recordBB 16 7 1 4096 0 sampleState = Ok tt st'
      ∧ recordStartBB 16 7 2 4096 st' = Fault
      ∧ closeCacheFile 16 st' = Fault.
Proof.
  assert (H1 : 0 < 16) by lia.
  assert (H2 : entryCacheSizeinBytes mod 16 = 0) by reflexivity.
  assert (H3 : CacheInv 16 sampleState) by sample_CacheInv.
  assert (H4 : StackInv sampleState) by sample_StackInv.
  assert (H5 : BBStackIndex sampleState = 0) by reflexivity.
  refine (conj H1 (conj H2 (conj H3 (conj H4 (conj H5 _))))).
  destruct (unmatched_block_end_breaks_stack 16 7 1 4096 0 sampleState H1 H2 H3 H4 H5)
    as (st' & Hrun & Hstart & Hclose).
  exists st'. split_and!; [exact Hrun|exact (Hstart 7 2 4096)|exact Hclose].
Defined.

Lemma flushEntryCache_skips_free_slots_witness :
  0 < 16
  ∧ entryCacheSizeinBytes mod 16 = 0
  ∧ CacheInv 16 sampleState
  ∧ ∃ st',
      (flushEntryCache 16 ;; addToEntryCache 16 (Entry4 LDType 2 8192 8)) sampleState
        = Ok tt st'
      ∧ read_record (traceFile st')
          (fileOffset (entryCache sampleState) + entryCacheSizeinBytes)
          = Some (Entry4 LDType 2 8192 8)
      ∧ (∀ off, cursor 16 sampleState <= off
                < fileOffset (entryCache sampleState) + entryCacheSizeinBytes →
                read_record (traceFile st') off = None).
Proof.
  assert (H1 : 0 < 16) by lia.
  assert (H2 : entryCacheSizeinBytes mod 16 = 0) by reflexivity.
  assert (H3 : CacheInv 16 sampleState) by sample_CacheInv.
  refine (conj H1 (conj H2 (conj H3 _))).
  destruct (flushEntryCache_skips_free_slots 16 (Entry4 LDType 2 8192 8) sampleState
              H1 H2 H3) as (st' & Hrun & _ & _ & Hread & _ & Hgap).
  exists st'. split_and!; [exact Hrun|exact Hread|exact Hgap].
Defined.

Lemma closeCacheFile_closes_open_blocks_witness :
  0 < 16
  ∧ entryCacheSizeinBytes mod 16 = 0
  ∧ CacheInv 16 twoOpenBlocks
  ∧ Holds 16 twoOpenBlocks []
  ∧ 0 <= BBStackIndex twoOpenBlocks <= maxBBStack
  ∧ Z.of_nat (length (BBStack twoOpenBlocks)) = maxBBStack
  ∧ openBlocks twoOpenBlocks = [mkEntry BBType 2 4096 0; mkEntry BBType 1 4096 0]
  ∧ ∃ st', closeCacheFile 16 twoOpenBlocks = Ok tt st'
      ∧ (∀ off, read_record (traceFile st') off
                = recordAt 16 ([] ++ openBlocks twoOpenBlocks ++ [Entry2 ENType 0]) off)
      ∧ BBStackIndex st' = 0.
Proof.
  assert (H1 : 0 < 16) by lia.
  assert (H2 : entryCacheSizeinBytes mod 16 = 0) by reflexivity.
  assert (H3 : CacheInv 16 twoOpenBlocks) by sample_CacheInv.
  assert (H4 : Holds 16 twoOpenBlocks []) by sample_Holds.
  assert (H5 : 0 <= BBStackIndex twoOpenBlocks <= maxBBStack)
    by (split; vm_compute; discriminate).
  assert (H6 : Z.of_nat (length (BBStack twoOpenBlocks)) = maxBBStack)
    by (vm_compute; reflexivity).
  assert (H7 : openBlocks twoOpenBlocks
               = [mkEntry BBType 2 4096 0; mkEntry BBType 1 4096 0])
    by (vm_compute; reflexivity).
  refine (conj H1 (conj H2 (conj H3 (conj H4 (conj H5 (conj H6 (conj H7 _))))))).
  destruct (closeCacheFile_closes_open_blocks 16 twoOpenBlocks [] H1 H2 H3 H4 H5 H6)
    as (st' & Hrun & Hrec & H0 & _).
  exists st'. split_and!; [exact Hrun|exact Hrec|exact H0].
Defined.

Lemma unfinished_blocks_closed_at_exit_witness :
  0 < 16
  ∧ entryCacheSizeinBytes mod 16 = 0
  ∧ CacheInv 16 sampleState
  ∧ Holds 16 sampleState []
  ∧ BBStackIndex sampleState = 0
  ∧ Z.of_nat (length (BBStack sampleState)) = maxBBStack
  ∧ Forall (fun x : Z * Z => x.1 ≠ 190531) [(1, 4096); (2, 4096)]
  ∧ Z.of_nat (length [(1, 4096); (2, 4096)]) <= maxBBStack
  ∧ ∃ st',
      (run_all ((fun x : Z * Z => recordStartBB 16 7 x.1 x.2)
                <$> [(1, 4096); (2, 4096)]) ;;
       closeCacheFile 16) sampleState = Ok tt st'
      ∧ (∀ off, read_record (traceFile st') off
                = recordAt 16
                    ([] ++ ((fun x : Z * Z => mkEntry BBType x.1 x.2 0)
                            <$> reverse [(1, 4096); (2, 4096)])
                        ++ [mkEntry ENType 0 0 0]) off).
Proof.
  assert (H1 : 0 < 16) by lia.
  assert (H2 : entryCacheSizeinBytes mod 16 = 0) by reflexivity.
  assert (H3 : CacheInv 16 sampleState) by sample_CacheInv.
  assert (H4 : Holds 16 sampleState []) by sample_Holds.
  assert (H5 : BBStackIndex sampleState = 0) by reflexivity.
  assert (H6 : Z.of_nat (length (BBStack sampleState)) = maxBBStack)
    by (vm_compute; reflexivity).
  assert (H7 : Forall (fun x : Z * Z => x.1 ≠ 190531) [(1, 4096); (2, 4096)])
    by (repeat constructor; simpl; lia).
  assert (H8 : Z.of_nat (length [(1, 4096); (2, 4096)]) <= maxBBStack)
    by (vm_compute; discriminate).
  refine (conj H1 (conj H2 (conj H3 (conj H4 (conj H5 (conj H6 (conj H7 (conj H8 _)))))))).
  destruct (unfinished_blocks_closed_at_exit 16 7 [(1, 4096); (2, 4096)] sampleState []
              H1 H2 H3 H4 H5 H6 H7 H8) as (st' & Hrun & Hrec & _).
  exists st'. split; [exact Hrun|exact Hrec].
Defined.

Lemma signal_handler_finishes_trace_witness :
  0 < 16
  ∧ entryCacheSizeinBytes mod 16 = 0
  ∧ CacheInv 16 twoOpenBlocks
  ∧ Holds 16 twoOpenBlocks []
  ∧ 0 <= BBStackIndex twoOpenBlocks <= maxBBStack
  ∧ Z.of_nat (length (BBStack twoOpenBlocks)) = maxBBStack
  ∧ atexitRegistered twoOpenBlocks = 1%nat
  ∧ ∃ st', cleanup_only_tracing 16 11 twoOpenBlocks = Ok tt st'
      ∧ (∀ off, read_record (traceFile st') off
                = recordAt 16 ([] ++ openBlocks twoOpenBlocks ++ [Entry2 ENType 0]) off)
      ∧ stderr st' = stderr twoOpenBlocks ++ [MsgAbnormalTermination 11].
Proof.
  assert (H1 : 0 < 16) by lia.
  assert (H2 : entryCacheSizeinBytes mod 16 = 0) by reflexivity.
  assert (H3 : CacheInv 16 twoOpenBlocks) by sample_CacheInv.
  assert (H4 : Holds 16 twoOpenBlocks []) by sample_Holds.
  assert (H5 : 0 <= BBStackIndex twoOpenBlocks <= maxBBStack)
    by (split; vm_compute; discriminate).
  assert (H6 : Z.of_nat (length (BBStack twoOpenBlocks)) = maxBBStack)
    by (vm_compute; reflexivity).
  assert (H7 : atexitRegistered twoOpenBlocks = 1%nat) by reflexivity.
  refine (conj H1 (conj H2 (conj H3 (conj H4 (conj H5 (conj H6 (conj H7 _))))))).
  destruct (signal_handler_finishes_trace 16 11 twoOpenBlocks [] H1 H2 H3 H4 H5 H6 H7)
    as (st' & Hrun & Hrec & He & _).
  exists st'. split_and!; [exact Hrun|exact Hrec|exact He].
Defined.

Lemma finished_trace_file_size_witness :
  0 < 16
  ∧ recordInit 16 7 "trace.bin" 3 initialState = Ok tt sampleState
  ∧ ∃ st1,
      run_all (runHook 16 7 <$> [HStartBB 1 4096; HLoad 2 8192 8]) sampleState
        = Ok tt st1
      ∧ 0 <= BBStackIndex st1 <= maxBBStack
      ∧ Z.of_nat (length (BBStack st1)) = maxBBStack
      ∧ ∃ es st2,
          closeCacheFile 16 st1 = Ok tt st2
          ∧ (∀ off, read_record (traceFile st2) off
                    = recordAt 16 (es ++ [Entry2 ENType 0]) off)
          ∧ fsize (traceFile st2)
              = (Z.of_nat (length es) / entryCacheSize 16 + 2)
                * (entryCacheSizeinBytes + 1) + 1.
Proof.
  assert (H1 : 0 < 16) by lia.
  assert (H2 : recordInit 16 7 "trace.bin" 3 initialState = Ok tt sampleState)
    by (vm_compute; reflexivity).
  refine (conj H1 (conj H2 _)).
  eexists. split; [vm_compute; reflexivity|].
  match goal with
  | |- 0 <= BBStackIndex ?st1 <= _ ∧ _ =>
      assert (H3 : run_all (runHook 16 7 <$> [HStartBB 1 4096; HLoad 2 8192 8])
                     sampleState = Ok tt st1) by (vm_compute; reflexivity);
      assert (H4 : 0 <= BBStackIndex st1 <= maxBBStack)
        by (split; vm_compute; discriminate);
      assert (H5 : Z.of_nat (length (BBStack st1)) = maxBBStack)
        by (vm_compute; reflexivity);
      refine (conj H4 (conj H5 _));
      exact (finished_trace_file_size 16 7 "trace.bin" 3
               [HStartBB 1 4096; HLoad 2 8192 8] initialState sampleState st1
               H1 H2 H3 H4 H5)
  end.
Defined.

Lemma numbering_round_trip_witness :
  namedMetadata sampleModule !! mdKindName = None
  ∧ NoDup (blocksOf sampleModule)
  ∧ Z.of_nat (length (blocksOf sampleModule)) < 2 ^ 32
  ∧ ∃ Q, QueryBasicBlockNumbers.runOnModule newQuery (numbered sampleModule)
           = Some (false, Q)
      ∧ QueryBasicBlockNumbers.getID Q 8192 = 3
      ∧ QueryBasicBlockNumbers.getBlock Q 3 = 8192
      ∧ QueryBasicBlockNumbers.getID Q 12288 = 0
      ∧ QueryBasicBlockNumbers.getBlock Q 4 = 0.
Proof.
  assert (H1 : namedMetadata sampleModule !! mdKindName = None) by reflexivity.
  assert (H2 : NoDup (blocksOf sampleModule))
    by (apply (bool_decide_unpack _); vm_compute; exact I).
  assert (H3 : Z.of_nat (length (blocksOf sampleModule)) < 2 ^ 32)
    by (vm_compute; reflexivity).
  refine (conj H1 (conj H2 (conj H3 _))).
  destruct (numbering_round_trip sampleModule H1 H2 H3)
    as (Q & Hrun & Hin & Hout & Hother).
  exists Q. split; [exact Hrun|].
  destruct (Hin 2%nat 8192 eq_refl) as [G1 G2].
  split_and!; [exact G1|exact G2| |].
  - apply Hout. vm_compute. intros H. repeat (apply elem_of_cons in H as [H|H]; [lia|]).
    by apply elem_of_nil in H.
  - apply Hother. vm_compute. intros [_ H]. by apply H.
Defined.


Lemma removal_undoes_numbering_witness :
  namedMetadata sampleModule !! mdKindName = None
  ∧ Z.of_nat (length (blocksOf sampleModule)) < 2 ^ 32
  ∧ RemoveBasicBlockNumbers.runOnModule (numbered sampleModule) = (true, sampleModule).
Proof.
  assert (H1 : namedMetadata sampleModule !! mdKindName = None) by reflexivity.
  assert (H2 : Z.of_nat (length (blocksOf sampleModule)) < 2 ^ 32)
    by (vm_compute; reflexivity).
  refine (conj H1 (conj H2 _)).
  exact (proj1 (removal_undoes_numbering sampleModule H1 H2)).
Defined.

Lemma query_maps_agree_witness :
  ∃ Q, QueryBasicBlockNumbers.runOnModule newQuery taggedModule = Some (false, Q)
    ∧ QueryBasicBlockNumbers.getID Q 4160 = 9
    ∧ QueryBasicBlockNumbers.getBlock Q (QueryBasicBlockNumbers.getID Q 4160) = 4160.
Proof.
  eexists. split; [vm_compute; reflexivity|].
  match goal with
  | |- QueryBasicBlockNumbers.getID ?Q _ = _ ∧ _ =>
      assert (H1 : QueryBasicBlockNumbers.runOnModule newQuery taggedModule
                   = Some (false, Q)) by (vm_compute; reflexivity);
      assert (H2 : QueryBasicBlockNumbers.getID Q 4160 = 9) by (vm_compute; reflexivity);
      split; [exact H2|];
      destruct (query_maps_agree taggedModule false Q H1) as (_ & Hback & _);
      apply Hback; rewrite H2; lia
  end.
Defined.

Lemma query_checks_nodes_witness :
  ∃ Q, QueryBasicBlockNumbers.runOnModule newQuery taggedModule = Some (false, Q)
    ∧ Forall (fun Node : MDNode =>
                ∃ BB w ID, Node !! 0%nat = Some (VBasicBlock BB)
                           ∧ Node !! 1%nat = Some (VConstantInt w ID)
                           ∧ ID ≠ 0)
        [[VBasicBlock 4096; VConstantInt 32 7];
         [VBasicBlock 4160; VConstantInt 32 9]].
Proof.
  eexists. split; [vm_compute; reflexivity|].
  eapply (query_checks_nodes taggedModule newQuery _ false); [reflexivity|].
  vm_compute. reflexivity.
Defined.
